(** * mpytools.io: the file stack over MPI ranks

    A shallow embedding of [mpytools/io.py]: the registry of file types,
    [BaseFile], and [FileStack] with its per-rank row partitions.  Python
    integers are [Z] (floor division is [Z.div]), exceptions are the
    [Raise] branch of [result], a [dict] is a [gmap], and what a
    collective ([allgather], [allreduce]) returns is computed from the
    list of the per-rank values, rank 0 first. *)

From Stdlib Require Import ZArith Lia Ascii String.
From stdpp Require Import gmap strings list sorting.

Local Open Scope Z_scope.

(** ** Exceptions *)

Inductive PyError : Type :=
  | ValueError
  | IOError
  | IndexError
  | KeyError
  | AttributeError
  | ImportError
  | TypeError
  | NotImplementedError
  | BigFileError.

Inductive result (A : Type) : Type :=
  | Ok (a : A)
  | Raise (e : PyError).

Arguments Ok {A} a.
Arguments Raise {A} e.

#[global] Instance result_bind : MBind result := λ A B k r,
  match r with
  | Ok a => k a
  | Raise e => Raise e
  end.

#[global] Instance result_ret : MRet result := λ A a, Ok a.

(** A list comprehension whose body may raise: the first exception, in
    evaluation order, is the one that propagates. *)
Fixpoint rmap {A B : Type} (f : A → result B) (l : list A) : result (list B) :=
  match l with
  | [] => Ok []
  | a :: l' => b ← f a; bs ← rmap f l'; Ok (b :: bs)
  end.

(** ** numpy helpers *)

(** [np.cumsum]. *)
Fixpoint cumsum_from (acc : Z) (l : list Z) : list Z :=
  match l with
  | [] => []
  | x :: l' => (acc + x) :: cumsum_from (acc + x) l'
  end.

Definition cumsum (l : list Z) : list Z := cumsum_from 0 l.

Definition sumZ (l : list Z) : Z := foldr Z.add 0 l.

(** [np.argsort]: the indices that sort the keys, by insertion; equal
    keys keep their order. *)
Fixpoint insert_key (x : Z * nat) (l : list (Z * nat)) : list (Z * nat) :=
  match l with
  | [] => [x]
  | y :: l' => if x.1 <=? y.1 then x :: y :: l' else y :: insert_key x l'
  end.

Definition argsort (keys : list Z) : list nat :=
  (foldr insert_key [] (zip keys (seq 0 (length keys)))).*2.

(** [a[i]] for a list; an index past the end raises. *)
Definition item {A : Type} (l : list A) (i : nat) : result A :=
  match l !! i with
  | Some a => Ok a
  | None => Raise IndexError
  end.

(** [a[i]] for an integer index checked against the bounds. *)
Definition itemZ {A : Type} (l : list A) (i : Z) : result A :=
  if 0 <=? i then item l (Z.to_nat i) else Raise IndexError.

(** [np.concatenate(tmp, axis=0, dtype=tmp[0].dtype)]: the argument
    [tmp[0]] raises on an empty list. *)
Definition concatenate (tmp : list (list Z)) : result (list Z) :=
  match tmp with
  | [] => Raise IndexError
  | _ :: _ => Ok (concat tmp)
  end.

(** The progression of [n] positions from [a] with stride [d]. *)
Definition progression (a d n : Z) : list Z := (λ j, a + j * d) <$> seqZ 0 n.

(** ** Python sequences *)

Module Py.

(** [len(range(start, stop, step))] and [range(start, stop, step)], for
    a step other than zero. *)
Definition range_len (start stop step : Z) : Z :=
  if 0 <? step then Z.max 0 ((stop - start + step - 1) / step)
  else Z.max 0 ((start - stop - step - 1) / (- step)).

Definition range (start stop step : Z) : list Z :=
  progression start step (range_len start stop step).

(** A bound of a slice over [len] items, as [slice.indices] adjusts
    it. *)
Definition adjust (len step i : Z) : Z :=
  if i <? 0 then
    if i + len <? 0 then (if step <? 0 then -1 else 0) else i + len
  else if len <=? i then (if step <? 0 then len - 1 else len)
  else i.

(** [slice(start, stop, step).indices(len)], without the step. *)
Definition indices (len : Z) (start stop : option Z) (step : Z) : Z * Z :=
  (match start with
   | Some i => adjust len step i
   | None => if step <? 0 then len - 1 else 0
   end,
   match stop with
   | Some j => adjust len step j
   | None => if step <? 0 then -1 else len
   end).

(** [a[start:stop:step]] on a sequence. *)
Definition getslice {A : Type} (a : list A) (start stop : option Z) (step : Z) :
    result (list A) :=
  if step =? 0 then Raise ValueError
  else
    let b := indices (Z.of_nat (length a)) start stop step in
    Ok (omap (λ p, a !! Z.to_nat p) (range b.1 b.2 step)).

(** [a[idx]] for an array of integers: a negative index counts from
    the end. *)
Definition getitems {A : Type} (a : list A) (idx : list Z) : result (list A) :=
  let len := Z.of_nat (length a) in
  rmap (λ i, if (- len <=? i) && (i <? len)
             then item a (Z.to_nat (if i <? 0 then i + len else i))
             else Raise IndexError) idx.

(** [np.unique(rows, return_inverse=True)]: the distinct values in
    increasing order, and for each entry of [rows] the index of its
    value among them. *)
Fixpoint insert_unique (x : Z) (l : list Z) : list Z :=
  match l with
  | [] => [x]
  | y :: l' =>
      if x <? y then x :: y :: l'
      else if x =? y then y :: l'
      else y :: insert_unique x l'
  end.

Definition unique (rows : list Z) : list Z := foldr insert_unique [] rows.

Definition unique_inverse (rows : list Z) : list Z :=
  (λ v, default 0 ((λ jy, Z.of_nat jy.1) <$> list_find (λ y, y = v) (unique rows))) <$> rows.

End Py.

(** ** The readers of the formats *)

Module Reader.

(** The [rows] argument of [_read_rows]: a [slice], whose start and
    step are integers, or an index array. *)
Inductive Rows : Type :=
  | Sl (start : Z) (stop : option Z) (step : Z)
  | Idx (idx : list Z).

(** [fitsio.read(filename, columns=column, rows=rows)]: the rows of the
    column at the positions asked for, which the library wants inside
    the table. *)
Definition fitsio_read (col : list Z) (rows : list Z) : result (list Z) :=
  if forallb (λ p, (0 <=? p) && (p <? Z.of_nat (length col))) rows
  then Ok (omap (λ p, col !! Z.to_nat p) rows)
  else Raise ValueError.

(** [FitsFile._read_rows] on the content of the column. *)
Definition fits (col : list Z) (rows : Rows) : result (list Z) :=
  match rows with
  | Sl start stop step =>
      bounds ← (if step <? 0 then Ok (default (-1) stop + 1, start + 1)
                else match stop with
                     | Some stop => Ok (start, stop)
                     | None => Raise TypeError
                     end);
      toret ← fitsio_read col (Py.range bounds.1 bounds.2 1);
      Py.getslice toret None None step
  | Idx _ => Raise AttributeError
  end.

(** [HDF5File._read_rows]: a dataset is sliced like an array, forward
    only; an index array is read through its sorted distinct values. *)
Definition hdf5 (col : list Z) (rows : Rows) : result (list Z) :=
  match rows with
  | Sl start stop step =>
      if step <? 0 then
        let stop := default (-1) stop in
        sub ← Py.getslice col (Some (stop + 1)) (Some (start + 1)) (Z.abs step);
        Py.getslice sub None None (-1)
      else Py.getslice col (Some start) stop step
  | Idx idx =>
      sub ← Py.getitems col (Py.unique idx);
      Py.getitems sub (Py.unique_inverse idx)
  end.

(** [BinaryFile._read_rows] and [AsdfFile._read_rows]: the array of
    the column indexed by [rows]. *)
Definition numpy (col : list Z) (rows : Rows) : result (list Z) :=
  match rows with
  | Sl start stop step => Py.getslice col (Some start) stop step
  | Idx idx => Py.getitems col idx
  end.

(** [BigFile._read_rows]. *)
Definition bigfile (col : list Z) (rows : Rows) : result (list Z) :=
  match rows with
  | Sl start stop step =>
      let b := if step <? 0 then (default (-1) stop + 1, Some (start + 1))
               else (start, stop) in
      sub ← Py.getslice col (Some b.1) b.2 1;
      Py.getslice sub None None step
  | Idx _ => Raise AttributeError
  end.

End Reader.

(** ** Row partitions ([mpytools.array.Slice]) *)

Module Slice.

(** Modelled from the spec: module [mpytools/array.py], which defines
    [Slice], is not among the sources.  Section 3 of the specification
    gives the data: a Partition is a tagged union of
    [Range{start, stop, step}] (the step may be negative) and
    [Indices{ordered sequence of integer positions}]. *)
Inductive t : Type :=
  | Range (start stop step : Z)
  | Indices (idx : list Z).

(** Modelled from the spec: the test on the tag of the union, for the
    "array path" taken when a partition "is Indices-represented". *)
Definition is_array (sl : t) : bool :=
  match sl with Indices _ => true | Range _ _ _ => false end.

(** Modelled from the spec: the number of positions of a
    [Range{start, stop, step}], those of [range(start, stop, step)]. *)
Definition range_size (start stop step : Z) : Z :=
  if 0 <? step then Z.max 0 ((stop - start + step - 1) / step)
  else if step <? 0 then Z.max 0 ((start - stop - step - 1) / (- step))
  else 0.

(** Modelled from the spec: the positions of a
    [Range{start, stop, step}], in order. *)
Definition range_list (start stop step : Z) : list Z :=
  (λ k, start + k * step) <$> seqZ 0 (range_size start stop step).

(** Modelled from the spec: [toIndices()], "Range can always be
    converted to Indices". *)
Definition to_array (sl : t) : list Z :=
  match sl with
  | Range start stop step => range_list start stop step
  | Indices idx => idx
  end.

(** Modelled from the spec: the size of a partition, its number of
    positions. *)
Definition size (sl : t) : Z := Z.of_nat (length (to_array sl)).

(** Modelled from the spec: the truth value of a partition, by which
    the range path does "collect non-empty pieces"; "an empty
    intersection yields an empty Partition (size 0, any
    representation)". *)
Definition nonempty (sl : t) : bool := 0 <? size sl.

(** Modelled from the spec: [sl.idx.start] and [sl.idx.step], the
    start and the step of a [Range]; they are attributes of the slice
    held by a range; an index array has neither. *)
Definition idx_start (sl : t) : result Z :=
  match sl with
  | Range start _ _ => Ok start
  | Indices _ => Raise AttributeError
  end.

(** Modelled from the spec: [sl.idx.step], see [idx_start]. *)
Definition idx_step (sl : t) : result Z :=
  match sl with
  | Range _ _ step => Ok step
  | Indices _ => Raise AttributeError
  end.

(** Modelled from the spec: a bound clamped into an interval, as
    [make] does "if size known". *)
Definition clamp (lo hi x : Z) : Z := Z.max lo (Z.min hi x).

(** Modelled from the spec: [make(start, stop, step, size=unknown)],
    "normalizes bounds; fails if step == 0; if size known, clamps
    bounds into [0, size)".  With a negative step the bounds run over
    [-1 .. size-1], the stop being exclusive. *)
Definition make (start stop step : Z) (size : option Z) : result t :=
  if step =? 0 then Raise ValueError
  else match size with
       | None => Ok (Range start stop step)
       | Some n =>
           if 0 <? step
           then Ok (Range (clamp 0 n start) (clamp 0 n stop) step)
           else Ok (Range (clamp (-1) (n - 1) start) (clamp (-1) (n - 1) stop) step)
       end.

(** Modelled from the spec: [Slice(sl, size=n)] for an existing
    partition: a range has its bounds clamped as in [make], an index
    list is kept. *)
Definition with_size (sl : t) (n : Z) : t :=
  match sl with
  | Range start stop step =>
      if 0 <? step then Range (clamp 0 n start) (clamp 0 n stop) step
      else Range (clamp (-1) (n - 1) start) (clamp (-1) (n - 1) stop) step
  | Indices idx => Indices idx
  end.

(** Modelled from the spec: [toRange()], which "fails unless the
    positions form one arithmetic progression". *)
Definition to_range (l : list Z) : option t :=
  match l with
  | [] => Some (Range 0 0 1)
  | [a] => Some (Range a (a + 1) 1)
  | a :: b :: _ =>
      let step := b - a in
      let stop := a + Z.of_nat (length l) * step in
      if bool_decide (l = range_list a stop step) then Some (Range a stop step)
      else None
  end.

(** Modelled from the spec: the representation of a computed position
    list ("any representation" when empty): an index array as
    soon as one operand is one, a range otherwise. *)
Definition pack (array : bool) (l : list Z) : t :=
  if array then Indices l
  else match to_range l with
       | Some r => r
       | None => Indices l
       end.

(** Modelled from the spec: the index, counted from [k], of the first
    position of [l] equal to [v] (matching "by value"). *)
Fixpoint index_of (v : Z) (k : Z) (l : list Z) : option Z :=
  match l with
  | [] => None
  | x :: l' => if x =? v then Some k else index_of v (k + 1) l'
  end.

(** Modelled from the spec: the correspondence [find] computes.  For
    each position of [other], in [other]'s order and counted from
    [k], the pair of its index in [self] and its offset in [other],
    when [self] holds the position. *)
Fixpoint matches (self : list Z) (k : Z) (other : list Z) : list (Z * Z) :=
  match other with
  | [] => []
  | v :: other' =>
      match index_of v 0 self with
      | Some j => (j, k) :: matches self (k + 1) other'
      | None => matches self (k + 1) other'
      end
  end.

(** Modelled from the spec: [find(other, withCorrespondence)], which
    "returns the sub-partition of self overlapping other" and, "for
    each retained position, its offset within other's own
    enumeration"; two index lists are matched "by value, not by
    position".  The first component indexes into [self]. *)
Definition find (self other : t) : t * t :=
  let m := matches (to_array self) 0 (to_array other) in
  let array := is_array self || is_array other in
  (pack array m.*1, pack array m.*2).

(** Modelled from the spec: [shift(delta)], which "translates all
    positions by delta". *)
Definition shift (sl : t) (delta : Z) : t :=
  match sl with
  | Range start stop step => Range (start + delta) (stop + delta) step
  | Indices idx => Indices ((λ i, i + delta) <$> idx)
  end.

(** Modelled from the spec: [restrictTo(other)], which "composes self
    with a sub-selection expressed in self's own coordinate space";
    the sub-selection is first bound to the size of [self]. *)
Definition slice (self sub : t) : t :=
  match self, with_size sub (size self) with
  | Range start _ step, Range a b c =>
      Range (start + a * step) (start + b * step) (step * c)
  | _, sub' =>
      Indices (omap (λ i, if 0 <=? i then to_array self !! Z.to_nat i else None)
                    (to_array sub'))
  end.

(** Modelled from the spec: [splitEvenly(n)], which "divides self into
    n parts with near-equal sizes ([floor(i*size/n)] boundaries),
    preserving relative order even for Indices". *)
Definition split (sl : t) (n : Z) : list t :=
  let sz := size sl in
  (λ i, let lo := i * sz / n in
        let hi := (i + 1) * sz / n in
        match sl with
        | Range start _ step => Range (start + lo * step) (start + hi * step) step
        | Indices idx => Indices (take (Z.to_nat (hi - lo)) (drop (Z.to_nat lo) idx))
        end) <$> seqZ 0 n.

(** Modelled from the spec: [coalesce(pieces...)], which merges "an
    ordered sequence of possibly-Indices pieces that together
    enumerate a contiguous run (forward or reverse)" into "the minimal
    ordered sequence of Range partitions": a piece is joined to the
    run that follows it whenever the two form one progression. *)
Fixpoint snap (pieces : list t) : list t :=
  match pieces with
  | [] => []
  | p :: rest =>
      match snap rest with
      | [] => [pack false (to_array p)]
      | q :: acc =>
          match to_range (to_array p ++ to_array q) with
          | Some r => r :: acc
          | None => pack false (to_array p) :: q :: acc
          end
      end
  end.

(** Modelled from the spec: the pieces of [to_slices], the maximal
    runs of an index list that are progressions, cut from
    the right. *)
Fixpoint runs (l : list Z) : list (list Z) :=
  match l with
  | [] => []
  | x :: l' =>
      match runs l' with
      | [] => [[x]]
      | r :: rs =>
          if bool_decide (is_Some (to_range (x :: r))) then (x :: r) :: rs
          else [x] :: r :: rs
      end
  end.

(** Modelled from the spec: the decomposition of an index list into
    ranges ([to_slices]), used when a shard reads ranges only. *)
Definition to_slices (sl : t) : list t :=
  pack false <$> runs (to_array sl).

(** Modelled from the spec: [sl.idx], the [slice] or the index array
    that a partition hands to the reader of a format, "pre-converted to
    a representation the shard declared support for" (section 4.3).
    A [slice] whose stop is negative would count from the end of the
    array, so the backward range that runs to the first row has no
    stop: it is the case the readers of [io.py] meet with
    [if stop is None: stop = -1]. *)
Definition idx (sl : t) : Reader.Rows :=
  match sl with
  | Range start stop step =>
      Reader.Sl start (if (step <? 0) && (stop <? 0) then None else Some stop) step
  | Indices l => Reader.Idx l
  end.

End Slice.

(** ** The communicator *)

Module MPIComm.

Record t : Type := {
  id : nat;      (* identity of the communicator object *)
  rank : Z;
  size : Z
}.

End MPIComm.

(** ** Default partitions *)

(** [FileStack.slices], the branch taken when [_slices] is unset:
    [Slice(rank * cfilesize // size, (rank + 1) * cfilesize // size, 1)]. *)
Definition default_slice (rank size cfilesize : Z) : Slice.t :=
  Slice.Range (rank * cfilesize / size) ((rank + 1) * cfilesize / size) 1.

(** The rows owned by the ranks [0 .. size-1], laid end to end in rank
    order. *)
Definition default_cover (size cfilesize : Z) : list Z :=
  r ← seqZ 0 size; Slice.to_array (default_slice r size cfilesize).

(** ** File names *)

Section filenames.

(** [str.rfind] of one character: the index of its last occurrence,
    [-1] when there is none. *)
Fixpoint rfind_from (c : ascii) (k : Z) (found : Z) (p : list ascii) : Z :=
  match p with
  | [] => found
  | x :: p' => rfind_from c (k + 1) (if Ascii.eqb x c then k else found) p'
  end.

Definition rfind (c : ascii) (p : list ascii) : Z := rfind_from c 0 (-1) p.

(** [os.path.splitext(p)[1]] on a POSIX path: the text from the last
    dot of the last component on, unless that component has only dots
    before it. *)
Definition splitext_ext (p : list ascii) : list ascii :=
  let sepIndex := rfind "/"%char p in
  let dotIndex := rfind "."%char p in
  if sepIndex <? dotIndex then
    let stem := take (Z.to_nat (dotIndex - (sepIndex + 1))) (drop (Z.to_nat (sepIndex + 1)) p) in
    if existsb (λ x, negb (Ascii.eqb x "."%char)) stem
    then drop (Z.to_nat dotIndex) p
    else []
  else [].

(** [os.path.splitext(filename)[1][1:]]. *)
Definition file_ext (filename : string) : string :=
  string_of_list_ascii (drop 1 (splitext_ext (list_ascii_of_string filename))).

(** [str.lower] on ASCII text. *)
Definition lower_ascii (c : ascii) : ascii :=
  let n := nat_of_ascii c in
  if (65 <=? n)%nat && (n <=? 90)%nat then ascii_of_nat (n + 32) else c.

Definition lower (s : string) : string :=
  string_of_list_ascii (lower_ascii <$> list_ascii_of_string s).

End filenames.

(** ** The registry of file types *)

(** A class deriving from [BaseFile], as [RegisteredFile] records it. *)
Record FileType : Type := {
  name : string;
  extensions : list string;
  _type_read_rows : list string;
  _type_write_data : list string;
  importable : bool    (* the module the format needs was imported *)
}.

#[global] Instance FileType_eq_dec : EqDecision FileType.
Proof. solve_decision. Defined.

(** [RegisteredFile._registry], a dict keyed by the class name, in the
    order the classes are defined. *)
Abbreviation Registry := (list (string * FileType)).

Definition registry_lookup (reg : Registry) (key : string) : result FileType :=
  match list_find (λ kv, kv.1 = key) reg with
  | Some (_, kv) => Ok kv.2
  | None => Raise KeyError
  end.

(** The [filetype] argument: a tag or a class. *)
Inductive FileTypeArg : Type :=
  | Tag (tag : string)
  | Class (ft : FileType).

Definition get_filetype (reg : Registry) (filetype : option FileTypeArg)
    (filename : option string) : result (option FileType) :=
  match filetype with
  | None =>
      match filename with
      | Some fn =>
          let ext := file_ext fn in
          match list_find (λ ft, ext ∈ extensions ft) reg.*2 with
          | Some (_, ft) => Ok (Some ft)
          | None => Raise IOError
          end
      | None => Ok None
      end
  | Some (Tag tag) => ft ← registry_lookup reg (lower tag); Ok (Some ft)
  | Some (Class ft) => Ok (Some ft)
  end.

(** The classes of [io.py], with [importable] for the optional modules. *)
Definition BaseFileType : FileType :=
  {| name := "base"; extensions := []; _type_read_rows := ["slice"; "index"];
     _type_write_data := ["dict"; "array"]; importable := true |}.

Definition FitsFile (fitsio : bool) : FileType :=
  {| name := "fits"; extensions := ["fits"]; _type_read_rows := ["slice"];
     _type_write_data := ["array"]; importable := fitsio |}.

Definition HDF5File (h5py : bool) : FileType :=
  {| name := "hdf5";
     extensions := ["hdf"; "h4"; "hdf4"; "he2"; "h5"; "hdf5"; "he5"; "h5py"];
     _type_read_rows := ["slice"; "index"]; _type_write_data := ["dict"];
     importable := h5py |}.

Definition BinaryFile : FileType :=
  {| name := "bin"; extensions := ["npy"]; _type_read_rows := ["slice"; "index"];
     _type_write_data := ["array"]; importable := true |}.

Definition BigFile (bigfile : bool) : FileType :=
  {| name := "bigfile"; extensions := ["bigfile"]; _type_read_rows := ["slice"];
     _type_write_data := ["dict"]; importable := bigfile |}.

Definition AsdfFile (asdf : bool) : FileType :=
  {| name := "asdf"; extensions := ["asdf"]; _type_read_rows := ["slice"];
     _type_write_data := ["dict"]; importable := asdf |}.

Definition io_registry (fitsio h5py bigfile asdf : bool) : Registry :=
  (λ ft, (name ft, ft)) <$>
    [BaseFileType; FitsFile fitsio; HDF5File h5py; BinaryFile; BigFile bigfile; AsdfFile asdf].

(** ** Files *)

(** What a file holds on disk, as its header and its reader give it. *)
Record Stored : Type := {
  s_csize : Z;
  s_columns : list string;
  s_header : gmap string Z;
  s_data : list (string * list Z)
}.

Module BaseFile.

(** An instance of a registered class.  [_csize], [_columns] and
    [_header] hold what [_read_header] resolves on first access;
    [data] is the content the format's reader draws the rows from. *)
Record t : Type := {
  cls : FileType;
  filename : string;
  mpicomm : MPIComm.t;
  mpiroot : Z;
  _csize : Z;
  _columns : list string;
  _header : gmap string Z;
  data : list (string * list Z)
}.

Definition csize (f : t) : Z := _csize f.
Definition columns (f : t) : list string := _columns f.
Definition header (f : t) : gmap string Z := _header f.

(** [FT(filename, mpicomm=mpicomm)]: the constructors of the formats
    that need an optional module raise when it is missing. *)
Definition new (disk : string → Stored) (FT : FileType) (fn : string)
    (comm : MPIComm.t) : result t :=
  if importable FT then
    Ok {| cls := FT; filename := fn; mpicomm := comm; mpiroot := 0;
          _csize := s_csize (disk fn); _columns := s_columns (disk fn);
          _header := s_header (disk fn); data := s_data (disk fn) |}
  else Raise ImportError.

Definition set_csize (f : t) (n : Z) : t :=
  {| cls := cls f; filename := filename f; mpicomm := mpicomm f;
     mpiroot := mpiroot f; _csize := n; _columns := _columns f;
     _header := _header f; data := data f |}.

Definition column_data (f : t) (column : string) : option (list Z) :=
  (λ kv, kv.2.2) <$> list_find (λ kv, kv.1 = column) (data f).

(** The method [_read_rows] of the class of the file, on the content
    of a column: each format of [io.py] has its own; a class without
    one inherits that of [BaseFile], which raises. *)
Definition reader (FT : FileType) : option (list Z → Reader.Rows → result (list Z)) :=
  if decide (FT = FitsFile (importable FT)) then Some Reader.fits
  else if decide (FT = HDF5File (importable FT)) then Some Reader.hdf5
  else if decide (FT = BinaryFile) then Some Reader.numpy
  else if decide (FT = BigFile (importable FT)) then Some Reader.bigfile
  else if decide (FT = AsdfFile (importable FT)) then Some Reader.numpy
  else None.

(** What the library of the format raises for a column the file does
    not hold: the mappings of [h5py] and [asdf] raise [KeyError], the
    structured arrays of [numpy] and [fitsio] raise [ValueError],
    [bigfile] raises its own error. *)
Definition missing_column (FT : FileType) : PyError :=
  if decide (FT = HDF5File (importable FT)) then KeyError
  else if decide (FT = AsdfFile (importable FT)) then KeyError
  else if decide (FT = BigFile (importable FT)) then BigFileError
  else ValueError.

(** [self._read_rows(column, rows=row)]: the reader of the class of the
    file on the column, [rows] being the [slice] or the index array of
    the partition.  For a column the file does not hold the error is
    the one the library raises for the name; a reader that looks at the
    rows first (the memory map of [BinaryFile] is indexed by [rows]
    before the column is taken) may raise on them instead: the call
    raises either way. *)
Definition _read_rows (f : t) (column : string) (rows : Slice.t) : result (list Z) :=
  match reader (cls f) with
  | None => Raise NotImplementedError
  | Some read =>
      match column_data f column with
      | None => Raise (missing_column (cls f))
      | Some col => read col (Slice.idx rows)
      end
  end.

(** The row arguments [read] hands to [_read_rows]. *)
Definition read_pieces (f : t) (rows : Slice.t) : list Slice.t :=
  let sl := Slice.with_size rows (csize f) in
  if Slice.is_array sl then
    if bool_decide ("index" ∈ _type_read_rows (cls f)) then [sl]
    else Slice.to_slices sl
  else
    if bool_decide ("slice" ∈ _type_read_rows (cls f)) then [sl]
    else [Slice.Indices (Slice.to_array sl)].

Definition read (f : t) (column : string) (rows : Slice.t) : result (list Z) :=
  tmp ← rmap (_read_rows f column) (read_pieces f rows);
  concatenate tmp.

End BaseFile.

(** ** The stack of files *)

Module FileStack.

Record t : Type := {
  files : list BaseFile.t;
  mpicomm : MPIComm.t;
  mpiroot : Z;
  _slices : option (list Slice.t)
}.

(** The constructor, on the flattened list of its positional
    arguments: an entry is a [BaseFile] or a file name. *)
Definition __init__ (reg : Registry) (disk : string → Stored)
    (inputs : list (BaseFile.t + string)) (filetype : option FileTypeArg)
    (comm : MPIComm.t) : result t :=
  fs ← rmap (λ file,
               match file with
               | inl f => Ok f
               | inr fn =>
                   FT ← get_filetype reg filetype (Some fn);
                   match FT with
                   | Some ft => BaseFile.new disk ft fn comm
                   | None => Raise TypeError
                   end
               end) inputs;
  if forallb (λ f, MPIComm.id (BaseFile.mpicomm f) =? MPIComm.id comm)%nat fs
  then Ok {| files := fs; mpicomm := comm; mpiroot := 0; _slices := None |}
  else Raise ValueError.

Definition filesizes (st : t) : list Z := BaseFile.csize <$> files st.

Definition cfilesize (st : t) : Z := sumZ (filesizes st).

Definition slices (st : t) : list Slice.t :=
  match _slices st with
  | Some sl => sl
  | None => [default_slice (MPIComm.rank (mpicomm st)) (MPIComm.size (mpicomm st)) (cfilesize st)]
  end.

(** The list that the property [columns] computes from the files when
    the attribute [_columns] is not set, and then keeps in it (the body
    under the test on [_columns]); the property with its cache is
    [Cached.columns]. *)
Definition columns (st : t) : list string :=
  match files st with
  | [] => []
  | f0 :: rest =>
      List.filter
        (λ column, forallb (λ file, bool_decide (column ∈ BaseFile.columns file)) rest)
        (BaseFile.columns f0)
  end.

(** [dict.update]: the keys of the argument replace those present. *)
Definition update (d other : gmap string Z) : gmap string Z := other ∪ d.

(** The dict that the property [header] builds from the files when the
    attribute [_header] is not set, and then keeps in it; the property
    with its cache is [Cached.header]. *)
Definition header (st : t) : gmap string Z :=
  foldl (λ h file, update h (BaseFile.header file)) ∅ (files st).

(** For every partition of the rank, the overlap of each file's window
    [[cumsizes[i], cumsizes[i+1])] with it: the rows of the file and
    their offsets in the partition. *)
Definition fileslices (st : t) : list (list (Slice.t * Slice.t)) :=
  let cumsizes := cumsum (0 :: filesizes st) in
  (λ sli, (λ w, Slice.find (Slice.Range w.1 w.2 1) sli) <$> zip cumsizes (tail cumsizes))
    <$> slices st.

Definition size (st : t) : Z := sumZ (Slice.size <$> slices st).

(** The body of the outer loop of [read] for one partition [sli] and
    its overlaps: what it adds to [toret]. *)
Definition read_slice (st : t) (column : string) (sli : Slice.t)
    (overlaps : list (Slice.t * Slice.t)) : result (list (list Z)) :=
  let hits := List.filter (λ fp, Slice.nonempty fp.2.1) (zip (files st) overlaps) in
  tmp ← rmap (λ fp, BaseFile.read fp.1 column fp.2.1) hits;
  let idx := (λ fp, fp.2.2) <$> hits in
  match tmp with
  | [] => Ok []
  | _ :: _ =>
      if Slice.is_array sli then
        sorted ← rmap (item (concat tmp)) (argsort (concat (Slice.to_array <$> idx)));
        Ok [sorted]
      else
        starts ← rmap Slice.idx_start idx;
        rmap (item tmp) (argsort starts)
  end.

Definition read (st : t) (column : string) : result (list Z) :=
  toret ← rmap (λ so, read_slice st column so.1 so.2) (zip (slices st) (fileslices st));
  concatenate (concat toret).

Definition set_slices (st : t) (sl : option (list Slice.t)) : t :=
  {| files := files st; mpicomm := mpicomm st; mpiroot := mpiroot st; _slices := sl |}.

(** [write], from the collective size exchange on: [sizes] is
    [allgather(size)], the length of each rank's data.  The result is
    the stack with the new file sizes and, in call order, the file and
    the rows of the local data each [file.write] receives. *)
Definition write (st : t) (sizes : list Z) : t * list (nat * Slice.t) :=
  let csize := sumZ sizes in
  let nfiles := Z.of_nat (length (files st)) in
  let files' :=
    imap (λ ifile file,
            BaseFile.set_csize file
              ((Z.of_nat ifile + 1) * csize / nfiles - Z.of_nat ifile * csize / nfiles))
         (files st) in
  let st' := {| files := files'; mpicomm := mpicomm st; mpiroot := mpiroot st;
                _slices := None |} in
  let fcumsizes := cumsum (0 :: filesizes st') in
  let cumsizes := cumsum (0 :: sizes) in
  let here := default 0 (cumsizes !! Z.to_nat (MPIComm.rank (mpicomm st))) in
  (st',
   overlaps ← fileslices st';
   imap (λ ifile rows, (ifile, Slice.shift rows.1 (default 0 (fcumsizes !! ifile) - here)))
        overlaps).

(** Modelled from the spec: [get(perWorkerChunks, targetPartition)] of
    [MPIScatteredSource] (section 4.2), which "returns on the calling
    worker exactly the positions selected by targetPartition from the
    logical concatenation of all workers' chunks, in the order
    targetPartition specifies". *)
Definition scattered_get (chunks : list (list Z)) (target : Slice.t) : result (list Z) :=
  rmap (itemZ (concat chunks)) (Slice.to_array target).

(** The loop of the range path of [cslice] over the partitions of all
    ranks: the non-empty parts of [local_slice] each one holds. *)
Fixpoint cslice_pieces (local_slice : Slice.t) (cumsize : Z)
    (all_slices : list Slice.t) : list Slice.t :=
  match all_slices with
  | [] => []
  | sli :: rest =>
      let self_slice_in_irank := Slice.slice sli (Slice.shift local_slice (- cumsize)) in
      (if Slice.nonempty self_slice_in_irank then [self_slice_in_irank] else [])
      ++ cslice_pieces local_slice (cumsize + Slice.size sli) rest
  end.

(** [cslice(start, stop, step)] on one rank; [gathered] is
    [allgather(self.slices)], the partitions of every rank. *)
Definition cslice (st : t) (gathered : list (list Slice.t))
    (start stop step : Z) : result t :=
  let csize := sumZ ((λ sl, sumZ (Slice.size <$> sl)) <$> gathered) in
  global_slice ← Slice.make start stop step (Some csize);
  local_slice ← itemZ (Slice.split global_slice (MPIComm.size (mpicomm st)))
                      (MPIComm.rank (mpicomm st));
  if Slice.is_array local_slice || existsb Slice.is_array (concat gathered) then
    got ← scattered_get (Slice.to_array <$> concat gathered) local_slice;
    Ok (set_slices st (Some [Slice.Indices got]))
  else
    let all_slices := concat gathered in
    let tmp := cslice_pieces local_slice 0 all_slices in
    step ← Slice.idx_step local_slice;
    let tmp := if step <? 0 then reverse tmp else tmp in
    Ok (set_slices st (Some (Slice.snap tmp))).

End FileStack.

(** * Vocabulary of the properties *)

(** The name under which a class declares support for a representation
    of rows in [_type_read_rows]. *)
Definition kind (sl : Slice.t) : string :=
  if Slice.is_array sl then "index" else "slice".

(** ** Runs of rows *)

(** The offsets in [progression a d n], for a stride [d] of [1] or
    [-1], of its positions that lie in [[s, s + m)]: from [first_in]
    up to [last_in], excluded. *)
Definition first_in (s m a d : Z) : Z :=
  if d =? 1 then Z.max 0 (s - a) else Z.max 0 (a - (s + m - 1)).

Definition last_in (s m a d n : Z) : Z :=
  if d =? 1 then Z.min n (s + m - a) else Z.min n (a - s + 1).

(** ** The logical table *)

(** The class of the file is one of the formats of [io.py], which
    have a reader. *)
Definition readable (f : BaseFile.t) : Prop :=
  is_Some (BaseFile.reader (BaseFile.cls f)).

(** The value a file gives for a column at a row; a file of a class
    without reader gives none. *)
Definition file_cell (f : BaseFile.t) (column : string) (p : Z) : option Z :=
  if bool_decide (readable f) && (0 <=? p) && (p <? BaseFile.csize f)
  then col ← BaseFile.column_data f column; col !! Z.to_nat p
  else None.

(** The value of a column at a row of the logical table: the files laid
    end to end, each over [csize] rows. *)
Fixpoint table_cell (fs : list BaseFile.t) (column : string) (pos : Z) : option Z :=
  match fs with
  | [] => None
  | f :: fs' =>
      if pos <? BaseFile.csize f then file_cell f column pos
      else table_cell fs' column (pos - BaseFile.csize f)
  end.

(** The windows [[start, stop)] of files of the given sizes laid end to
    end from [off]. *)
Fixpoint windows (off : Z) (sizes : list Z) : list (Z * Z) :=
  match sizes with
  | [] => []
  | n :: sizes' => (off, off + n) :: windows (off + n) sizes'
  end.

(** The files a partition overlaps, each with its rows and their
    offsets in the partition, for files laid end to end from [off]. *)
Definition hits_from (off : Z) (fs : list BaseFile.t) (sli : Slice.t) :
    list (BaseFile.t * (Slice.t * Slice.t)) :=
  List.filter (λ fp, Slice.nonempty fp.2.1)
    (zip fs ((λ w, Slice.find (Slice.Range w.1 w.2 1) sli)
               <$> windows off (BaseFile.csize <$> fs))).

(** A partition held as a range of stride [1] or [-1]. *)
Definition unit_run (sli : Slice.t) : Prop :=
  Slice.is_array sli = false
  ∧ ∃ a d n, (d = 1 ∨ d = -1) ∧ 0 ≤ n ∧ Slice.to_array sli = progression a d n.

(** The file object that [__init__] keeps for an input: the object
    itself, or the one it builds from a name, on the communicator of
    the stack. *)
Definition file_object (reg : Registry) (disk : string → Stored)
    (filetype : option FileTypeArg) (comm : MPIComm.t)
    (file : BaseFile.t + string) : result BaseFile.t :=
  match file with
  | inl f => Ok f
  | inr fn =>
      FT ← get_filetype reg filetype (Some fn);
      match FT with
      | Some ft => BaseFile.new disk ft fn comm
      | None => Raise TypeError
      end
  end.

(** The inputs of [__init__] that are file objects. *)
Definition objects (inputs : list (BaseFile.t + string)) : list BaseFile.t :=
  omap (λ file, match file with inl f => Some f | inr _ => None end) inputs.

(** A stack of the given files on rank [r] of [P], with no partition
    set yet. *)
Definition stack_of (fs : list BaseFile.t) (P r : Z) : FileStack.t :=
  {| FileStack.files := fs;
     FileStack.mpicomm := {| MPIComm.id := 0; MPIComm.rank := r; MPIComm.size := P |};
     FileStack.mpiroot := 0; FileStack._slices := None |}.


(** ** Sample shards *)

(** Two shards of three and four rows; the second lacks column [X]. *)
Definition shard_xy : BaseFile.t :=
  {| BaseFile.cls := BinaryFile; BaseFile.filename := "a.npy";
     BaseFile.mpicomm := {| MPIComm.id := 0; MPIComm.rank := 0; MPIComm.size := 2 |};
     BaseFile.mpiroot := 0; BaseFile._csize := 3;
     BaseFile._columns := ["X"; "Y"]; BaseFile._header := ∅;
     BaseFile.data := [("X", [10; 11; 12]); ("Y", [20; 21; 22])] |}.

Definition shard_y : BaseFile.t :=
  {| BaseFile.cls := BinaryFile; BaseFile.filename := "b.npy";
     BaseFile.mpicomm := {| MPIComm.id := 0; MPIComm.rank := 0; MPIComm.size := 2 |};
     BaseFile.mpiroot := 0; BaseFile._csize := 4;
     BaseFile._columns := ["Y"]; BaseFile._header := ∅;
     BaseFile.data := [("Y", [23; 24; 25; 26])] |}.

(** What [allgather(self.slices)] returns when every rank holds its
    default partition. *)
Definition default_world (P N : Z) : list (list Slice.t) :=
  (λ r, [default_slice r P N]) <$> seqZ 0 P.

(** The column of the logical table: the columns of the files laid end
    to end. *)
Definition table (fs : list BaseFile.t) (column : string) : list Z :=
  f ← fs; default [] (BaseFile.column_data f column).

(** The file, of one of the formats of [io.py], holds the column over
    [csize] rows. *)
Definition whole (column : string) (f : BaseFile.t) : Prop :=
  readable f
  ∧ ∃ col, BaseFile.column_data f column = Some col
           ∧ Z.of_nat (length col) = BaseFile.csize f.

(** The part [[floor(r*N/P), floor((r+1)*N/P))] of a list of [N]
    elements. *)
Definition share {A : Type} (P N r : Z) (l : list A) : list A :=
  take (Z.to_nat ((r + 1) * N / P - r * N / P)) (drop (Z.to_nat (r * N / P)) l).

(** [self.cslice(N - 1, -1, -1).read(column)] on a rank, every rank
    holding its default partition of the [N] rows. *)
Definition read_reversed (st : FileStack.t) (column : string) : result (list Z) :=
  let N := FileStack.cfilesize st in
  let P := MPIComm.size (FileStack.mpicomm st) in
  st' ← FileStack.cslice st (default_world P N) (N - 1) (-1) (-1);
  FileStack.read st' column.

(** Two shards whose headers share the key [a]. *)
Definition shard_h1 : BaseFile.t :=
  {| BaseFile.cls := BinaryFile; BaseFile.filename := "h1.npy";
     BaseFile.mpicomm := {| MPIComm.id := 0; MPIComm.rank := 0; MPIComm.size := 1 |};
     BaseFile.mpiroot := 0; BaseFile._csize := 0;
     BaseFile._columns := []; BaseFile._header := {[ "a" := 1; "b" := 5 ]};
     BaseFile.data := [] |}.

Definition shard_h2 : BaseFile.t :=
  {| BaseFile.cls := BinaryFile; BaseFile.filename := "h2.npy";
     BaseFile.mpicomm := {| MPIComm.id := 0; MPIComm.rank := 0; MPIComm.size := 1 |};
     BaseFile.mpiroot := 0; BaseFile._csize := 0;
     BaseFile._columns := []; BaseFile._header := {[ "a" := 2 ]};
     BaseFile.data := [] |}.

(** A second shard that holds [X], and a shard of no rows. *)
Definition shard_x : BaseFile.t :=
  {| BaseFile.cls := FitsFile true; BaseFile.filename := "c.fits";
     BaseFile.mpicomm := {| MPIComm.id := 0; MPIComm.rank := 0; MPIComm.size := 2 |};
     BaseFile.mpiroot := 0; BaseFile._csize := 4;
     BaseFile._columns := ["X"]; BaseFile._header := ∅;
     BaseFile.data := [("X", [13; 14; 15; 16])] |}.

Definition shard_empty : BaseFile.t :=
  {| BaseFile.cls := BinaryFile; BaseFile.filename := "d.npy";
     BaseFile.mpicomm := {| MPIComm.id := 0; MPIComm.rank := 0; MPIComm.size := 1 |};
     BaseFile.mpiroot := 0; BaseFile._csize := 0;
     BaseFile._columns := ["X"]; BaseFile._header := ∅;
     BaseFile.data := [("X", [])] |}.

(** * More of the module *)

(** ** Registering a class *)

(** [d[k] = v] on a dict kept in insertion order: a key already present
    keeps its place and takes the new value. *)
Fixpoint dict_set {V : Type} (d : list (string * V)) (k : string) (v : V) :
    list (string * V) :=
  match d with
  | [] => [(k, v)]
  | kv :: d' => if bool_decide (kv.1 = k) then (k, v) :: d' else kv :: dict_set d' k v
  end.

(** [RegisteredFile.__new__]: [meta._registry[cls.name] = cls]. *)
Definition register (reg : Registry) (cls : FileType) : Registry :=
  dict_set reg (name cls) cls.

(** The registry once the class statements have run, in their order. *)
Definition registered (classes : list FileType) : Registry :=
  foldl register [] classes.

(** Text on which [lower_ascii] is [str.lower]. *)
Definition ascii_text (s : string) : Prop :=
  Forall (λ c, (nat_of_ascii c < 128)%nat) (list_ascii_of_string s).

(** The last component of a path, and the paths whose last component
    has a character other than a dot. *)
Definition basename (p : list ascii) : list ascii :=
  drop (Z.to_nat (rfind "/"%char p + 1)) p.

Definition has_stem (s : string) : Prop :=
  existsb (λ x, negb (Ascii.eqb x "."%char)) (basename (list_ascii_of_string s)) = true.

(** An extension as the classes declare them: no dot, no separator. *)
Definition plain_ext (e : string) : Prop :=
  ("."%char ∉ list_ascii_of_string e) ∧ ("/"%char ∉ list_ascii_of_string e).

(** A class whose name has capital letters. *)
Definition MixedCaseFile : FileType :=
  {| name := "Text"; extensions := ["txt"]; _type_read_rows := ["slice"];
     _type_write_data := ["array"]; importable := true |}.

(** The classes of [io.py] in the order of their definition. *)
Definition io_classes (fitsio h5py bigfile asdf : bool) : list FileType :=
  [BaseFileType; FitsFile fitsio; HDF5File h5py; BinaryFile; BigFile bigfile; AsdfFile asdf].

(** ** Resolving the header of a file *)

Module Header.

(** The dict [_read_header_root] returns.  Each field is one key, [None]
    when the dict lacks it: ['csize'] holds an integer, ['columns'] a
    sequence of names or [None] (the [dtype.names] of an array without
    fields), ['header'] and ['attrs'] a dict, ['ext'] the index of an
    extension. *)
Record RootState : Type := {
  k_csize : option Z;
  k_columns : option (option (list string));
  k_header : option (gmap string Z);
  k_attrs : option (gmap string Z);
  k_ext : option Z
}.

(** The attributes [self.__dict__.update(state)] sets on the file. *)
Record Resolved : Type := {
  _csize : Z;
  _columns : list string;
  _header : gmap string Z;
  attrs : option (gmap string Z);
  ext : option Z
}.

(** [BaseFile._read_header]: [state.pop('csize')] and
    [state.pop('columns')] raise on a missing key, [list(None)] raises,
    [state.pop('header', {})] falls back on the empty dict; the keys not
    popped stay in the state. *)
Definition _read_header (state : RootState) : result Resolved :=
  csize ← match k_csize state with Some n => Ok n | None => Raise KeyError end;
  columns ← match k_columns state with
            | Some (Some names) => Ok names
            | Some None => Raise TypeError
            | None => Raise KeyError
            end;
  Ok {| _csize := csize; _columns := columns; _header := default ∅ (k_header state);
        attrs := k_attrs state; ext := k_ext state |}.

(** What the readers of the formats return when the file is readable:
    the rows, the names and the attributes are those of the file. *)
Definition fits_root (nrows : Z) (names : list string) (header : gmap string Z)
    (ext : Z) : RootState :=
  {| k_csize := Some nrows; k_columns := Some (Some names); k_header := None;
     k_attrs := Some header; k_ext := Some ext |}.

Definition hdf5_root (size : Z) (columns : list string) (grp_attrs : gmap string Z) :
    RootState :=
  {| k_csize := Some size; k_columns := Some (Some columns); k_header := None;
     k_attrs := Some grp_attrs; k_ext := None |}.

Definition binary_root (len : Z) (names : option (list string)) : RootState :=
  {| k_csize := Some len; k_columns := Some names; k_header := None;
     k_attrs := Some ∅; k_ext := None |}.

Definition bigfile_root (csize : Z) (columns : list string) (attrs : gmap string Z) :
    RootState :=
  {| k_csize := Some csize; k_columns := Some (Some columns); k_header := None;
     k_attrs := Some attrs; k_ext := None |}.

Definition asdf_root (csize : Z) (columns : list string) (attrs : gmap string Z) :
    RootState :=
  {| k_csize := Some csize; k_columns := Some (Some columns); k_header := None;
     k_attrs := Some attrs; k_ext := None |}.

(** The states the five readers can return. *)
Inductive from_reader : RootState → Prop :=
  | from_fits nrows names header ext : from_reader (fits_root nrows names header ext)
  | from_hdf5 size columns grp_attrs : from_reader (hdf5_root size columns grp_attrs)
  | from_binary len names : from_reader (binary_root len names)
  | from_bigfile csize columns attrs : from_reader (bigfile_root csize columns attrs)
  | from_asdf csize columns attrs : from_reader (asdf_root csize columns attrs).

(** The file object once its header is resolved. *)
Definition opened (FT : FileType) (fn : string) (comm : MPIComm.t)
    (state : RootState) (data : list (string * list Z)) : result BaseFile.t :=
  r ← _read_header state;
  Ok {| BaseFile.cls := FT; BaseFile.filename := fn; BaseFile.mpicomm := comm;
        BaseFile.mpiroot := 0; BaseFile._csize := _csize r;
        BaseFile._columns := _columns r; BaseFile._header := _header r;
        BaseFile.data := data |}.

End Header.

(** ** Selecting columns by name *)

Module Select.

(** The regular expressions [toregex] builds: a sequence of literal
    characters (a dot is escaped) and of groups that stand for a
    wildcard. *)
Inductive Tok : Type :=
  | Lit (c : ascii)
  | Any.

(** [toregex(name)]: the dot is escaped and a star becomes a group
    taking any characters, for a name that has none of the other
    characters special to [re]. *)
Definition toregex (name : string) : list Tok :=
  (λ c, if Ascii.eqb c "*"%char then Any else Lit c) <$> list_ascii_of_string name.

(** The characters other than the dot and the star that [re] reads as
    operators. *)
Definition operators : list ascii :=
  list_ascii_of_string "\^$+?{}[]()|".

Definition plain_name (name : string) : Prop :=
  Forall (λ c, c ∉ operators) (list_ascii_of_string name).

(** The line feed, which [.] does not match. *)
Definition newline : ascii := ascii_of_nat 10.

(** [re.match(pattern, s)] as a truth value: the pattern matches at the
    start of [s]; a wildcard group takes any run of characters other
    than the line feed. *)
Fixpoint re_match (pat : list Tok) (s : list ascii) : bool :=
  match pat with
  | [] => true
  | Lit c :: pat' =>
      match s with
      | x :: s' => Ascii.eqb x c && re_match pat' s'
      | [] => false
      end
  | Any :: pat' =>
      (fix any (s : list ascii) : bool :=
         re_match pat' s
         || match s with
            | x :: s' => negb (Ascii.eqb x newline) && any s'
            | [] => false
            end) s
  end.

(** [any(re.match(toregex(p), column) for p in patterns)]. *)
Definition matches_any (patterns : list string) (column : string) : bool :=
  existsb (λ p, re_match (toregex p) (list_ascii_of_string column)) patterns.

End Select.

(** [_select_columns(columns, include, exclude)] on lists of names (a
    lone name stands for the list that holds it). *)
Definition _select_columns (columns : list string) (include exclude : option (list string)) :
    list string :=
  let columns :=
    match include with
    | None => columns
    | Some inc => List.filter (Select.matches_any inc) columns
    end in
  match exclude with
  | None => columns
  | Some exc => List.filter (λ c, negb (Select.matches_any exc c)) columns
  end.

(** One name starts with another. *)
Definition starts_with (n c : string) : Prop :=
  list_ascii_of_string n `prefix_of` list_ascii_of_string c.

(** A name without wildcard. *)
Definition literal_name (name : string) : Prop :=
  Select.plain_name name ∧ "*"%char ∉ list_ascii_of_string name.

(** ** The header blocks of an ASDF file *)

(** The loop of [_read_header_root] that keeps, once each, the header
    blocks found among the columns. *)
Definition found_headers (columns header_blocks : list string) : list string :=
  foldl (λ headers header,
           if bool_decide (header ∈ columns) && negb (bool_decide (header ∈ headers))
           then headers ++ [header] else headers)
        [] header_blocks.

Module Asdf.

(** The two list objects [AsdfFile._read_header_root] handles: the
    list it builds in [headers] and the list the caller gave as
    [exclude]. *)
Inductive Ref : Type :=
  | Headers
  | Exclude.

Record Store : Type := {
  headers : list string;
  exclude : list string
}.

Definition get (s : Store) (r : Ref) : list string :=
  match r with Headers => headers s | Exclude => exclude s end.

(** [r += more], which extends the list object in place. *)
Definition iadd (s : Store) (r : Ref) (more : list string) : Store :=
  match r with
  | Headers => {| headers := headers s ++ more; exclude := exclude s |}
  | Exclude => {| headers := headers s; exclude := exclude s ++ more |}
  end.

(** [_read_header_root] up to the selection of the columns, on the keys
    of the tree: the columns, the names [headers] the loop on the
    attributes then reads, and the caller's [exclude] list afterwards.
    The variable [exclude] is bound to the caller's list or, when there
    is none, to the list [headers] itself. *)
Definition header_plan (keys : list string) (header_blocks self_exclude : option (list string)) :
    list string * list string * option (list string) :=
  let header_blocks := default ["Header"; "header"] header_blocks in
  let s := {| headers := found_headers keys header_blocks;
              exclude := default [] self_exclude |} in
  let exclude := match self_exclude with None => Headers | Some _ => Exclude end in
  let s := iadd s exclude ["asdf_library"; "history"] in
  (_select_columns keys None (Some (get s exclude)),
   get s Headers,
   (λ _, get s Exclude) <$> self_exclude).

End Asdf.

(** The values [vs] are the rows of [col] at the positions [ps]. *)
Definition rows_at (col : list Z) (ps vs : list Z) : Prop :=
  Forall2 (λ p v, 0 ≤ p ∧ col !! Z.to_nat p = Some v) ps vs.

(** A slice that stays inside a column of [len] rows: its bounds are
    positions of the column, the stop of a backward slice that runs to
    the first row being [None]. *)
Definition inside (len start : Z) (stop : option Z) (step : Z) : Prop :=
  if 0 <? step then 0 ≤ start ∧ ∃ b, stop = Some b ∧ 0 ≤ b ≤ len
  else step < 0 ∧ 0 ≤ start < len ∧ ∀ b, stop = Some b → 0 ≤ b.

(** The positions a slice stands for, [range(start, stop, step)], a
    backward slice without stop running to the first row. *)
Definition slice_rows (start : Z) (stop : option Z) (step : Z) : list Z :=
  Py.range start (default (-1) stop) step.

(** ** Writing the rows *)

(** [data[rows.idx]], the rows of the local data that [write] hands to
    a file: the array indexed by the [slice] or the index array of the
    partition. *)
Definition take_rows (data : list Z) (rows : Slice.t) : result (list Z) :=
  match Slice.idx rows with
  | Reader.Sl start stop step => Py.getslice data (Some start) stop step
  | Reader.Idx idx => Py.getitems data idx
  end.

Module Writer.

(** [fp[start:stop] = data] on an array: the values take the place of
    the rows of the slice, a single value fills them all, and any other
    number of values raises. *)
Definition setslice (fp : list Z) (start stop : Z) (data : list Z) : result (list Z) :=
  let b := Py.indices (Z.of_nat (length fp)) (Some start) (Some stop) 1 in
  let n := Z.max 0 (b.2 - b.1) in
  if n =? Z.of_nat (length data)
  then Ok (take (Z.to_nat b.1) fp ++ data ++ drop (Z.to_nat (b.1 + n)) fp)
  else match data with
       | [v] => Ok (take (Z.to_nat b.1) fp ++ replicate (Z.to_nat n) v
                      ++ drop (Z.to_nat (b.1 + n)) fp)
       | _ => Raise ValueError
       end.

(** [BinaryFile._write_data] on one rank, on the file [fp] the root has
    created; [sizes] is [allgather(len(data))]. *)
Definition binary (sizes : list Z) (rank : Z) (data : list Z) (fp : list Z) :
    result (list Z) :=
  let cumsizes := cumsum (0 :: sizes) in
  start ← itemZ cumsizes rank;
  stop ← itemZ cumsizes (rank + 1);
  setslice fp start stop data.

(** The file once every rank has written its data, rank [0] first: the
    root creates it with [cumsizes[-1]] rows. *)
Definition binary_file (datas : list (list Z)) : result (list Z) :=
  let sizes := (λ d, Z.of_nat (length d)) <$> datas in
  let created := replicate (Z.to_nat (default 0 (last (cumsum (0 :: sizes))))) 0 in
  foldl (λ fp rd, fp ← fp; binary sizes (Z.of_nat rd.1) rd.2 fp)
        (Ok created) (imap (λ r d, (r, d)) datas).

(** [BigFile._write_data]: the region of a column the rank writes,
    [slice(offset, offset + len(array))] with
    [offset = sum(allgather(len(array))[:rank])]. *)
Definition bigfile_region (sizes : list Z) (rank : Z) (len : Z) : Z * Z :=
  let offset := sumZ (take (Z.to_nat rank) sizes) in
  (offset, offset + len).

(** The number of physical files of a column of [size] items. *)
Definition bigfile_nfiles (size : Z) : Z :=
  let size_per_file := 32 * 1024 * 1024 in
  (size + size_per_file - 1) / size_per_file.

End Writer.

(** The array each [file.write] of [FileStack.write] receives from the
    rank, with the index of the file, in the order of the calls. *)
Definition write_pieces (st : FileStack.t) (sizes : list Z) (data : list Z) :
    result (list (nat * list Z)) :=
  rmap (λ c, rows ← take_rows data c.2; Ok (c.1, rows)) (FileStack.write st sizes).2.

(** What a rank writes to the file of index [i]: every call opens the
    file anew, so that the last call is the one that stays. *)
Definition piece_for (i : nat) (pieces : list (nat * list Z)) : list Z :=
  default [] (last (List.filter (λ c, Nat.eqb c.1 i) pieces).*2).

(** [FileStack.write] on every rank of [P], for files of the class
    [BinaryFile]: the content of each file afterwards.  The data of
    rank [r] is [datas[r]]. *)
Definition write_world (fs : list BaseFile.t) (P : Z) (datas : list (list Z)) :
    result (list (list Z)) :=
  let sizes := (λ d, Z.of_nat (length d)) <$> datas in
  pieces ← rmap (λ rd, write_pieces (stack_of fs P rd.1) sizes rd.2)
                (zip (seqZ 0 P) datas);
  rmap (λ i, Writer.binary_file (piece_for i <$> pieces)) (seq 0 (length fs)).

(** The stack after [write], its files holding what was written as the
    column [column]. *)
Definition reopened (column : string) (st : FileStack.t) (contents : list (list Z)) :
    FileStack.t :=
  {| FileStack.files :=
       zip_with (λ f c, {| BaseFile.cls := BaseFile.cls f;
                           BaseFile.filename := BaseFile.filename f;
                           BaseFile.mpicomm := BaseFile.mpicomm f;
                           BaseFile.mpiroot := BaseFile.mpiroot f;
                           BaseFile._csize := BaseFile._csize f;
                           BaseFile._columns := BaseFile._columns f;
                           BaseFile._header := BaseFile._header f;
                           BaseFile.data := [(column, c)] |})
                (FileStack.files st) contents;
     FileStack.mpicomm := FileStack.mpicomm st;
     FileStack.mpiroot := FileStack.mpiroot st;
     FileStack._slices := FileStack._slices st |}.

(** The rows [x .. y - 1] of a list. *)
Definition between {A : Type} (l : list A) (x y : Z) : list A :=
  take (Z.to_nat (y - x)) (drop (Z.to_nat x) l).

(** The lengths of the shares of [N] rows over [P] ranks. *)
Definition share_sizes (P N : Z) : list Z :=
  (λ q, (q + 1) * N / P - q * N / P) <$> seqZ 0 P.

(** ** Concatenating stacks *)

Module FileStackOps.

(** [FileStack.concatenate(others...)] on one rank.  [current] is the
    communicator the constructor gets when none is passed; each stack
    comes with [allgather(other.slices)], the partitions it has on
    every rank.  The constructor receives the files of the stacks, so
    that neither the registry nor the disk is looked at. *)
Definition concatenate (current : MPIComm.t)
    (others : list (FileStack.t * list (list Slice.t))) : result FileStack.t :=
  new ← FileStack.__init__ [] (λ _, Build_Stored 0 [] ∅ [])
          (inl <$> (others.*1 ≫= FileStack.files)) None current;
  if existsb (λ o, bool_decide (is_Some (FileStack._slices o.1))) others then
    if existsb (λ o, existsb Slice.is_array (concat o.2)) others then
      let csize := sumZ ((λ o, sumZ (Slice.size <$> concat o.2)) <$> others) in
      let rank := MPIComm.rank (FileStack.mpicomm new) in
      let size := MPIComm.size (FileStack.mpicomm new) in
      new_slice ← Slice.make (rank * csize / size) ((rank + 1) * csize / size) 1 None;
      got ← FileStack.scattered_get (others ≫= λ o, Slice.to_array <$> concat o.2) new_slice;
      Ok (FileStack.set_slices new (Some [Slice.Indices got]))
    else
      let acc :=
        foldl (λ acc o,
                 (acc.1 ++ ((λ sl, Slice.shift sl acc.2) <$> concat o.2),
                  acc.2 + FileStack.cfilesize o.1))
              ([], 0) others in
      let mine := if MPIComm.rank (FileStack.mpicomm new) =? 0 then acc.1 else [] in
      FileStack.cslice (FileStack.set_slices new (Some mine))
        (acc.1 :: replicate (Z.to_nat (MPIComm.size (FileStack.mpicomm new) - 1)) [])
        0 acc.2 1
  else Ok new.

End FileStackOps.

(** ** The caches of a stack *)

Module Cached.

(** A stack object with the attributes [_columns] and [_header] that
    the properties [columns] and [header] set on first use; [None]
    stands for an attribute that is not set. *)
Record t : Type := {
  stack : FileStack.t;
  _columns : option (list string);
  _header : option (gmap string Z)
}.

(** The property [columns]: the value and the object afterwards.  A
    stack without files answers the empty list and caches nothing. *)
Definition columns (o : t) : list string * t :=
  match _columns o with
  | Some c => (c, o)
  | None =>
      match FileStack.files (stack o) with
      | [] => ([], o)
      | _ :: _ =>
          let c := FileStack.columns (stack o) in
          (c, {| stack := stack o; _columns := Some c; _header := _header o |})
      end
  end.

(** The property [header]. *)
Definition header (o : t) : gmap string Z * t :=
  match _header o with
  | Some h => (h, o)
  | None =>
      let h := FileStack.header (stack o) in
      (h, {| stack := stack o; _columns := _columns o; _header := Some h |})
  end.

(** [self.extend(other)]: [self.__dict__.update(new.__dict__)] replaces
    the attributes the concatenation has, which are [files], [mpicomm],
    [mpiroot] and, when it set partitions, [_slices]; the others stay. *)
Definition extend (current : MPIComm.t) (o other : t)
    (gathered gathered_other : list (list Slice.t)) : result t :=
  new ← FileStackOps.concatenate current [(stack o, gathered); (stack other, gathered_other)];
  Ok {| stack :=
          {| FileStack.files := FileStack.files new;
             FileStack.mpicomm := FileStack.mpicomm new;
             FileStack.mpiroot := FileStack.mpiroot new;
             FileStack._slices :=
               match FileStack._slices new with
               | Some sl => Some sl
               | None => FileStack._slices (stack o)
               end |};
        _columns := _columns o;
        _header := _header o |}.

(** A stack on which no property has been read yet. *)
Definition fresh (st : FileStack.t) : t :=
  {| stack := st; _columns := None; _header := None |}.

End Cached.


(** ** The sizes over the ranks *)

(** [FileStack.csize], [allreduce(self.size)]: the sum over the ranks
    of the sizes of their partitions, [gathered] being the partitions of
    every rank. *)
Definition csize_of (gathered : list (list Slice.t)) : Z :=
  sumZ ((λ sl, sumZ (Slice.size <$> sl)) <$> gathered).

(** ** The header of a FITS file *)

Module Fits.

(** An extension of a FITS file, as [_read_header_root] looks at it:
    [has_data()], whether [get_exttype()] is ['IMAGE_HDU'],
    [get_nrows()], the names of [get_rec_dtype()] and
    [read_header()]. *)
Record HDU : Type := {
  has_data : bool;
  is_image : bool;
  nrows : Z;
  names : list string;
  header : gmap string Z
}.

(** [FitsFile._read_header_root] on the extensions of the file; [ext]
    is [self.ext], unset or an index counted from 0 (an extension given
    by its name is not modelled).  The extension found is kept in the
    state under ['ext']. *)
Definition _read_header_root (file : list HDU) (ext : option nat) :
    result Header.RootState :=
  ext ← match ext with
        | None =>
            match list_find (λ hdu, has_data hdu = true) file with
            | Some (i, _) => Ok i
            | None => Raise IOError
            end
        | Some e => if (length file <=? e)%nat then Raise IOError else Ok e
        end;
  hdu ← item file ext;
  if negb (has_data hdu) || is_image hdu then Raise IOError
  else Ok (Header.fits_root (nrows hdu) (names hdu) (header hdu) (Z.of_nat ext)).

End Fits.

(** An image and a table, as extensions of a FITS file. *)
Definition image_hdu : Fits.HDU :=
  {| Fits.has_data := true; Fits.is_image := true; Fits.nrows := 0;
     Fits.names := []; Fits.header := ∅ |}.

Definition table_hdu : Fits.HDU :=
  {| Fits.has_data := true; Fits.is_image := false; Fits.nrows := 3;
     Fits.names := ["X"]; Fits.header := ∅ |}.

(** ** Index partitions *)

(** The offsets, counted from [k], of the positions of [idx] that lie
    in the window [[lo, hi)]. *)
Fixpoint keys_in (lo hi : Z) (k : Z) (idx : list Z) : list Z :=
  match idx with
  | [] => []
  | p :: idx' =>
      (if bool_decide (lo ≤ p < hi) then [k] else []) ++ keys_in lo hi (k + 1) idx'
  end.

(** The file holds the column over [csize] rows and is of a format other
    than [FitsFile], whose reader asks the library for every row up to
    the stop of a range. *)
Definition indexable (column : string) (f : BaseFile.t) : Prop :=
  whole column f ∧ BaseFile.cls f ≠ FitsFile (importable (BaseFile.cls f)).

(** A partition held as an index array, or as a range of stride [1] or
    [-1]. *)
Definition index_or_run (sli : Slice.t) : Prop :=
  Slice.is_array sli = true ∨ unit_run sli.

(** A shard of four rows in the BigFile format. *)
Definition shard_big : BaseFile.t :=
  {| BaseFile.cls := BigFile true; BaseFile.filename := "e.bigfile";
     BaseFile.mpicomm := {| MPIComm.id := 0; MPIComm.rank := 0; MPIComm.size := 2 |};
     BaseFile.mpiroot := 0; BaseFile._csize := 4;
     BaseFile._columns := ["X"]; BaseFile._header := ∅;
     BaseFile.data := [("X", [13; 14; 15; 16])] |}.

(** A stack of the given files on a single rank that holds the
    partitions [sls]. *)
Definition stack_with (fs : list BaseFile.t) (sls : list Slice.t) : FileStack.t :=
  FileStack.set_slices (stack_of fs 1 0) (Some sls).

(** What [allgather(self.slices)] returns on a single rank that holds
    the partitions [sls]. *)
Definition alone (sls : list Slice.t) : list (list Slice.t) := [sls].

(** ** HDF5 files *)

Module HDF5.

(** What a file holds under a name of its root group: a dataset, or a
    group with its attributes and its datasets.  Names are single
    components of a path: the group of the file object and the names of
    the columns hold no ['/'] but for the root group ['/'] itself. *)
Inductive Member : Type :=
  | Dset (rows : list Z)
  | Grp (grp_attrs : gmap string Z) (datasets : list (string * list Z)).

Record File : Type := {
  attrs : gmap string Z;
  members : list (string * Member)
}.

(** [h5py.File(filename, 'w')]: a file with an empty root group. *)
Definition created : File := {| attrs := ∅; members := [] |}.

(** [HDF5File.__init__]: the attribute [group] for the argument
    [group]; the empty name and the names made of ['/'] only stand
    for the root group. *)
Definition __init__ (group : string) : string :=
  if forallb (λ c, Ascii.eqb c "/") (list_ascii_of_string group) then "/" else group.

Fixpoint assoc {A : Type} (name : string) (l : list (string * A)) : option A :=
  match l with
  | [] => None
  | (k, a) :: l' => if bool_decide (k = name) then Some a else assoc name l'
  end.

(** A name that is a single component of a path, as the names of the
    members of a group are: not empty, not ['.'], and without ['/']. *)
Definition component (name : string) : bool :=
  negb (String.eqb name EmptyString) && negb (String.eqb name ".")
  && forallb (λ c, negb (Ascii.eqb c "/")) (list_ascii_of_string name).

(** [file.create_group(name)] and [file.create_dataset(name, data=array)]
    on the root group, for a [name] that is a single [component]: a
    name already there raises.  A name with a ['/'] is a path, which
    the library resolves through intermediate groups; such names are
    outside this model. *)
Definition create (file : File) (name : string) (m : Member) : result File :=
  match assoc name (members file) with
  | Some _ => Raise ValueError
  | None => Ok {| attrs := attrs file; members := members file ++ [(name, m)] |}
  end.

(** One turn of the loop of [_write_data] on the root rank, when the
    [mpio] driver is not available: the file is reopened, [grp] is the
    root group, and only on the first turn it becomes the group of the
    file object, which is created then and receives the header. *)
Definition write_column (group : string) (header : gmap string Z) (first : bool)
    (file : File) (column : string * list Z) : result File :=
  if first then
    if bool_decide (group ≠ "/") then
      create file group (Grp (header ∪ ∅) [column])
    else
      create {| attrs := header ∪ attrs file; members := members file |}
        column.1 (Dset column.2)
  else create file column.1 (Dset column.2).

Fixpoint write_columns (group : string) (header : gmap string Z) (first : bool)
    (file : File) (data : list (string * list Z)) : result File :=
  match data with
  | [] => Ok file
  | column :: data' =>
      file ← write_column group header first file column;
      write_columns group header false file data'
  end.

(** [HDF5File._write_data(data, header)], the branch taken when
    opening the file with the [mpio] driver raises [ValueError]; [data]
    holds, in the order of the dict, each column as gathered on the
    root rank. *)
Definition _write_data (group : string) (header : gmap string Z)
    (data : list (string * list Z)) : result File :=
  write_columns group header true created data.

(** [grp[name].shape[0]]: a group has no shape. *)
Definition shape0 (m : option Member) : result Z :=
  match m with
  | None => Raise KeyError
  | Some (Dset rows) => Ok (Z.of_nat (length rows))
  | Some (Grp _ _) => Raise AttributeError
  end.

(** [file[group]]: the attributes and the members of the group. *)
Definition open_group (file : File) (group : string) :
    result (gmap string Z * list (string * Member)) :=
  if bool_decide (group = "/") then Ok (attrs file, members file)
  else match assoc group (members file) with
       | None => Raise KeyError
       | Some (Dset _) => Raise AttributeError
       | Some (Grp a ds) => Ok (a, (λ kv, (kv.1, Dset kv.2)) <$> ds)
       end.

(** [HDF5File._read_header_root]; [keys] gives the order in which the
    library lists the names of a group. *)
Definition _read_header_root (keys : list string → list string) (file : File)
    (group : string) : result Header.RootState :=
  grp ← open_group file group;
  let columns := keys grp.2.*1 in
  name ← item columns 0;
  size ← shape0 (assoc name grp.2);
  _ ← rmap (λ name, n ← shape0 (assoc name grp.2);
                    if n =? size then Ok () else Raise IOError) columns;
  Ok (Header.hdf5_root size columns grp.1).

End HDF5.

(** ** Local slicing *)

Module FileStackLocal.

(** [FileStack.slice(start, stop, step)]: each partition of the rank is
    composed with the selection; the files are those of the stack. *)
Definition slice (st : FileStack.t) (start stop step : Z) : result FileStack.t :=
  sl ← Slice.make start stop step None;
  Ok (FileStack.set_slices st (Some ((λ sli, Slice.slice sli sl) <$> FileStack.slices st))).

End FileStackLocal.

(** * Properties *)

(** ** Default partitions cover the rows *)

Section range_facts.

Lemma range_size_unit (a b : Z) : a ≤ b → Slice.range_size a b 1 = b - a.
Proof.
  intros Hab. unfold Slice.range_size. simpl.
  replace (b - a + 1 - 1) with (b - a) by lia.
  rewrite Z.div_1_r. lia.
Qed.

Lemma range_list_unit (a b : Z) : a ≤ b → Slice.range_list a b 1 = seqZ a (b - a).
Proof.
  intros Hab. unfold Slice.range_list. rewrite range_size_unit by done.
  apply list_eq. intros i. rewrite list_lookup_fmap.
  destruct (decide (Z.of_nat i < b - a)) as [Hi|Hi].
  - rewrite !lookup_seqZ_lt by done. simpl. f_equal. lia.
  - rewrite !lookup_seqZ_ge by lia. done.
Qed.

Lemma floor_step_mono (r n p : Z) : 0 < p → 0 ≤ n → r * n / p ≤ (r + 1) * n / p.
Proof. intros Hp Hn. apply Z.div_le_mono; lia. Qed.

End range_facts.

Lemma default_cover_prefix (p n : Z) (k : nat) :
  0 < p → 0 ≤ n →
  (r ← seqZ 0 (Z.of_nat k); Slice.to_array (default_slice r p n))
  = seqZ 0 (Z.of_nat k * n / p).
Proof.
  intros Hp Hn. induction k as [|k IH].
  - simpl. rewrite Z.div_0_l by lia. done.
  - replace (Z.of_nat (S k)) with (Z.of_nat k + 1) by lia.
    rewrite seqZ_app by lia. rewrite bind_app, IH. simpl.
    rewrite app_nil_r, Z.add_0_l.
    rewrite range_list_unit by (apply floor_step_mono; lia).
    assert (0 ≤ Z.of_nat k * n / p) by (apply Z.div_pos; lia).
    pose proof (floor_step_mono (Z.of_nat k) n p Hp Hn).
    set (a := Z.of_nat k * n / p) in *. set (b := (Z.of_nat k + 1) * n / p) in *.
    transitivity (seqZ 0 (a + (b - a))); [|f_equal; lia].
    rewrite seqZ_app by lia. done.
Qed.

(** C1: for every worker count [P >= 1] and aggregate row count [N >= 0],
    a stack with no partition set yet holds, on each rank, the range
    [[floor(rank*N/P), floor((rank+1)*N/P))], and these ranges, laid end
    to end in rank order, enumerate [0, N) exactly: every row once, in
    order, with no gap and no overlap. *)
Theorem default_slices_cover (P N : Z) :
  1 ≤ P → 0 ≤ N →
  (∀ st, FileStack._slices st = None →
         MPIComm.size (FileStack.mpicomm st) = P → FileStack.cfilesize st = N →
         FileStack.slices st = [default_slice (MPIComm.rank (FileStack.mpicomm st)) P N])
  ∧ default_cover P N = seqZ 0 N.
Proof.
  intros HP HN. split.
  - intros st Hnone HPs HNs. unfold FileStack.slices. by rewrite Hnone, HPs, HNs.
  - unfold default_cover.
    replace P with (Z.of_nat (Z.to_nat P)) at 1 by lia.
    rewrite default_cover_prefix by lia.
    rewrite Z2Nat.id by lia. f_equal.
    rewrite Z.mul_comm. apply Z.div_mul. lia.
Qed.

Lemma default_slices_cover_witness :
  FileStack.slices (stack_of [shard_xy; shard_x] 3 1) = [Slice.Range 2 4 1]
  ∧ default_cover 3 7 = [0; 1; 2; 3; 4; 5; 6].
Proof.
  destruct (default_slices_cover 3 7) as [Hslices Hcover]; [lia|lia|].
  split; [|exact Hcover].
  exact (Hslices (stack_of [shard_xy; shard_x] 3 1) eq_refl eq_refl eq_refl).
Defined.

(** ** The visible columns *)

Lemma forallb_columns_Forall (column : string) (rest : list BaseFile.t) :
  forallb (λ file, bool_decide (column ∈ BaseFile.columns file)) rest = true
  ↔ Forall (λ file, column ∈ BaseFile.columns file) rest.
Proof.
  induction rest as [|f rest IH]; simpl.
  - split; [constructor | done].
  - rewrite andb_true_iff, bool_decide_eq_true, IH, Forall_cons. done.
Qed.

Lemma elem_of_List_filter {A : Type} (p : A → bool) (l : list A) (x : A) :
  x ∈ List.filter p l ↔ x ∈ l ∧ p x = true.
Proof. rewrite !list_elem_of_In. apply filter_In. Qed.

Lemma List_filter_sublist {A : Type} (p : A → bool) (l : list A) :
  List.filter p l `sublist_of` l.
Proof.
  induction l as [|a l IH]; simpl; [constructor|].
  destruct (p a); by constructor.
Qed.

Lemma columns_unset (o : Cached.t) :
  Cached._columns o = None →
  (Cached.columns o).1 = FileStack.columns (Cached.stack o)
  ∧ (FileStack.files (Cached.stack o) ≠ [] →
     Cached._columns (Cached.columns o).2 = Some (FileStack.columns (Cached.stack o))).
Proof.
  intros Hnone. unfold Cached.columns, FileStack.columns. rewrite Hnone.
  by destruct (FileStack.files (Cached.stack o)).
Qed.

(** C3: for a non-empty list of shards, the visible columns, on a stack
    whose columns were not read before (the attribute [_columns] is not
    set, as on a stack just built), are the columns of the first shard,
    in its order, restricted to the names every other shard holds; the
    result is a plain list (nothing is raised), a name is visible
    exactly when all shards hold it, and the list is kept in
    [_columns]. *)
Theorem columns_first_shard_restricted (o : Cached.t) (f0 : BaseFile.t)
    (rest : list BaseFile.t) :
  Cached._columns o = None →
  FileStack.files (Cached.stack o) = f0 :: rest →
  let visible := (Cached.columns o).1 in
  visible
  = List.filter (λ c, bool_decide (Forall (λ f, c ∈ BaseFile.columns f) rest))
                (BaseFile.columns f0)
  ∧ visible `sublist_of` BaseFile.columns f0
  ∧ (∀ c, c ∈ visible ↔ Forall (λ f, c ∈ BaseFile.columns f) (f0 :: rest))
  ∧ Cached._columns (Cached.columns o).2 = Some visible.
Proof.
  intros Hnone Hfiles visible.
  destruct (columns_unset o Hnone) as [Hval Hkept].
  unfold visible. rewrite Hval. unfold FileStack.columns. rewrite Hfiles.
  split; [|split; [|split]].
  - apply filter_ext_in. intros c _.
    destruct (forallb _ rest) eqn:E.
    + symmetry. apply bool_decide_eq_true. by apply forallb_columns_Forall.
    + symmetry. apply bool_decide_eq_false. intros H.
      apply forallb_columns_Forall in H. congruence.
  - apply List_filter_sublist.
  - intros c. rewrite elem_of_List_filter, forallb_columns_Forall, Forall_cons. done.
  - rewrite Hkept by (by rewrite Hfiles). unfold FileStack.columns. by rewrite Hfiles.
Qed.

Lemma columns_first_shard_restricted_witness :
  (Cached.columns (Cached.fresh (stack_of [shard_xy; shard_y] 1 0))).1 = ["Y"]
  ∧ "X" ∉ (Cached.columns (Cached.fresh (stack_of [shard_xy; shard_y] 1 0))).1.
Proof.
  destruct (columns_first_shard_restricted
              (Cached.fresh (stack_of [shard_xy; shard_y] 1 0)) shard_xy [shard_y]
              eq_refl eq_refl) as (Hval & _ & Hin & _).
  split.
  - rewrite Hval. by vm_compute.
  - rewrite Hin. intros Hall. apply Forall_cons in Hall as [_ Hall].
    apply Forall_cons in Hall as [Hy _].
    apply (bool_decide_unpack ("X" ∉ BaseFile.columns shard_y)); [by vm_compute|done].
Defined.

(** ** The merged header *)

Lemma header_snoc (fs : list BaseFile.t) (f : BaseFile.t) (comm : MPIComm.t)
    (root : Z) (sl : option (list Slice.t)) :
  FileStack.header {| FileStack.files := fs ++ [f]; FileStack.mpicomm := comm;
                      FileStack.mpiroot := root; FileStack._slices := sl |}
  = FileStack.update
      (FileStack.header {| FileStack.files := fs; FileStack.mpicomm := comm;
                           FileStack.mpiroot := root; FileStack._slices := sl |})
      (BaseFile.header f).
Proof. unfold FileStack.header. simpl. by rewrite foldl_app. Qed.

Lemma header_fold_lookup (fs : list BaseFile.t) (h : gmap string Z) (k : string) :
  foldl (λ h file, FileStack.update h (BaseFile.header file)) h fs !! k
  = match list_find (λ f, is_Some (BaseFile.header f !! k)) (reverse fs) with
    | Some (_, f) => BaseFile.header f !! k
    | None => h !! k
    end.
Proof.
  revert h. induction fs as [|f fs IH]; intros h; [done|].
  simpl. rewrite IH, reverse_cons.
  destruct (list_find _ (reverse fs)) as [[i g]|] eqn:E.
  - erewrite list_find_app_l by done. done.
  - rewrite list_find_app_r by done. simpl.
    unfold FileStack.update. rewrite lookup_union.
    case_decide as Hk.
    + simpl. destruct Hk as [v Hv]. rewrite Hv. by destruct (h !! k).
    + simpl. apply eq_None_not_Some in Hk. rewrite Hk. by destruct (h !! k).
Qed.

(** C8: on a stack whose header was not read before (the attribute
    [_header] is not set, as on a stack just built), the combined
    header holds, for every key, the value of the last shard (in shard
    order) that defines it, and no entry for a key no shard defines. *)
Theorem header_last_shard_wins (o : Cached.t) (k : string) :
  Cached._header o = None →
  (∀ fs1 f fs2 v,
     FileStack.files (Cached.stack o) = fs1 ++ f :: fs2 →
     BaseFile.header f !! k = Some v →
     Forall (λ g, BaseFile.header g !! k = None) fs2 →
     (Cached.header o).1 !! k = Some v)
  ∧ (Forall (λ g, BaseFile.header g !! k = None) (FileStack.files (Cached.stack o)) →
     (Cached.header o).1 !! k = None).
Proof.
  intros Hnone. unfold Cached.header. rewrite Hnone. cbn [fst].
  unfold FileStack.header. split.
  - intros fs1 f fs2 v -> Hv Hlater.
    rewrite header_fold_lookup, reverse_app, reverse_cons.
    assert (list_find (λ f0, is_Some (BaseFile.header f0 !! k)) (reverse fs2) = None) as Hn.
    { apply list_find_None. apply Forall_reverse.
      eapply Forall_impl; [done|]. intros g Hg [w Hw]. congruence. }
    rewrite <- app_assoc. rewrite list_find_app_r by done. simpl.
    case_decide as Hd; [done|]. destruct Hd. by eexists.
  - intros Hno. rewrite header_fold_lookup.
    destruct (list_find _ _) as [[i g]|] eqn:E; [|done].
    apply list_find_Some in E as (Hg & [w Hw] & _).
    apply list_elem_of_lookup_2 in Hg. rewrite elem_of_reverse in Hg.
    rewrite Forall_forall in Hno. specialize (Hno g Hg). congruence.
Qed.

Lemma header_last_shard_wins_witness :
  (Cached.header (Cached.fresh (stack_of [shard_h1; shard_h2] 1 0))).1 !! "a" = Some 2
  ∧ (Cached.header (Cached.fresh (stack_of [shard_h1; shard_h2] 1 0))).1 !! "z" = None.
Proof.
  split.
  - apply (proj1 (header_last_shard_wins
                    (Cached.fresh (stack_of [shard_h1; shard_h2] 1 0)) "a" eq_refl)
             [shard_h1] shard_h2 [] 2); [reflexivity|by vm_compute|constructor].
  - apply (proj2 (header_last_shard_wins
                    (Cached.fresh (stack_of [shard_h1; shard_h2] 1 0)) "z" eq_refl)).
    repeat constructor; by vm_compute.
Defined.

(** ** The file sizes assigned by [write] *)

Lemma sumZ_cons (x : Z) (l : list Z) : sumZ (x :: l) = x + sumZ l.
Proof. done. Qed.

Lemma sumZ_app (l1 l2 : list Z) : sumZ (l1 ++ l2) = sumZ l1 + sumZ l2.
Proof. induction l1 as [|x l1 IH]; simpl; lia. Qed.

Lemma imap_index_seqZ {A B : Type} (g : Z → B) (l : list A) :
  imap (λ i _, g (Z.of_nat i)) l = g <$> seqZ 0 (Z.of_nat (length l)).
Proof.
  apply list_eq. intros i. rewrite list_lookup_imap, list_lookup_fmap.
  destruct (l !! i) as [a|] eqn:E; simpl.
  - apply lookup_lt_Some in E. rewrite lookup_seqZ_lt by lia. simpl. do 2 f_equal.
  - apply lookup_ge_None in E. rewrite lookup_seqZ_ge by lia. done.
Qed.

Lemma sumZ_telescope (F : Z → Z) (k : nat) :
  sumZ ((λ i, F (i + 1) - F i) <$> seqZ 0 (Z.of_nat k)) = F (Z.of_nat k) - F 0.
Proof.
  induction k as [|k IH].
  { change (Z.of_nat 0) with 0. simpl. lia. }
  replace (Z.of_nat (S k)) with (Z.of_nat k + 1) by lia.
  rewrite seqZ_app, fmap_app, sumZ_app, IH by lia.
  change (seqZ (0 + Z.of_nat k) 1) with [0 + Z.of_nat k]. simpl.
  rewrite !Z.add_0_l. lia.
Qed.

Lemma write_filesizes (st : FileStack.t) (sizes : list Z) :
  FileStack.filesizes (FileStack.write st sizes).1
  = (λ i, (i + 1) * sumZ sizes / Z.of_nat (length (FileStack.files st))
          - i * sumZ sizes / Z.of_nat (length (FileStack.files st)))
    <$> seqZ 0 (Z.of_nat (length (FileStack.files st))).
Proof.
  unfold FileStack.filesizes. simpl. rewrite fmap_imap.
  apply (imap_index_seqZ
           (λ i, (i + 1) * sumZ sizes / Z.of_nat (length (FileStack.files st))
                 - i * sumZ sizes / Z.of_nat (length (FileStack.files st)))).
Qed.

(** C4: [write] over [n] shards with collective row count [C] gives
    shard [i] the row count [floor((i+1)*C/n) - floor(i*C/n)], whatever
    partitions the stack held before, and these counts add up to [C]. *)
Theorem write_splits_rows_evenly (st : FileStack.t) (sizes : list Z)
    (sl : option (list Slice.t)) :
  let n := Z.of_nat (length (FileStack.files st)) in
  let C := sumZ sizes in
  FileStack.filesizes (FileStack.write (FileStack.set_slices st sl) sizes).1
  = (λ i, (i + 1) * C / n - i * C / n) <$> seqZ 0 n
  ∧ (0 < n → FileStack.cfilesize (FileStack.write (FileStack.set_slices st sl) sizes).1 = C).
Proof.
  intros n C. split.
  - apply (write_filesizes (FileStack.set_slices st sl)).
  - intros Hn. unfold FileStack.cfilesize.
    rewrite (write_filesizes (FileStack.set_slices st sl)).
    change (length (FileStack.files (FileStack.set_slices st sl)))
      with (length (FileStack.files st)).
    fold n. fold C.
    pose proof (sumZ_telescope (λ i, i * C / n) (length (FileStack.files st))) as Ht.
    cbv beta in Ht. fold n in Ht. rewrite Ht.
    rewrite Z.mul_0_l, Z.div_0_l, Z.sub_0_r by lia.
    rewrite Z.mul_comm. apply Z.div_mul. lia.
Qed.

Lemma write_splits_rows_evenly_witness :
  FileStack.filesizes
    (FileStack.write (FileStack.set_slices (stack_of [shard_xy; shard_y] 2 0) None) [4; 3]).1
  = [3; 4]
  ∧ FileStack.cfilesize
      (FileStack.write (FileStack.set_slices (stack_of [shard_xy; shard_y] 2 0) None) [4; 3]).1
    = 7.
Proof.
  destruct (write_splits_rows_evenly (stack_of [shard_xy; shard_y] 2 0) [4; 3] None)
    as [Hsizes Hsum].
  split; [exact Hsizes|]. apply Hsum. simpl. lia.
Defined.

(** ** Construction *)

Lemma rmap_inl {A B : Type} (k : B → result A) (l : list A) :
  rmap (λ x : A + B, match x with inl a => Ok a | inr b => k b end) (inl <$> l) = Ok l.
Proof.
  induction l as [|a l IH]; [done|].
  rewrite fmap_cons. cbn [rmap]. by rewrite IH.
Qed.

Lemma forallb_comm_Forall (comm : MPIComm.t) (fs : list BaseFile.t) :
  forallb (λ f, MPIComm.id (BaseFile.mpicomm f) =? MPIComm.id comm)%nat fs = true
  ↔ Forall (λ f, MPIComm.id (BaseFile.mpicomm f) = MPIComm.id comm) fs.
Proof.
  induction fs as [|f fs IH]; simpl.
  - split; [constructor | done].
  - rewrite andb_true_iff, Nat.eqb_eq, IH, Forall_cons. done.
Qed.

Lemma file_object_comm (reg : Registry) (disk : string → Stored)
    (filetype : option FileTypeArg) (comm : MPIComm.t)
    (inputs : list (BaseFile.t + string)) (fs : list BaseFile.t) :
  rmap (file_object reg disk filetype comm) inputs = Ok fs →
  Forall2 (λ file f, match file with
                     | inl g => f = g
                     | inr fn => BaseFile.filename f = fn ∧ BaseFile.mpicomm f = comm
                     end) inputs fs.
Proof.
  revert fs. induction inputs as [|file inputs IH]; intros fs H.
  - injection H as <-. constructor.
  - cbn [rmap] in H.
    destruct (file_object reg disk filetype comm file) as [f|] eqn:Ef; [|done].
    cbn [mbind result_bind] in H.
    destruct (rmap _ inputs) as [fs'|]; [|done]. injection H as <-.
    constructor; [|by apply IH].
    destruct file as [g|fn]; cbn [file_object] in Ef; [by injection Ef|].
    destruct (get_filetype reg filetype (Some fn)) as [[ft|]|]; [|done|done].
    cbn [mbind result_bind] in Ef. unfold BaseFile.new in Ef.
    destruct (importable ft); [|done]. by injection Ef as <-.
Qed.

Lemma objects_comm (comm : MPIComm.t) (inputs : list (BaseFile.t + string))
    (fs : list BaseFile.t) :
  Forall2 (λ file f, match file with
                     | inl g => f = g
                     | inr fn => BaseFile.filename f = fn ∧ BaseFile.mpicomm f = comm
                     end) inputs fs →
  Forall (λ f, MPIComm.id (BaseFile.mpicomm f) = MPIComm.id comm) fs
  ↔ Forall (λ f, MPIComm.id (BaseFile.mpicomm f) = MPIComm.id comm) (objects inputs).
Proof.
  unfold objects. induction 1 as [|file f inputs fs Hf _ IH]; [done|].
  destruct file as [g|fn]; cbn.
  - subst g. by rewrite !Forall_cons, IH.
  - destruct Hf as [_ Hf]. rewrite Forall_cons, IH, Hf. tauto.
Qed.

(** C6: the inputs of [__init__] are file objects and names, mixed.  An
    error raised while the files of the names are built propagates;
    otherwise the stack raises at construction as soon as one of the
    file objects carries another communicator than the stack's, and is
    built when all carry the stack's: it holds the file objects as they
    are and, for each name, a file built on the stack's communicator. *)
Theorem init_checks_mpicomm (reg : Registry) (disk : string → Stored)
    (inputs : list (BaseFile.t + string)) (filetype : option FileTypeArg)
    (comm : MPIComm.t) :
  (∀ e, rmap (file_object reg disk filetype comm) inputs = Raise e →
        FileStack.__init__ reg disk inputs filetype comm = Raise e)
  ∧ (∀ fs, rmap (file_object reg disk filetype comm) inputs = Ok fs →
       (Exists (λ f, MPIComm.id (BaseFile.mpicomm f) ≠ MPIComm.id comm) (objects inputs) →
        FileStack.__init__ reg disk inputs filetype comm = Raise ValueError)
       ∧ (Forall (λ f, MPIComm.id (BaseFile.mpicomm f) = MPIComm.id comm) (objects inputs) →
          FileStack.__init__ reg disk inputs filetype comm
          = Ok {| FileStack.files := fs; FileStack.mpicomm := comm;
                  FileStack.mpiroot := 0; FileStack._slices := None |}
          ∧ Forall2 (λ file f, match file with
                               | inl g => f = g
                               | inr fn => BaseFile.filename f = fn
                                           ∧ BaseFile.mpicomm f = comm
                               end) inputs fs)).
Proof.
  unfold FileStack.__init__. fold (file_object reg disk filetype comm). split.
  - by intros e ->.
  - intros fs Hfs. rewrite Hfs. cbn [mbind result_bind].
    pose proof (file_object_comm _ _ _ _ _ _ Hfs) as Hkept.
    pose proof (objects_comm comm inputs fs Hkept) as Hiff. split.
    + intros Hex. destruct (forallb _ fs) eqn:E; [|done].
      apply forallb_comm_Forall, Hiff in E.
      apply Exists_exists in Hex as (f & Hf & Hne).
      rewrite Forall_forall in E. destruct Hne. by apply E.
    + intros Hall. apply Hiff, forallb_comm_Forall in Hall. by rewrite Hall.
Qed.

Lemma init_checks_mpicomm_witness :
  FileStack.__init__ (io_registry true true true true) (λ _, Build_Stored 0 [] ∅ [])
    [inr "new.npy"; inl shard_xy] None
    {| MPIComm.id := 1; MPIComm.rank := 0; MPIComm.size := 2 |}
  = Raise ValueError
  ∧ ∃ f, FileStack.__init__ (io_registry true true true true) (λ _, Build_Stored 0 [] ∅ [])
           [inr "new.npy"; inl shard_xy] None
           {| MPIComm.id := 0; MPIComm.rank := 1; MPIComm.size := 2 |}
         = Ok (stack_of [f; shard_xy] 2 1).
Proof.
  split.
  - apply (proj2 (init_checks_mpicomm (io_registry true true true true)
                    (λ _, Build_Stored 0 [] ∅ []) [inr "new.npy"; inl shard_xy] None
                    {| MPIComm.id := 1; MPIComm.rank := 0; MPIComm.size := 2 |})
             _ eq_refl).
    apply Exists_cons_hd. simpl. lia.
  - eexists.
    apply (proj2 (init_checks_mpicomm (io_registry true true true true)
                    (λ _, Build_Stored 0 [] ∅ []) [inr "new.npy"; inl shard_xy] None
                    {| MPIComm.id := 0; MPIComm.rank := 1; MPIComm.size := 2 |})
             _ eq_refl).
    repeat constructor.
Defined.

(** ** The registry lookup *)

(** C7: with no format tag, a file name whose extension is listed by no
    registered file type makes [get_filetype] raise instead of returning
    a handler. *)
Theorem get_filetype_unknown_extension (reg : Registry) (filename : string) :
  Forall (λ ft, file_ext filename ∉ extensions ft) reg.*2 →
  get_filetype reg None (Some filename) = Raise IOError.
Proof.
  intros Hnone. unfold get_filetype.
  destruct (list_find _ _) as [[i ft]|] eqn:E; [|done].
  apply list_find_Some in E as (Hft & Hext & _).
  apply list_elem_of_lookup_2 in Hft.
  rewrite Forall_forall in Hnone. by destruct (Hnone ft Hft).
Qed.

Lemma get_filetype_unknown_extension_witness :
  get_filetype (io_registry true true true true) None (Some "catalog.txt"%string)
  = Raise IOError.
Proof.
  apply get_filetype_unknown_extension.
  apply (bool_decide_unpack
           (Forall (λ ft, file_ext "catalog.txt" ∉ extensions ft)
                   (io_registry true true true true).*2)).
  vm_compute. exact I.
Defined.

(** ** Comprehensions that may raise *)

Lemma rmap_cons {A B : Type} (f : A → result B) (a : A) (l : list A) :
  rmap f (a :: l) = (b ← f a; bs ← rmap f l; Ok (b :: bs)).
Proof. done. Qed.

Lemma rmap_ok {A B : Type} (f : A → result B) (g : A → B) (l : list A) :
  Forall (λ a, f a = Ok (g a)) l → rmap f l = Ok (g <$> l).
Proof.
  induction 1 as [|a l Ha _ IH]; [done|].
  rewrite rmap_cons, Ha, fmap_cons. simpl. by rewrite IH.
Qed.

Lemma rmap_zip_fmap {A B C : Type} (g : A * B → result C) (f : A → B) (l : list A) :
  rmap g (zip l (f <$> l)) = rmap (λ a, g (a, f a)) l.
Proof.
  induction l as [|a l IH]; [done|].
  rewrite fmap_cons. cbn [zip zip_with]. rewrite !rmap_cons. by rewrite IH.
Qed.

Lemma rmap_app {A B : Type} (f : A → result B) (l1 l2 : list A) (r1 r2 : list B) :
  rmap f l1 = Ok r1 → rmap f l2 = Ok r2 → rmap f (l1 ++ l2) = Ok (r1 ++ r2).
Proof.
  revert r1. induction l1 as [|a l1 IH]; intros r1 H1 H2.
  - injection H1 as <-. done.
  - rewrite <- app_comm_cons, rmap_cons. rewrite rmap_cons in H1.
    destruct (f a) as [b|e]; [|done]. simpl in *.
    destruct (rmap f l1) as [bs|e]; [|done]. simpl in *.
    injection H1 as <-. by rewrite (IH bs).
Qed.

Lemma List_filter_none {A : Type} (p : A → bool) (l : list A) :
  Forall (λ a, p a = false) l → List.filter p l = [].
Proof. induction 1 as [|a l Ha _ IH]; simpl; [done|]. by rewrite Ha. Qed.

(** ** Facts on partitions *)

Section slice_facts.

Lemma size_0_to_array (sl : Slice.t) : Slice.size sl = 0 → Slice.to_array sl = [].
Proof. unfold Slice.size. intros H. apply length_zero_iff_nil. lia. Qed.

Lemma to_range_sound (l : list Z) (r : Slice.t) :
  Slice.to_range l = Some r → Slice.to_array r = l ∧ Slice.is_array r = false.
Proof.
  destruct l as [|a [|b l]]; simpl.
  - intros [= <-]. done.
  - intros [= <-]. split; [|done]. simpl. rewrite range_list_unit by lia.
    replace (a + 1 - a) with 1 by lia. done.
  - case_bool_decide as Hd; [|done]. intros [= <-]. done.
Qed.

Lemma pack_to_array (array : bool) (l : list Z) : Slice.to_array (Slice.pack array l) = l.
Proof.
  unfold Slice.pack. destruct array; [done|].
  destruct (Slice.to_range l) as [r|] eqn:E; [|done].
  by apply to_range_sound in E as [? _].
Qed.

Lemma pack_nil_empty (array : bool) : Slice.nonempty (Slice.pack array []) = false.
Proof. by destruct array. Qed.

Lemma find_empty_other (self other : Slice.t) :
  Slice.size other = 0 →
  Slice.nonempty (Slice.find self other).1 = false.
Proof.
  intros H. unfold Slice.find. rewrite (size_0_to_array _ H). simpl.
  apply pack_nil_empty.
Qed.

Lemma runs_concat (l : list Z) : concat (Slice.runs l) = l.
Proof.
  induction l as [|x l IH]; [done|]. simpl.
  destruct (Slice.runs l) as [|r rs]; simpl in *.
  - by rewrite <- IH.
  - case_bool_decide; simpl; by rewrite <- IH.
Qed.

Lemma runs_progressions (l : list Z) :
  Forall (λ r, is_Some (Slice.to_range r)) (Slice.runs l).
Proof.
  induction l as [|x l IH]; [constructor|]. simpl.
  destruct (Slice.runs l) as [|r rs].
  - repeat constructor. by eexists.
  - apply Forall_cons in IH as [Hr Hrs]. case_bool_decide as Hd.
    + by constructor.
    + repeat constructor; [by eexists|done|done].
Qed.

Lemma to_slices_to_array (sl : Slice.t) :
  concat (Slice.to_array <$> Slice.to_slices sl) = Slice.to_array sl.
Proof.
  unfold Slice.to_slices. rewrite <- list_fmap_compose.
  rewrite <- (runs_concat (Slice.to_array sl)) at 2. f_equal.
  rewrite <- (list_fmap_id (Slice.runs (Slice.to_array sl))) at 2.
  apply list_fmap_ext. intros i r _. apply (pack_to_array false).
Qed.

Lemma to_slices_ranges (sl : Slice.t) :
  Forall (λ p, Slice.is_array p = false) (Slice.to_slices sl).
Proof.
  unfold Slice.to_slices. apply Forall_fmap.
  eapply Forall_impl; [apply runs_progressions|].
  intros r [p Hp]. simpl. unfold Slice.pack. rewrite Hp.
  by apply to_range_sound in Hp as [_ ?].
Qed.

End slice_facts.

(** ** Reading no rows *)

Lemma Forall_zip_snd {A B : Type} (P : B → Prop) (l : list A) (k : list B) :
  Forall P k → Forall (λ ab, P ab.2) (zip l k).
Proof.
  intros Hk. revert l. induction Hk as [|b k Hb _ IH]; intros [|a l]; simpl;
    try constructor; auto.
Qed.

Lemma Forall_zip_fst {A B : Type} (P : A → Prop) (l : list A) (k : list B) :
  Forall P l → Forall (λ ab, P ab.1) (zip l k).
Proof.
  intros Hl. revert k. induction Hl as [|a l Ha _ IH]; intros [|b k]; simpl;
    try constructor; auto.
Qed.

Lemma read_slice_no_rows (st : FileStack.t) (column : string) (sli : Slice.t)
    (ws : list (Z * Z)) :
  Slice.size sli = 0 →
  FileStack.read_slice st column sli
    ((λ w, Slice.find (Slice.Range w.1 w.2 1) sli) <$> ws) = Ok [].
Proof.
  intros Hsz. unfold FileStack.read_slice.
  rewrite List_filter_none; [done|].
  apply (Forall_zip_snd (λ o, Slice.nonempty o.1 = false)).
  apply Forall_fmap, Forall_forall. intros w _.
  by apply find_empty_other.
Qed.

Lemma read_no_rows (st : FileStack.t) (column : string) :
  Forall (λ sl, Slice.size sl = 0) (FileStack.slices st) →
  FileStack.read st column = Raise IndexError.
Proof.
  intros Hall. unfold FileStack.read, FileStack.fileslices.
  rewrite rmap_zip_fmap.
  rewrite (rmap_ok _ (λ _, [])).
  - simpl. replace (concat _) with (@nil (list Z)); [done|].
    clear Hall. induction (FileStack.slices st) as [|s l IH]; [done|].
    rewrite fmap_cons. simpl. exact IH.
  - eapply Forall_impl; [exact Hall|]. intros sli Hsz. simpl.
    by apply read_slice_no_rows.
Qed.

(** C10: when the partitions of the calling rank select no row, and so
    in particular when the files hold no row at all and the partition is
    the default one, [read] raises instead of returning an empty array:
    [toret] is empty when [toret[0]] is evaluated. *)
Theorem read_empty_partition_raises (st : FileStack.t) (column : string) :
  (FileStack.size st = 0 → FileStack.read st column = Raise IndexError)
  ∧ (FileStack.cfilesize st = 0 → FileStack._slices st = None →
     FileStack.read st column = Raise IndexError).
Proof.
  assert (∀ l : list Z, Forall (λ x, 0 ≤ x) l → sumZ l = 0 → Forall (λ x, x = 0) l) as Hsum.
  { induction 1 as [|x l Hx Hl IH]; simpl; [constructor|].
    assert (0 ≤ sumZ l) by (clear -Hl; induction Hl; simpl; lia).
    intros. constructor; [lia|]. apply IH. lia. }
  split.
  - intros Hsz. apply read_no_rows. unfold FileStack.size in Hsz.
    apply Hsum in Hsz.
    + by apply Forall_fmap in Hsz.
    + apply Forall_fmap, Forall_forall. intros sl _. simpl. unfold Slice.size. lia.
  - intros Hc Hs. apply read_no_rows. unfold FileStack.slices. rewrite Hs, Hc.
    repeat constructor. unfold default_slice.
    rewrite !Z.mul_0_r, Zdiv_0_l. done.
Qed.

Lemma read_empty_partition_raises_witness :
  FileStack.read (stack_of [shard_empty] 1 0) "X" = Raise IndexError
  ∧ FileStack.read (FileStack.set_slices (stack_of [shard_xy] 1 0) (Some [])) "X"
    = Raise IndexError.
Proof.
  split.
  - apply (proj2 (read_empty_partition_raises (stack_of [shard_empty] 1 0) "X"));
      reflexivity.
  - apply (proj1 (read_empty_partition_raises
                    (FileStack.set_slices (stack_of [shard_xy] 1 0) (Some [])) "X")).
    reflexivity.
Defined.

(** ** The rows handed to the reader of a format *)

(** C9: [BaseFile.read] hands the reader of the format the selection in
    a representation the class declares: an index array is cut into
    ranges when ['index'] is not declared, a range becomes an index
    array when ['slice'] is not declared, and the selection is passed as
    it is otherwise; the pieces select the rows of the selection in its
    order, and the result is the concatenation of the reads of the
    pieces. *)
Theorem read_converts_rows (f : BaseFile.t) (column : string) (rows : Slice.t) :
  let sl := Slice.with_size rows (BaseFile.csize f) in
  let types := _type_read_rows (BaseFile.cls f) in
  let pieces := BaseFile.read_pieces f rows in
  (Slice.is_array sl = true → "index" ∉ types →
     pieces = Slice.to_slices sl ∧ Forall (λ p, kind p = "slice") pieces)
  ∧ (Slice.is_array sl = false → "slice" ∉ types →
     pieces = [Slice.Indices (Slice.to_array sl)])
  ∧ (kind sl ∈ types → pieces = [sl])
  ∧ ("slice" ∈ types ∨ "index" ∈ types → Forall (λ p, kind p ∈ types) pieces)
  ∧ concat (Slice.to_array <$> pieces) = Slice.to_array sl
  ∧ BaseFile.read f column rows
    = (tmp ← rmap (BaseFile._read_rows f column) pieces; concatenate tmp)
  ∧ (∀ tmp, rmap (BaseFile._read_rows f column) pieces = Ok tmp → tmp ≠ [] →
       BaseFile.read f column rows = Ok (concat tmp)).
Proof.
  intros sl types pieces.
  assert (Forall (λ p, kind p = "slice") (Slice.to_slices sl)) as Hranges.
  { eapply Forall_impl; [apply to_slices_ranges|]. intros p Hp. unfold kind. by rewrite Hp. }
  subst pieces. unfold BaseFile.read_pieces. fold sl. fold types.
  split; [|split; [|split; [|split; [|split; [|split]]]]].
  - intros Ha Hi. rewrite Ha. by rewrite bool_decide_eq_false_2.
  - intros Ha Hs. rewrite Ha. by rewrite bool_decide_eq_false_2.
  - unfold kind. destruct (Slice.is_array sl); intros Hk; by rewrite bool_decide_eq_true_2.
  - intros Hdecl. destruct (Slice.is_array sl) eqn:Ha; case_bool_decide as Hd.
    + repeat constructor. unfold kind. by rewrite Ha.
    + eapply Forall_impl; [exact Hranges|]. intros p ->. destruct Hdecl; done.
    + repeat constructor. unfold kind. by rewrite Ha.
    + repeat constructor. simpl. destruct Hdecl; done.
  - destruct (Slice.is_array sl) eqn:Ha; case_bool_decide as Hd; simpl;
      rewrite ?app_nil_r; try done.
    apply to_slices_to_array.
  - done.
  - intros tmp Htmp Hne. unfold BaseFile.read, BaseFile.read_pieces.
    fold sl. fold types. rewrite Htmp. simpl. by destruct tmp.
Qed.

Lemma read_converts_rows_witness :
  BaseFile.read_pieces shard_x (Slice.Indices [2; 3; 0])
  = [Slice.Range 2 3 1; Slice.Range 3 (-3) (-3)]
  ∧ Forall (λ p, kind p ∈ _type_read_rows (BaseFile.cls shard_x))
      (BaseFile.read_pieces shard_x (Slice.Indices [2; 3; 0]))
  ∧ BaseFile.read_pieces shard_xy (Slice.Range 1 3 1) = [Slice.Range 1 3 1]
  ∧ BaseFile.read shard_x "X" (Slice.Indices [2; 3; 0]) = Ok [15; 16; 13].
Proof.
  destruct (read_converts_rows shard_x "X" (Slice.Indices [2; 3; 0]))
    as (Hcut & _ & _ & Hdecl & _ & _ & Hcat).
  destruct (read_converts_rows shard_xy "X" (Slice.Range 1 3 1))
    as (_ & _ & Hsame & _).
  split; [|split; [|split]].
  - etrans; [|]; [refine (proj1 (Hcut eq_refl _))|by vm_compute].
    apply (bool_decide_unpack ("index" ∉ _type_read_rows (BaseFile.cls shard_x))).
    by vm_compute.
  - apply Hdecl. left.
    apply (bool_decide_unpack ("slice" ∈ _type_read_rows (BaseFile.cls shard_x))).
    by vm_compute.
  - etrans; [|]; [apply Hsame|by vm_compute].
    apply (bool_decide_unpack
             (kind (Slice.with_size (Slice.Range 1 3 1) (BaseFile.csize shard_xy))
              ∈ _type_read_rows (BaseFile.cls shard_xy))).
    by vm_compute.
  - etrans; [|]; [apply (Hcat [[15]; [16; 13]]); [by vm_compute|done]|by vm_compute].
Defined.

(** ** Arithmetic progressions *)

Section progressions.

Lemma seqZ_S (m n : Z) : 0 < n → seqZ m n = m :: seqZ (m + 1) (n - 1).
Proof.
  intros Hn. rewrite (seqZ_cons m n) by done. do 2 f_equal; lia.
Qed.

Lemma progression_nil (a d n : Z) : n ≤ 0 → progression a d n = [].
Proof. intros Hn. unfold progression. by rewrite seqZ_nil. Qed.

Lemma progression_cons (a d n : Z) :
  0 < n → progression a d n = a :: progression (a + d) d (n - 1).
Proof.
  intros Hn. unfold progression. rewrite seqZ_S by done. rewrite fmap_cons.
  f_equal; [lia|].
  rewrite <- (fmap_add_seqZ 1 0). rewrite <- list_fmap_compose.
  apply list_fmap_ext. intros i j _. simpl. lia.
Qed.

Lemma progression_unit (a n : Z) : progression a 1 n = seqZ a n.
Proof.
  unfold progression. transitivity (Z.add a <$> seqZ 0 n).
  - apply list_fmap_ext. intros i j _. lia.
  - rewrite fmap_add_seqZ. f_equal. lia.
Qed.

Lemma length_progression (a d n : Z) : length (progression a d n) = Z.to_nat n.
Proof. unfold progression. by rewrite length_fmap, length_seqZ. Qed.

Lemma progression_app (a d n1 n2 : Z) :
  0 ≤ n1 → 0 ≤ n2 →
  progression a d (n1 + n2) = progression a d n1 ++ progression (a + n1 * d) d n2.
Proof.
  intros H1 H2. unfold progression. rewrite seqZ_app, fmap_app by done.
  f_equal. replace (0 + n1) with (n1 + 0) by lia.
  rewrite <- (fmap_add_seqZ n1 0), <- list_fmap_compose.
  apply list_fmap_ext. intros i j _. simpl. lia.
Qed.

Lemma range_size_progression (a d n : Z) :
  d ≠ 0 → 0 ≤ n → Slice.range_size a (a + n * d) d = n.
Proof.
  intros Hd Hn. unfold Slice.range_size.
  destruct (Z.ltb_spec 0 d) as [Hpos|Hneg].
  - replace (a + n * d - a + d - 1) with (n * d + (d - 1)) by lia.
    rewrite Z.div_add_l, Z.div_small by lia. lia.
  - destruct (Z.ltb_spec d 0) as [Hlt|Hge]; [|lia].
    replace (a - (a + n * d) - d - 1) with (n * (- d) + (- d - 1)) by lia.
    rewrite Z.div_add_l, Z.div_small by lia. lia.
Qed.

Lemma range_list_progression (a d n : Z) :
  d ≠ 0 → 0 ≤ n → Slice.range_list a (a + n * d) d = progression a d n.
Proof.
  intros Hd Hn. unfold Slice.range_list. by rewrite range_size_progression.
Qed.

Lemma to_range_progression (a d n : Z) :
  d ≠ 0 → 2 ≤ n →
  Slice.to_range (progression a d n) = Some (Slice.Range a (a + n * d) d).
Proof.
  intros Hd Hn.
  pose proof (length_progression a d n) as Hlen.
  rewrite (progression_cons a d n) in * by lia.
  rewrite (progression_cons (a + d) d (n - 1)) in * by lia.
  unfold Slice.to_range.
  replace (a + d - a) with d by lia. rewrite Hlen, Z2Nat.id by lia.
  rewrite bool_decide_eq_true_2; [done|].
  rewrite range_list_progression by lia.
  rewrite (progression_cons a d n) by lia.
  by rewrite (progression_cons (a + d) d (n - 1)) by lia.
Qed.

(** The range that holds a progression of stride [d], when it is not
    empty. *)
Lemma pack_progression (a d n : Z) :
  d ≠ 0 → 1 ≤ n →
  Slice.pack false (progression a d n)
  = if n =? 1 then Slice.Range a (a + 1) 1 else Slice.Range a (a + n * d) d.
Proof.
  intros Hd Hn. unfold Slice.pack. destruct (Z.eqb_spec n 1) as [->|Hne].
  - rewrite progression_cons, progression_nil by lia. done.
  - by rewrite to_range_progression by lia.
Qed.

End progressions.

(** ** Sorting by key *)

Section argsort_facts.

Lemma insert_key_le (x : Z * nat) (l : list (Z * nat)) :
  Forall (λ y, x.1 ≤ y.1) l → insert_key x l = x :: l.
Proof.
  destruct 1 as [|y l Hy _]; [done|]. simpl.
  destruct (Z.leb_spec x.1 y.1); [done|lia].
Qed.

Lemma insert_key_gt (x : Z * nat) (l : list (Z * nat)) :
  Forall (λ y, y.1 < x.1) l → insert_key x l = l ++ [x].
Proof.
  induction 1 as [|y l Hy _ IH]; [done|]. simpl.
  destruct (Z.leb_spec x.1 y.1); [lia|]. by rewrite IH.
Qed.

Lemma sort_ascending (keys : list Z) (idx : list nat) :
  StronglySorted Z.le keys →
  foldr insert_key [] (zip keys idx) = zip keys idx.
Proof.
  intros Hs. revert idx. induction Hs as [|k keys Hs IH Hk]; intros [|i idx]; try done.
  simpl. rewrite IH. apply insert_key_le.
  by apply (Forall_zip_fst (λ y, k ≤ y)).
Qed.

Lemma sort_descending (keys : list Z) (idx : list nat) :
  StronglySorted Z.gt keys →
  foldr insert_key [] (zip keys idx) = reverse (zip keys idx).
Proof.
  intros Hs. revert idx. induction Hs as [|k keys Hs IH Hk]; intros [|i idx]; try done.
  simpl. rewrite IH, reverse_cons. apply insert_key_gt.
  apply Forall_reverse.
  apply (Forall_zip_fst (λ y, y < k)).
  eapply Forall_impl; [exact Hk|]. intros y. simpl. lia.
Qed.

Lemma argsort_ascending (keys : list Z) :
  StronglySorted Z.le keys → argsort keys = seq 0 (length keys).
Proof.
  intros Hs. unfold argsort. rewrite sort_ascending by done.
  apply snd_zip. by rewrite length_seq.
Qed.

Lemma argsort_descending (keys : list Z) :
  StronglySorted Z.gt keys → argsort keys = reverse (seq 0 (length keys)).
Proof.
  intros Hs. unfold argsort. rewrite sort_descending by done.
  rewrite fmap_reverse. f_equal. apply snd_zip. by rewrite length_seq.
Qed.

Lemma rmap_item_seq {A : Type} (l l0 : list A) :
  rmap (item (l0 ++ l)) (seq (length l0) (length l)) = Ok l.
Proof.
  revert l0. induction l as [|a l IH]; intros l0; [done|]. simpl.
  assert (item (l0 ++ a :: l) (length l0) = Ok a) as ->.
  { unfold item. rewrite lookup_app_r by lia. by rewrite Nat.sub_diag. }
  simpl. specialize (IH (l0 ++ [a])). rewrite <- app_assoc, length_app in IH. simpl in IH.
  rewrite Nat.add_1_r in IH. by rewrite IH.
Qed.

Lemma rmap_item_identity {A : Type} (l : list A) :
  rmap (item l) (seq 0 (length l)) = Ok l.
Proof. apply (rmap_item_seq l []). Qed.

Lemma rmap_item_reverse {A : Type} (l : list A) :
  rmap (item l) (reverse (seq 0 (length l))) = Ok (reverse l).
Proof.
  assert (∀ l1 l2 : list A,
    rmap (item (l1 ++ l2)) (reverse (seq (length l1) (length l2))) = Ok (reverse l2)) as H.
  { intros l1 l2. revert l1. induction l2 as [|a l2 IH]; intros l1; [done|].
    simpl. rewrite reverse_cons. rewrite (reverse_cons l2 a).
    apply rmap_app.
    - specialize (IH (l1 ++ [a])). rewrite <- app_assoc, length_app in IH. simpl in IH.
      rewrite Nat.add_1_r in IH. exact IH.
    - simpl. unfold item. rewrite lookup_app_r by lia. by rewrite Nat.sub_diag. }
  apply (H [] l).
Qed.

End argsort_facts.

(** ** The overlap of a partition with the window of a file *)

Section overlaps.

Lemma index_of_seqZ (v s k : Z) (m : nat) :
  Slice.index_of v k (seqZ s (Z.of_nat m))
  = if bool_decide (s ≤ v < s + Z.of_nat m) then Some (k + (v - s)) else None.
Proof.
  revert s k. induction m as [|m IH]; intros s k.
  - rewrite bool_decide_eq_false_2 by lia. done.
  - rewrite seqZ_S by lia. simpl Slice.index_of.
    replace (Z.of_nat (S m) - 1) with (Z.of_nat m) by lia. rewrite IH.
    destruct (Z.eqb_spec s v) as [->|Hne].
    + rewrite bool_decide_eq_true_2 by lia. f_equal. lia.
    + repeat case_bool_decide; try lia; f_equal; lia.
Qed.

Lemma index_of_window (v s m : Z) :
  0 ≤ m →
  Slice.index_of v 0 (seqZ s m)
  = if bool_decide (s ≤ v < s + m) then Some (v - s) else None.
Proof.
  intros Hm. rewrite <- (Z2Nat.id m) by done. rewrite index_of_seqZ.
  by rewrite Z.add_0_l.
Qed.

Lemma fmap_seqZ_succ {B : Type} (f : Z → B) (x len : Z) :
  (λ j, f (j + 1)) <$> seqZ x len = f <$> seqZ (x + 1) len.
Proof.
  replace (x + 1) with (1 + x) by lia.
  rewrite <- (fmap_add_seqZ 1 x), <- list_fmap_compose.
  apply list_fmap_ext. intros i j _. simpl. f_equal. lia.
Qed.

Lemma matches_progression (s m a d : Z) (n : nat) (k : Z) :
  0 ≤ m → d = 1 ∨ d = -1 →
  Slice.matches (seqZ s m) k (progression a d (Z.of_nat n))
  = (λ j, (a + j * d - s, k + j))
      <$> seqZ (first_in s m a d)
               (last_in s m a d (Z.of_nat n) - first_in s m a d).
Proof.
  intros Hm Hd. revert a k. induction n as [|n IH]; intros a k.
  - rewrite progression_nil by lia.
    rewrite (seqZ_nil (first_in s m a d)); [done|].
    unfold first_in, last_in. destruct (d =? 1); lia.
  - rewrite progression_cons by lia.
    replace (Z.of_nat (S n) - 1) with (Z.of_nat n) by lia.
    simpl Slice.matches. rewrite index_of_window, IH by done.
    set (f := λ j : Z, (a + j * d - s, k + j)).
    assert (∀ x len, (λ j, (a + d + j * d - s, k + 1 + j)) <$> seqZ x len
                     = f <$> seqZ (x + 1) len) as Hshift.
    { intros x len. rewrite <- fmap_seqZ_succ. apply list_fmap_ext.
      intros i j _. unfold f. f_equal; lia. }
    rewrite Hshift. clear Hshift IH.
    assert (f 0 = (a - s, k)) as Hf0 by (unfold f; f_equal; lia).
    unfold first_in, last_in.
    destruct Hd as [-> | ->]; simpl (_ =? _); cbv iota;
      case_bool_decide as Hin.
    all: try (rewrite <- Hf0, <- fmap_cons; f_equal;
              rewrite (seqZ_S (Z.max 0 _)) by lia; f_equal; [lia | f_equal; lia]).
    all: match goal with
         | |- _ <$> seqZ _ ?len' = _ <$> seqZ _ ?len =>
             destruct (decide (len ≤ 0));
             [ rewrite (seqZ_nil _ len), (seqZ_nil _ len') by lia; done
             | do 2 f_equal; lia ]
         end.
Qed.

Lemma fmap_progression (c d j0 len : Z) :
  (λ j, c + j * d) <$> seqZ j0 len = progression (c + j0 * d) d len.
Proof.
  unfold progression. rewrite <- (Z.add_0_r j0) at 1.
  rewrite <- (fmap_add_seqZ j0 0), <- list_fmap_compose.
  apply list_fmap_ext. intros i j _. simpl. lia.
Qed.

Lemma find_window (s m : Z) (sli : Slice.t) (a d n : Z) :
  0 ≤ m → 0 ≤ n → d = 1 ∨ d = -1 →
  Slice.is_array sli = false → Slice.to_array sli = progression a d n →
  Slice.find (Slice.Range s (s + m) 1) sli
  = (Slice.pack false
       (progression (a + first_in s m a d * d - s) d
                    (last_in s m a d n - first_in s m a d)),
     Slice.pack false
       (progression (first_in s m a d) 1
                    (last_in s m a d n - first_in s m a d))).
Proof.
  intros Hm Hn Hd Harr Hto.
  pose proof (matches_progression s m a d (Z.to_nat n) 0 Hm Hd) as Hmatch.
  rewrite Z2Nat.id in Hmatch by done.
  unfold Slice.find. rewrite Harr, Hto.
  cbn [Slice.to_array Slice.is_array orb].
  rewrite range_list_unit by lia. replace (s + m - s) with m by lia.
  rewrite Hmatch, <- !list_fmap_compose. f_equal; f_equal.
  - transitivity ((λ j, (a - s) + j * d) <$>
      seqZ (first_in s m a d) (last_in s m a d n - first_in s m a d)).
    + apply list_fmap_ext. intros i j _. simpl. lia.
    + rewrite fmap_progression. f_equal. lia.
  - transitivity ((λ j, 0 + j * 1) <$>
      seqZ (first_in s m a d) (last_in s m a d n - first_in s m a d)).
    + apply list_fmap_ext. intros i j _. simpl. lia.
    + rewrite fmap_progression. f_equal. lia.
Qed.

Lemma size_pack (array : bool) (l : list Z) :
  Slice.size (Slice.pack array l) = Z.of_nat (length l).
Proof. unfold Slice.size. by rewrite pack_to_array. Qed.

Lemma nonempty_pack_progression (x d len : Z) :
  Slice.nonempty (Slice.pack false (progression x d len)) = (0 <? len).
Proof.
  unfold Slice.nonempty. rewrite size_pack, length_progression.
  destruct (Z.ltb_spec 0 len); destruct (Z.ltb_spec 0 (Z.of_nat (Z.to_nat len))); lia.
Qed.

Lemma elem_of_progression (p a d n : Z) :
  p ∈ progression a d n ↔ ∃ j, 0 ≤ j < n ∧ p = a + j * d.
Proof.
  unfold progression. rewrite list_elem_of_fmap. split.
  - intros (j & -> & Hj). apply elem_of_seqZ in Hj. exists j. split; [lia|done].
  - intros (j & Hj & ->). exists j. split; [done|]. apply elem_of_seqZ. lia.
Qed.

End overlaps.

(** ** Reading a run of rows from one file *)

Section file_reads.

Lemma rmap_itemZ (col : list Z) (ps vs : list Z) :
  Forall2 (λ p v, 0 ≤ p ∧ col !! Z.to_nat p = Some v) ps vs →
  rmap (itemZ col) ps = Ok vs.
Proof.
  induction 1 as [|p v ps vs [Hp Hv] _ IH]; [done|].
  rewrite rmap_cons, IH. unfold itemZ, item.
  destruct (Z.leb_spec 0 p); [|lia]. by rewrite Hv.
Qed.

Lemma with_size_run (x d len n : Z) :
  d = 1 ∨ d = -1 → 1 ≤ len →
  (∀ p, p ∈ progression x d len → 0 ≤ p < n) →
  Slice.with_size (Slice.pack false (progression x d len)) n
  = Slice.pack false (progression x d len).
Proof.
  intros Hd Hlen Hin.
  assert (0 ≤ x < n) as Hx.
  { apply Hin, elem_of_progression. exists 0. lia. }
  assert (0 ≤ x + (len - 1) * d < n) as Hlast.
  { apply Hin, elem_of_progression. exists (len - 1). lia. }
  rewrite pack_progression by lia.
  destruct (Z.eqb_spec len 1) as [->|Hne]; unfold Slice.with_size, Slice.clamp.
  - simpl. f_equal; lia.
  - destruct Hd as [-> | ->]; simpl; f_equal; lia.
Qed.

End file_reads.

(** ** Python ranges and the readers of the formats *)

Lemma Forall2_impl_in {A B : Type} (P Q : A → B → Prop) (l : list A) (k : list B) :
  Forall2 P l k → (∀ x y, x ∈ l → P x y → Q x y) → Forall2 Q l k.
Proof.
  induction 1 as [|x y l k Hxy _ IH]; intros HPQ; constructor.
  - apply HPQ; [left|done].
  - apply IH. intros x' y' Hx'. apply HPQ. by right.
Qed.

Section python_ranges.

Lemma range_positive (i j k : Z) :
  0 < k → Py.range i j k = progression i k (Z.max 0 ((j - i + k - 1) / k)).
Proof.
  intros Hk. unfold Py.range, Py.range_len.
  by destruct (Z.ltb_spec 0 k); [|lia].
Qed.

Lemma range_negative (i j k : Z) :
  k < 0 → Py.range i j k = progression i k (Z.max 0 ((i - j - k - 1) / (- k))).
Proof.
  intros Hk. unfold Py.range, Py.range_len.
  by destruct (Z.ltb_spec 0 k); [lia|].
Qed.

Lemma range_len_bound_up (i j k t : Z) :
  0 < k → 0 ≤ t < Z.max 0 ((j - i + k - 1) / k) → i ≤ i + t * k < j.
Proof.
  intros Hk Ht.
  pose proof (Z.mul_div_le (j - i + k - 1) k Hk).
  split; [nia|]. nia.
Qed.

Lemma range_len_bound_down (i j k t : Z) :
  k < 0 → 0 ≤ t < Z.max 0 ((i - j - k - 1) / (- k)) → j < i + t * k ≤ i.
Proof.
  intros Hk Ht.
  pose proof (Z.mul_div_le (i - j - k - 1) (- k) ltac:(lia)).
  split; nia.
Qed.

Lemma range_bounds (i j k p : Z) :
  k ≠ 0 → p ∈ Py.range i j k →
  if 0 <? k then i ≤ p < j else j < p ≤ i.
Proof.
  intros Hk Hp. destruct (Z.ltb_spec 0 k).
  - rewrite range_positive in Hp by done.
    apply elem_of_progression in Hp as (t & Ht & ->).
    by apply range_len_bound_up.
  - rewrite range_negative in Hp by lia.
    apply elem_of_progression in Hp as (t & Ht & ->).
    apply range_len_bound_down; [lia|done].
Qed.

Lemma range_empty (i j k : Z) :
  (if 0 <? k then j ≤ i else i ≤ j) → Py.range i j k = [].
Proof.
  intros H. unfold Py.range, Py.range_len. apply progression_nil.
  destruct (Z.ltb_spec 0 k).
  - assert ((j - i + k - 1) / k < 1); [|lia].
    apply Z.div_lt_upper_bound; lia.
  - destruct (Z.eq_dec k 0) as [->|]; [change (- 0) with 0; rewrite Z.div_0_r; lia|].
    assert ((i - j - k - 1) / (- k) < 1); [|lia].
    apply Z.div_lt_upper_bound; lia.
Qed.

Lemma progression_shift (a d n c : Z) :
  (λ q, q + c) <$> progression a d n = progression (a + c) d n.
Proof.
  unfold progression. rewrite <- list_fmap_compose.
  apply list_fmap_ext. intros _ q _. cbn. lia.
Qed.

Lemma range_shift (a b k c : Z) :
  (λ q, q + c) <$> Py.range a b k = Py.range (a + c) (b + c) k.
Proof.
  unfold Py.range. rewrite progression_shift. f_equal.
  unfold Py.range_len. by replace (b + c - (a + c)) with (b - a) by lia;
    replace (a + c - (b + c)) with (a - b) by lia.
Qed.

Lemma range_unit (a b : Z) : Py.range a b 1 = progression a 1 (Z.max 0 (b - a)).
Proof.
  rewrite range_positive by lia. f_equal.
  replace (b - a + 1 - 1) with (b - a) by lia. by rewrite Z.div_1_r.
Qed.

Lemma length_range_unit (a b : Z) :
  Z.of_nat (length (Py.range a b 1)) = Z.max 0 (b - a).
Proof. rewrite range_unit, length_progression. lia. Qed.

Lemma reverse_progression (a d n : Z) :
  0 ≤ n → reverse (progression a d n) = progression (a + (n - 1) * d) (- d) n.
Proof.
  intros Hn. rewrite <- (Z2Nat.id n) by done.
  induction (Z.to_nat n) as [|m IH].
  - by rewrite !progression_nil by lia.
  - replace (Z.of_nat (S m)) with (Z.of_nat m + 1) by lia.
    rewrite (progression_app a d (Z.of_nat m) 1) by lia.
    rewrite reverse_app, IH.
    rewrite (progression_cons _ d 1), (progression_nil _ _ (1 - 1)) by lia.
    cbn [reverse app]. rewrite reverse_singleton. cbn [app].
    rewrite (progression_cons _ (- d) (Z.of_nat m + 1)) by lia.
    f_equal; [lia|]. f_equal; lia.
Qed.

End python_ranges.

Section rows_facts.

Lemma rows_at_length (col ps vs : list Z) : rows_at col ps vs → length vs = length ps.
Proof. intros H. symmetry. by eapply Forall2_length. Qed.

Lemma rows_at_functional (col ps vs ws : list Z) :
  rows_at col ps vs → rows_at col ps ws → vs = ws.
Proof.
  unfold rows_at. intros H. revert ws.
  induction H as [|p v ps vs [_ Hv] _ IH]; intros ws Hw.
  - by apply Forall2_nil_inv_l in Hw.
  - apply Forall2_cons_inv_l in Hw as (w & ws' & [_ Hw] & Hws & ->).
    f_equal; [congruence|by apply IH].
Qed.

Lemma rows_at_injective (col ps qs vs : list Z) :
  NoDup col → rows_at col ps vs → rows_at col qs vs → ps = qs.
Proof.
  unfold rows_at. intros Hnd H. revert qs.
  induction H as [|p v ps vs [Hp Hv] _ IH]; intros qs Hq.
  - by apply Forall2_nil_inv_r in Hq.
  - apply Forall2_cons_inv_r in Hq as (q & qs' & [Hq Hv'] & Hqs & ->).
    f_equal; [|by apply IH].
    pose proof (NoDup_lookup _ _ _ _ Hnd Hv Hv'). lia.
Qed.

Lemma omap_cons_eq {A B : Type} (f : A → option B) (x : A) (l : list A) :
  omap f (x :: l) = match f x with Some y => y :: omap f l | None => omap f l end.
Proof. done. Qed.

Lemma omap_rows_at (col ps : list Z) :
  Forall (λ p, 0 ≤ p < Z.of_nat (length col)) ps →
  rows_at col ps (omap (λ p, col !! Z.to_nat p) ps).
Proof.
  unfold rows_at. induction 1 as [|p ps Hp _ IH]; [constructor|].
  destruct (lookup_lt_is_Some_2 col (Z.to_nat p)) as [v Hv]; [lia|].
  rewrite omap_cons_eq, Hv. constructor; [|done]. split; [lia|done].
Qed.

Lemma rows_at_unit_lookup (col sub : list Z) (a m : Z) (q v : Z) :
  rows_at col (progression a 1 m) sub →
  0 ≤ q → sub !! Z.to_nat q = Some v →
  0 ≤ q + a ∧ col !! Z.to_nat (q + a) = Some v.
Proof.
  unfold rows_at. intros Hsub Hq Hv.
  destruct (Forall2_lookup_r _ _ _ _ _ Hsub Hv) as (p & Hp & Hp0 & Hpv).
  unfold progression in Hp. rewrite list_lookup_fmap in Hp.
  destruct (seqZ 0 m !! Z.to_nat q) as [j|] eqn:Hj; [|done].
  apply lookup_seqZ in Hj as [-> _]. cbn in Hp. injection Hp as <-.
  replace (q + a) with (a + (0 + Z.of_nat (Z.to_nat q)) * 1) by lia. done.
Qed.

Lemma rows_at_compose (col sub qs vs : list Z) (a m : Z) :
  rows_at col (progression a 1 m) sub →
  rows_at sub qs vs →
  rows_at col ((λ q, q + a) <$> qs) vs.
Proof.
  unfold rows_at at 2 3. intros Hsub Hvs. apply Forall2_fmap_l.
  eapply Forall2_impl; [exact Hvs|].
  intros q v [Hq Hv]. cbn. by eapply rows_at_unit_lookup.
Qed.

End rows_facts.

Section slicing_facts.

Lemma adjust_bounds (len step i : Z) :
  0 ≤ len →
  if step <? 0 then -1 ≤ Py.adjust len step i ≤ len - 1
  else 0 ≤ Py.adjust len step i ≤ len.
Proof.
  intros Hlen. unfold Py.adjust.
  destruct (Z.ltb_spec step 0), (Z.ltb_spec i 0), (Z.ltb_spec (i + len) 0),
    (Z.leb_spec len i); lia.
Qed.

Lemma indices_bounds (len : Z) (start stop : option Z) (step : Z) :
  0 ≤ len →
  let b := Py.indices len start stop step in
  if step <? 0 then (-1 ≤ b.1 ≤ len - 1 ∧ -1 ≤ b.2 ≤ len - 1)
  else (0 ≤ b.1 ≤ len ∧ 0 ≤ b.2 ≤ len).
Proof.
  intros Hlen. unfold Py.indices. cbn [fst snd].
  destruct start as [i|], stop as [j|];
    try pose proof (adjust_bounds len step i Hlen);
    try pose proof (adjust_bounds len step j Hlen);
    destruct (Z.ltb_spec step 0); lia.
Qed.

Lemma getslice_rows (a : list Z) (start stop : option Z) (step : Z) :
  step ≠ 0 →
  let b := Py.indices (Z.of_nat (length a)) start stop step in
  ∃ vs, Py.getslice a start stop step = Ok vs
        ∧ rows_at a (Py.range b.1 b.2 step) vs.
Proof.
  intros Hstep b. unfold Py.getslice.
  destruct (Z.eqb_spec step 0) as [?|_]; [done|].
  eexists. split; [reflexivity|]. apply omap_rows_at.
  apply Forall_forall. intros p Hp.
  apply range_bounds in Hp; [|done].
  pose proof (indices_bounds (Z.of_nat (length a)) start stop step ltac:(lia)) as Hb.
  cbv zeta in Hb. fold b in Hp, Hb.
  destruct (Z.ltb_spec step 0), (Z.ltb_spec 0 step); lia.
Qed.

(** [sub[::step]] for the rows [sub] of a window of the column. *)
Lemma strided_window (col sub : list Z) (a m step : Z) :
  step ≠ 0 → 0 ≤ m →
  rows_at col (progression a 1 m) sub →
  ∃ vs, Py.getslice sub None None step = Ok vs
        ∧ rows_at col (if 0 <? step then Py.range a (a + m) step
                       else Py.range (a + m - 1) (a - 1) step) vs.
Proof.
  intros Hstep Hm Hsub.
  destruct (getslice_rows sub None None step Hstep) as (vs & Hvs & Hrows).
  exists vs. split; [done|].
  pose proof (rows_at_length _ _ _ Hsub) as Hlen.
  rewrite length_progression in Hlen.
  cbn [Py.indices fst snd] in Hrows. rewrite Hlen, Z2Nat.id in Hrows by done.
  pose proof (rows_at_compose _ _ _ _ _ _ Hsub Hrows) as Hc.
  rewrite range_shift in Hc.
  destruct (Z.ltb_spec 0 step), (Z.ltb_spec step 0); try lia.
  - by replace (a + m) with (m + a) by lia.
  - by replace (a + m - 1) with (m - 1 + a) by lia;
      replace (a - 1) with (-1 + a) by lia.
Qed.

Lemma fitsio_read_window (col : list Z) (a b : Z) :
  0 ≤ a → b ≤ Z.of_nat (length col) →
  ∃ sub, Reader.fitsio_read col (Py.range a b 1) = Ok sub
         ∧ rows_at col (progression a 1 (Z.max 0 (b - a))) sub.
Proof.
  intros Ha Hb. unfold Reader.fitsio_read.
  assert (Forall (λ p, 0 ≤ p < Z.of_nat (length col)) (Py.range a b 1)) as Hin.
  { apply Forall_forall. intros p Hp. apply range_bounds in Hp; [|done].
    cbn in Hp. lia. }
  assert (forallb (λ p, (0 <=? p) && (p <? Z.of_nat (length col))) (Py.range a b 1) = true)
    as ->.
  { induction Hin as [|p ps Hp _ IH]; [done|]. cbn [forallb]. rewrite IH.
    apply andb_true_iff. split; [|done].
    apply andb_true_iff. split; [apply Z.leb_le|apply Z.ltb_lt]; lia. }
  eexists. split; [reflexivity|]. rewrite <- range_unit. by apply omap_rows_at.
Qed.

Lemma getslice_window (col : list Z) (a b : Z) :
  0 ≤ a → 0 ≤ b ≤ Z.of_nat (length col) →
  ∃ sub, Py.getslice col (Some a) (Some b) 1 = Ok sub
         ∧ rows_at col (progression (Z.min a (Z.of_nat (length col))) 1
                          (Z.max 0 (b - Z.min a (Z.of_nat (length col))))) sub.
Proof.
  intros Ha Hb.
  destruct (getslice_rows col (Some a) (Some b) 1 ltac:(done)) as (sub & Hsub & Hrows).
  exists sub. split; [done|]. rewrite <- range_unit.
  cbn [Py.indices fst snd] in Hrows.
  assert (Py.adjust (Z.of_nat (length col)) 1 a = Z.min a (Z.of_nat (length col))) as Ea.
  { unfold Py.adjust. destruct (Z.ltb_spec a 0), (Z.leb_spec (Z.of_nat (length col)) a);
      cbn; lia. }
  assert (Py.adjust (Z.of_nat (length col)) 1 b = b) as Eb.
  { unfold Py.adjust. destruct (Z.ltb_spec b 0), (Z.leb_spec (Z.of_nat (length col)) b);
      cbn; lia. }
  by rewrite Ea, Eb in Hrows.
Qed.

End slicing_facts.

Section reader_facts.

Context (col : list Z) (start : Z) (stop : option Z) (step : Z).
Hypothesis Hin : inside (Z.of_nat (length col)) start stop step.

Lemma inside_step : step ≠ 0.
Proof. unfold inside in Hin. destruct (Z.ltb_spec 0 step); lia. Qed.

Lemma fits_rows :
  ∃ vs, Reader.fits col (Reader.Sl start stop step) = Ok vs
        ∧ rows_at col (slice_rows start stop step) vs.
Proof.
  pose proof inside_step as Hstep.
  unfold inside in Hin. unfold Reader.fits, slice_rows.
  destruct (Z.ltb_spec 0 step) as [Hpos|Hneg].
  - destruct Hin as (Hs & b & -> & Hb).
    destruct (Z.ltb_spec step 0); [lia|]. cbn [mbind result_bind fst snd default].
    destruct (fitsio_read_window col start b) as (sub & -> & Hsub); [lia..|].
    cbn [mbind result_bind].
    destruct (strided_window col sub start (Z.max 0 (b - start)) step)
      as (vs & -> & Hvs); [done|lia|done|].
    exists vs. split; [done|].
    destruct (Z.ltb_spec 0 step); [|lia].
    destruct (Z.le_gt_cases start b).
    + by replace (start + Z.max 0 (b - start)) with b in Hvs by lia.
    + rewrite (range_empty start b) by (destruct (Z.ltb_spec 0 step); lia).
      rewrite (range_empty start _) in Hvs by (destruct (Z.ltb_spec 0 step); lia).
      done.
  - destruct Hin as (Hlt & Hs & Hb).
    destruct (Z.ltb_spec step 0); [|lia]. cbn [mbind result_bind fst snd].
    set (s0 := default (-1) stop).
    assert (-1 ≤ s0) as Hs0.
    { unfold s0. destruct stop as [b|]; cbn; [|lia]. specialize (Hb b eq_refl). lia. }
    destruct (fitsio_read_window col (s0 + 1) (start + 1)) as (sub & -> & Hsub); [lia..|].
    cbn [mbind result_bind].
    destruct (strided_window col sub (s0 + 1) (Z.max 0 (start + 1 - (s0 + 1))) step)
      as (vs & -> & Hvs); [done|lia|done|].
    exists vs. split; [done|].
    destruct (Z.ltb_spec 0 step); [lia|].
    replace (s0 + 1 - 1) with s0 in Hvs by lia.
    destruct (Z.le_gt_cases s0 start).
    + by replace (s0 + 1 + Z.max 0 (start + 1 - (s0 + 1)) - 1) with start in Hvs by lia.
    + rewrite (range_empty start s0) by (destruct (Z.ltb_spec 0 step); lia).
      rewrite (range_empty _ s0) in Hvs by (destruct (Z.ltb_spec 0 step); lia).
      done.
Qed.

Lemma bigfile_rows :
  ∃ vs, Reader.bigfile col (Reader.Sl start stop step) = Ok vs
        ∧ rows_at col (slice_rows start stop step) vs.
Proof.
  pose proof inside_step as Hstep.
  unfold inside in Hin. unfold Reader.bigfile, slice_rows.
  set (len := Z.of_nat (length col)) in *.
  destruct (Z.ltb_spec 0 step) as [Hpos|Hneg].
  - destruct Hin as (Hs & b & -> & Hb).
    destruct (Z.ltb_spec step 0); [lia|]. cbn [fst snd default].
    destruct (getslice_window col start b) as (sub & -> & Hsub); [lia..|].
    cbn [mbind result_bind]. fold len in Hsub.
    destruct (strided_window col sub (Z.min start len)
                (Z.max 0 (b - Z.min start len)) step)
      as (vs & -> & Hvs); [done|lia|done|].
    exists vs. split; [done|].
    destruct (Z.ltb_spec 0 step); [|lia].
    destruct (Z.le_gt_cases start b).
    + by replace (Z.min start len + Z.max 0 (b - Z.min start len)) with b in Hvs by lia;
        replace (Z.min start len) with start in Hvs by lia.
    + rewrite (range_empty start b) by (destruct (Z.ltb_spec 0 step); lia).
      rewrite (range_empty _ _) in Hvs by (destruct (Z.ltb_spec 0 step); lia).
      done.
  - destruct Hin as (Hlt & Hs & Hb).
    destruct (Z.ltb_spec step 0); [|lia]. cbn [fst snd].
    set (s0 := default (-1) stop).
    assert (-1 ≤ s0) as Hs0.
    { unfold s0. destruct stop as [b|]; cbn; [|lia]. specialize (Hb b eq_refl). lia. }
    destruct (getslice_window col (s0 + 1) (start + 1)) as (sub & -> & Hsub); [lia..|].
    cbn [mbind result_bind]. fold len in Hsub.
    destruct (strided_window col sub (Z.min (s0 + 1) len)
                (Z.max 0 (start + 1 - Z.min (s0 + 1) len)) step)
      as (vs & -> & Hvs); [done|lia|done|].
    exists vs. split; [done|].
    destruct (Z.ltb_spec 0 step); [lia|].
    destruct (Z.le_gt_cases s0 start).
    + replace (Z.min (s0 + 1) len) with (s0 + 1) in Hvs by lia.
      by replace (s0 + 1 + Z.max 0 (start + 1 - (s0 + 1)) - 1) with start in Hvs by lia;
        replace (s0 + 1 - 1) with s0 in Hvs by lia.
    + rewrite (range_empty start s0) by (destruct (Z.ltb_spec 0 step); lia).
      rewrite (range_empty _ _) in Hvs by (destruct (Z.ltb_spec 0 step); lia).
      done.
Qed.

Lemma numpy_rows :
  ∃ vs, Reader.numpy col (Reader.Sl start stop step) = Ok vs
        ∧ rows_at col (slice_rows start stop step) vs.
Proof.
  pose proof inside_step as Hstep.
  unfold inside in Hin. unfold Reader.numpy, slice_rows.
  set (len := Z.of_nat (length col)) in *.
  destruct (getslice_rows col (Some start) stop step Hstep) as (vs & -> & Hvs).
  exists vs. split; [done|]. fold len in Hvs.
  cbn [Py.indices fst snd] in Hvs. unfold Py.adjust in Hvs.
  destruct (Z.ltb_spec 0 step) as [Hpos|Hneg].
  - destruct Hin as (Hs & b & -> & Hb). cbn [default].
    destruct (Z.ltb_spec step 0); [lia|].
    destruct (Z.ltb_spec start 0); [lia|]. destruct (Z.ltb_spec b 0); [lia|].
    destruct (Z.leb_spec len b), (Z.leb_spec len start);
      try (replace len with b in Hvs by lia); try done.
    + rewrite (range_empty start b) by (destruct (Z.ltb_spec 0 step); lia).
      rewrite (range_empty _ _) in Hvs by (destruct (Z.ltb_spec 0 step); lia).
      done.
    + rewrite (range_empty start b) by (destruct (Z.ltb_spec 0 step); lia).
      rewrite (range_empty _ _) in Hvs by (destruct (Z.ltb_spec 0 step); lia).
      done.
  - destruct Hin as (Hlt & Hs & Hb).
    destruct (Z.ltb_spec step 0); [|lia].
    destruct (Z.ltb_spec start 0); [lia|].
    destruct (Z.leb_spec len start); [lia|].
    destruct stop as [b|]; cbn [default]; [|done].
    specialize (Hb b eq_refl).
    destruct (Z.ltb_spec b 0); [lia|].
    destruct (Z.leb_spec len b); [|done].
    rewrite (range_empty start b) by (destruct (Z.ltb_spec 0 step); lia).
    rewrite (range_empty _ _) in Hvs by (destruct (Z.ltb_spec 0 step); lia).
    done.
Qed.

End reader_facts.

(** The readers of FITS files, of big files and of arrays return the
    same rows for a slice inside the column: those at the positions of
    the slice, in its order, whatever the step. *)
Theorem range_readers_agree (col : list Z) (start : Z) (stop : option Z) (step : Z) :
  inside (Z.of_nat (length col)) start stop step →
  ∃ vs, rows_at col (slice_rows start stop step) vs
        ∧ Reader.fits col (Reader.Sl start stop step) = Ok vs
        ∧ Reader.bigfile col (Reader.Sl start stop step) = Ok vs
        ∧ Reader.numpy col (Reader.Sl start stop step) = Ok vs.
Proof.
  intros Hin.
  destruct (fits_rows col start stop step Hin) as (vs & Hf & Hvs).
  destruct (bigfile_rows col start stop step Hin) as (vs1 & Hb & Hvs1).
  destruct (numpy_rows col start stop step Hin) as (vs2 & Hn & Hvs2).
  exists vs. split; [done|]. split; [done|].
  rewrite (rows_at_functional _ _ _ _ Hvs Hvs1), (rows_at_functional _ _ _ _ Hvs1 Hvs2).
  by rewrite <- (rows_at_functional _ _ _ _ Hvs1 Hvs2) at 1.
Qed.

Lemma range_readers_agree_witness :
  ∃ vs, rows_at [10; 11; 12; 13; 14; 15] [5; 3] vs
        ∧ Reader.fits [10; 11; 12; 13; 14; 15] (Reader.Sl 5 (Some 1) (-2)) = Ok vs
        ∧ Reader.bigfile [10; 11; 12; 13; 14; 15] (Reader.Sl 5 (Some 1) (-2)) = Ok vs
        ∧ Reader.numpy [10; 11; 12; 13; 14; 15] (Reader.Sl 5 (Some 1) (-2)) = Ok vs.
Proof.
  apply (range_readers_agree [10; 11; 12; 13; 14; 15] 5 (Some 1) (-2)).
  unfold inside. cbn. repeat split; try lia. intros b [= <-]. lia.
Defined.

Section backward_hdf5.

Lemma omap_reverse {A B : Type} (f : A → option B) (l : list A) :
  omap f (reverse l) = reverse (omap f l).
Proof.
  induction l as [|x l IH]; [done|].
  rewrite reverse_cons, omap_app, IH, !omap_cons_eq.
  destruct (f x).
  - by rewrite reverse_cons.
  - apply app_nil_r.
Qed.

Lemma omap_ext_in {A B : Type} (f g : A → option B) (l : list A) :
  Forall (λ x, f x = g x) l → omap f l = omap g l.
Proof.
  induction 1 as [|x l Hx _ IH]; [done|]. by rewrite !omap_cons_eq, Hx, IH.
Qed.

Lemma omap_lookup_all {A : Type} (l : list A) :
  omap (λ p, l !! Z.to_nat p) (seqZ 0 (Z.of_nat (length l))) = l.
Proof.
  induction l as [|x l IH] using rev_ind; [done|].
  rewrite length_app, Nat2Z.inj_add. cbn [length].
  rewrite seqZ_app by lia. rewrite omap_app.
  assert (omap (λ p, (l ++ [x]) !! Z.to_nat p) (seqZ 0 (Z.of_nat (length l)))
          = omap (λ p, l !! Z.to_nat p) (seqZ 0 (Z.of_nat (length l)))) as ->.
  { apply omap_ext_in, Forall_forall. intros p Hp.
    apply elem_of_seqZ in Hp. apply lookup_app_l. lia. }
  rewrite IH. f_equal.
  rewrite (seqZ_S _ 1) by lia. rewrite omap_cons_eq.
  replace (Z.to_nat (0 + Z.of_nat (length l))) with (length l) by lia.
  rewrite lookup_app_r, Nat.sub_diag by done. done.
Qed.

Lemma getslice_reversed {A : Type} (l : list A) :
  Py.getslice l None None (-1) = Ok (reverse l).
Proof.
  unfold Py.getslice. cbn [Z.eqb Py.indices Z.ltb Z.compare fst snd]. f_equal.
  set (m := Z.of_nat (length l)).
  rewrite range_negative by lia.
  replace (Z.max 0 ((m - 1 - -1 - -1 - 1) / - -1)) with m.
  2:{ replace (m - 1 - -1 - -1 - 1) with m by lia. change (- -1) with 1.
      rewrite Z.div_1_r. lia. }
  transitivity (reverse (omap (λ p, l !! Z.to_nat p) (seqZ 0 m)));
    [|unfold m; by rewrite omap_lookup_all].
  rewrite <- omap_reverse. f_equal.
  rewrite <- progression_unit, reverse_progression by lia.
  f_equal. lia.
Qed.

Lemma range_reversed (A B k : Z) :
  0 < k →
  reverse (Py.range A B k) = Py.range (B - 1) (A - 1) (- k)
  ↔ B ≤ A ∨ (B - 1 - A) mod k = 0.
Proof.
  intros Hk. destruct (Z.le_gt_cases B A) as [Hle|Hlt].
  - rewrite !range_empty by (destruct (Z.ltb_spec 0 k), (Z.ltb_spec 0 (- k)); lia).
    split; [by left|done].
  - rewrite range_positive, range_negative by lia.
    replace (B - 1 - (A - 1) - - k - 1) with (B - A + k - 1) by lia.
    replace (- - k) with k by lia.
    set (n := Z.max 0 ((B - A + k - 1) / k)).
    assert (1 ≤ n) as Hn.
    { unfold n. assert (1 ≤ (B - A + k - 1) / k); [|lia].
      apply Z.div_le_lower_bound; lia. }
    assert (n = (B - A + k - 1) / k) as En by lia.
    rewrite reverse_progression by lia.
    pose proof (Z.div_mod (B - 1 - A) k ltac:(lia)) as Hdm.
    pose proof (Z.mod_pos_bound (B - 1 - A) k Hk) as Hmod.
    assert (n = (B - 1 - A) / k + 1) as En'.
    { rewrite En. replace (B - A + k - 1) with ((B - 1 - A) + 1 * k) by lia.
      by rewrite Z.div_add by lia. }
    split.
    + intros Heq. right.
      rewrite (progression_cons _ _ n), (progression_cons (B - 1) _ n) in Heq by lia.
      injection Heq as Hhead _. nia.
    + intros [?|Hal]; [lia|].
      f_equal. rewrite Hal in Hdm. nia.
Qed.

Context (col : list Z) (start : Z) (stop : option Z) (step : Z).
Hypothesis Hin : inside (Z.of_nat (length col)) start stop step.
Hypothesis Hstep : step < 0.

Lemma hdf5_backward_rows :
  ∃ ws, Reader.hdf5 col (Reader.Sl start stop step) = Ok ws
        ∧ rows_at col (reverse (Py.range (default (-1) stop + 1) (start + 1) (- step))) ws.
Proof.
  unfold inside in Hin. destruct (Z.ltb_spec 0 step); [lia|].
  destruct Hin as (_ & Hs & Hb).
  set (s0 := default (-1) stop).
  assert (-1 ≤ s0) as Hs0.
  { unfold s0. destruct stop as [b|]; cbn; [|lia]. specialize (Hb b eq_refl). lia. }
  unfold Reader.hdf5. destruct (Z.ltb_spec step 0); [|lia]. fold s0.
  replace (Z.abs step) with (- step) by lia.
  destruct (getslice_rows col (Some (s0 + 1)) (Some (start + 1)) (- step) ltac:(lia))
    as (sub & -> & Hsub).
  cbn [mbind result_bind]. rewrite getslice_reversed.
  exists (reverse sub). split; [done|].
  cbn [Py.indices fst snd] in Hsub. unfold Py.adjust in Hsub.
  set (len := Z.of_nat (length col)) in *.
  destruct (Z.ltb_spec (s0 + 1) 0); [lia|]. destruct (Z.ltb_spec (start + 1) 0); [lia|].
  destruct (Z.ltb_spec (- step) 0); [lia|].
  assert ((if len <=? start + 1 then len else start + 1) = start + 1) as Ej.
  { destruct (Z.leb_spec len (start + 1)); lia. }
  rewrite Ej in Hsub.
  apply Forall2_reverse.
  destruct (Z.leb_spec len (s0 + 1)); [|done].
  rewrite (range_empty (s0 + 1)) by (destruct (Z.ltb_spec 0 (- step)); lia).
  rewrite (range_empty len) in Hsub by (destruct (Z.ltb_spec 0 (- step)); lia).
  done.
Qed.

End backward_hdf5.

(** [HDF5File._read_rows] on a backward slice reads forward from
    [stop + 1] with the step's size and reverses: it returns the rows
    of the slice only when the slice is empty or [start - stop - 1] is
    a multiple of the step.  On a forward slice it is array slicing. *)
Theorem hdf5_backward_stride (col : list Z) (start : Z) (stop : option Z) (step : Z) :
  inside (Z.of_nat (length col)) start stop step →
  let s0 := default (-1) stop in
  (0 < step →
   Reader.hdf5 col (Reader.Sl start stop step) = Reader.numpy col (Reader.Sl start stop step))
  ∧ (step < 0 →
     (∃ ws, Reader.hdf5 col (Reader.Sl start stop step) = Ok ws
            ∧ rows_at col (reverse (Py.range (s0 + 1) (start + 1) (- step))) ws)
     ∧ (NoDup col →
        Reader.hdf5 col (Reader.Sl start stop step)
        = Reader.numpy col (Reader.Sl start stop step)
        ↔ start ≤ s0 ∨ (start - s0 - 1) mod (- step) = 0)).
Proof.
  intros Hin s0. split.
  - intros Hpos. unfold Reader.hdf5, Reader.numpy.
    by destruct (Z.ltb_spec step 0); [lia|].
  - intros Hneg.
    destruct (hdf5_backward_rows col start stop step Hin Hneg) as (ws & Hh & Hws).
    split; [by exists ws|]. intros Hnd.
    destruct (numpy_rows col start stop step Hin) as (vs & Hn & Hvs).
    unfold slice_rows in Hvs. fold s0 in Hws, Hvs.
    pose proof (range_reversed (s0 + 1) (start + 1) (- step) ltac:(lia)) as Hrev.
    replace (start + 1 - 1) with start in Hrev by lia.
    replace (s0 + 1 - 1) with s0 in Hrev by lia.
    replace (- - step) with step in Hrev by lia.
    replace (start - (s0 + 1)) with (start - s0 - 1) in Hrev by lia.
    rewrite Hh, Hn. split.
    + intros [= ->].
      pose proof (rows_at_injective _ _ _ _ Hnd Hws Hvs) as Heq.
      apply Hrev in Heq. destruct Heq; [left; lia|by right].
    + intros Hal. f_equal. eapply rows_at_functional; [exact Hws|].
      rewrite (proj2 Hrev); [done|]. destruct Hal; [left; lia|by right].
Qed.

Lemma hdf5_backward_stride_witness :
  Reader.hdf5 [10; 11; 12; 13; 14; 15] (Reader.Sl 5 (Some 1) (-2))
  ≠ Reader.numpy [10; 11; 12; 13; 14; 15] (Reader.Sl 5 (Some 1) (-2))
  ∧ Reader.hdf5 [10; 11; 12; 13; 14; 15] (Reader.Sl 1 (Some 5) 2)
    = Reader.numpy [10; 11; 12; 13; 14; 15] (Reader.Sl 1 (Some 5) 2).
Proof.
  split.
  - assert (inside (Z.of_nat (length [10; 11; 12; 13; 14; 15])) 5 (Some 1) (-2)) as Hin.
    { unfold inside. cbn. repeat split; try lia. intros b [= <-]. lia. }
    assert (NoDup [10; 11; 12; 13; 14; 15]) as Hnd.
    { apply (bool_decide_unpack _). by vm_compute. }
    intros Heq.
    apply (proj2 (proj2 (hdf5_backward_stride _ 5 (Some 1) (-2) Hin) ltac:(lia)) Hnd)
      in Heq.
    cbn in Heq. destruct Heq as [?|?]; [lia|done].
  - apply (proj1 (hdf5_backward_stride [10; 11; 12; 13; 14; 15] 1 (Some 5) 2
                    ltac:(unfold inside; cbn; split; [lia|exists 5; split; [done|lia]]))).
    lia.
Defined.

Section index_reads.

Lemma getitems_rows {A : Type} (a : list A) (ps : list Z) :
  Forall (λ p, 0 ≤ p < Z.of_nat (length a)) ps →
  ∃ vs, Py.getitems a ps = Ok vs
        ∧ Forall2 (λ p v, a !! Z.to_nat p = Some v) ps vs.
Proof.
  unfold Py.getitems. induction 1 as [|p ps Hp _ (vs & IH & Hvs)].
  - by exists [].
  - destruct (lookup_lt_is_Some_2 a (Z.to_nat p)) as [v Hv]; [lia|].
    exists (v :: vs). split; [|by constructor].
    rewrite rmap_cons, IH.
    destruct (Z.leb_spec (- Z.of_nat (length a)) p); [|lia].
    destruct (Z.ltb_spec p (Z.of_nat (length a))); [|lia].
    destruct (Z.ltb_spec p 0); [lia|]. cbn [andb]. unfold item. by rewrite Hv.
Qed.

Lemma elem_of_insert_unique (x y : Z) (l : list Z) :
  y ∈ Py.insert_unique x l ↔ y = x ∨ y ∈ l.
Proof.
  induction l as [|z l IH]; cbn [Py.insert_unique].
  - rewrite list_elem_of_singleton. split; [by left|]. by intros [?|?%elem_of_nil].
  - destruct (Z.ltb_spec x z); [by rewrite elem_of_cons|].
    destruct (Z.eqb_spec x z) as [->|].
    + rewrite elem_of_cons. tauto.
    + rewrite !elem_of_cons, IH. tauto.
Qed.

Lemma elem_of_unique (y : Z) (rows : list Z) : y ∈ Py.unique rows ↔ y ∈ rows.
Proof.
  unfold Py.unique. induction rows as [|x rows IH]; cbn [foldr]; [done|].
  by rewrite elem_of_insert_unique, elem_of_cons, IH.
Qed.

Lemma unique_inverse_lookup (rows : list Z) :
  Forall2 (λ v j, 0 ≤ j ∧ Py.unique rows !! Z.to_nat j = Some v)
    rows (Py.unique_inverse rows).
Proof.
  unfold Py.unique_inverse. apply Forall2_fmap_r, Forall_Forall2_diag, Forall_forall.
  intros v Hv. apply (proj2 (elem_of_unique _ _)) in Hv.
  unfold compose. cbv beta.
  match goal with |- context [@list_find ?T ?P ?D ?l] =>
    destruct (@list_find T P D l) as [[j y]|] eqn:Hfind end.
  - apply list_find_Some in Hfind as (Hj & -> & _). cbn.
    split; [lia|]. by rewrite Nat2Z.id.
  - apply list_find_None in Hfind.
    by pose proof (proj1 (Forall_forall _ _) Hfind v Hv).
Qed.

End index_reads.

(** An index array read from an HDF5 file, through its sorted distinct
    values and back, gives the rows at the indices in the order asked
    for, repeats included, as indexing the array does. *)
Theorem hdf5_index_rows (col idx : list Z) :
  Forall (λ i, 0 ≤ i < Z.of_nat (length col)) idx →
  ∃ vs, rows_at col idx vs
        ∧ Reader.hdf5 col (Reader.Idx idx) = Ok vs
        ∧ Reader.numpy col (Reader.Idx idx) = Ok vs.
Proof.
  intros Hidx.
  destruct (getitems_rows col idx Hidx) as (vs & Hn & Hvs).
  exists vs. split; [|split; [|done]].
  { unfold rows_at. eapply Forall2_impl_in; [exact Hvs|].
    intros i v Hi Hv. split; [|done].
    by apply (proj1 (Forall_forall _ _) Hidx i). }
  unfold Reader.hdf5.
  destruct (getitems_rows col (Py.unique idx)) as (sub & -> & Hsub).
  { apply Forall_forall. intros i Hi. apply (proj1 (elem_of_unique _ _)) in Hi.
    by apply (proj1 (Forall_forall _ _) Hidx i). }
  cbn [mbind result_bind].
  pose proof (unique_inverse_lookup idx) as Hinv.
  destruct (getitems_rows sub (Py.unique_inverse idx)) as (ws & -> & Hws).
  { apply Forall_forall. intros j Hj.
    apply list_elem_of_lookup_1 in Hj as [k Hk].
    destruct (Forall2_lookup_r _ _ _ _ _ Hinv Hk) as (v & _ & Hj0 & Hu).
    apply lookup_lt_Some in Hu. rewrite <- (Forall2_length _ _ _ Hsub). lia. }
  f_equal.
  apply (list_eq_Forall2 ws vs), Forall2_same_length_lookup.
  split.
  - rewrite <- (Forall2_length _ _ _ Hws), <- (Forall2_length _ _ _ Hvs).
    symmetry. apply (Forall2_length _ _ _ Hinv).
  - intros k w v Hw Hv.
    destruct (Forall2_lookup_r _ _ _ _ _ Hws Hw) as (j & Hj & Hjw).
    destruct (Forall2_lookup_r _ _ _ _ _ Hvs Hv) as (i & Hi & Hiv).
    destruct (Forall2_lookup_l _ _ _ _ _ Hinv Hi) as (j' & Hj' & _ & Hu).
    assert (j' = j) as -> by congruence.
    destruct (Forall2_lookup_r _ _ _ _ _ Hsub Hjw) as (u & Hu' & Huw).
    congruence.
Qed.

Lemma hdf5_index_rows_witness :
  ∃ vs, rows_at [10; 11; 12; 13] [2; 0; 2; 1] vs
        ∧ Reader.hdf5 [10; 11; 12; 13] (Reader.Idx [2; 0; 2; 1]) = Ok vs
        ∧ Reader.numpy [10; 11; 12; 13] (Reader.Idx [2; 0; 2; 1]) = Ok vs.
Proof.
  apply (hdf5_index_rows [10; 11; 12; 13] [2; 0; 2; 1]).
  repeat constructor; cbn; lia.
Defined.

(** ** Reading the rows of a file *)

Section format_reads.

Lemma reader_cases (FT : FileType) (read : list Z → Reader.Rows → result (list Z)) :
  BaseFile.reader FT = Some read →
  (FT = FitsFile (importable FT) ∧ read = Reader.fits)
  ∨ (FT = HDF5File (importable FT) ∧ read = Reader.hdf5)
  ∨ (FT = BinaryFile ∧ read = Reader.numpy)
  ∨ (FT = BigFile (importable FT) ∧ read = Reader.bigfile)
  ∨ (FT = AsdfFile (importable FT) ∧ read = Reader.numpy).
Proof.
  unfold BaseFile.reader. repeat case_decide; intros [= <-]; tauto.
Qed.

Lemma readable_slice (f : BaseFile.t) :
  readable f → "slice" ∈ _type_read_rows (BaseFile.cls f).
Proof.
  intros [read Hread]. apply reader_cases in Hread.
  destruct Hread as [[E _]|[[E _]|[[E _]|[[E _]|[E _]]]]]; rewrite E; cbn; by left.
Qed.

Lemma file_cell_inv (f : BaseFile.t) (column : string) (p v : Z) :
  file_cell f column p = Some v →
  readable f ∧ 0 ≤ p < BaseFile.csize f
  ∧ ∃ col, BaseFile.column_data f column = Some col ∧ col !! Z.to_nat p = Some v.
Proof.
  unfold file_cell. case_bool_decide as Hr; [|done]. cbn [andb].
  destruct (Z.leb_spec 0 p), (Z.ltb_spec p (BaseFile.csize f)); cbn [andb]; try done.
  destruct (BaseFile.column_data f column) as [col|]; [|done]. cbn.
  intros Hv. split; [done|]. split; [lia|]. by exists col.
Qed.

Lemma file_cell_intro (f : BaseFile.t) (column : string) (col : list Z) (p : Z) :
  readable f → BaseFile.column_data f column = Some col →
  0 ≤ p < BaseFile.csize f →
  file_cell f column p = col !! Z.to_nat p.
Proof.
  intros Hr Hcol Hp. unfold file_cell. rewrite bool_decide_eq_true_2 by done.
  destruct (Z.leb_spec 0 p), (Z.ltb_spec p (BaseFile.csize f)); try lia.
  cbn [andb]. by rewrite Hcol.
Qed.

Lemma range_progression (a d n s : Z) :
  d ≠ 0 → 1 ≤ n →
  (if 0 <? d then a + (n - 1) * d < s ≤ a + n * d
   else a + n * d ≤ s < a + (n - 1) * d) →
  Py.range a s d = progression a d n.
Proof.
  intros Hd Hn Hs. destruct (Z.ltb_spec 0 d).
  - rewrite range_positive by done. f_equal.
    assert ((s - a + d - 1) / d = n); [|lia].
    symmetry. apply (Z.div_unique_pos _ _ _ (s - a + d - 1 - n * d)); nia.
  - rewrite range_negative by lia. f_equal.
    assert ((a - s - d - 1) / (- d) = n); [|lia].
    symmetry. apply (Z.div_unique_pos _ _ _ (a - s - d - 1 - n * (- d))); nia.
Qed.

Lemma getslice_stop_clamp {A : Type} (l : list A) (start : option Z) (b step : Z) :
  0 < step → Z.of_nat (length l) ≤ b →
  Py.getslice l start (Some b) step
  = Py.getslice l start (Some (Z.of_nat (length l))) step.
Proof.
  intros Hstep Hb. unfold Py.getslice, Py.indices, Py.adjust. cbn [fst snd].
  destruct (Z.ltb_spec b 0), (Z.ltb_spec (Z.of_nat (length l)) 0); try lia.
  destruct (Z.leb_spec (Z.of_nat (length l)) b); [|lia].
  by rewrite Z.leb_refl.
Qed.

(** The reader of a format returns the rows of a slice that stays
    inside the column; the reader of [HDF5File] reads a backward slice
    of a stride other than [-1] from its stop, see
    [hdf5_backward_rows]. *)
Lemma reader_rows (FT : FileType) (read : list Z → Reader.Rows → result (list Z))
    (col : list Z) (start : Z) (stop : option Z) (step : Z) :
  BaseFile.reader FT = Some read →
  inside (Z.of_nat (length col)) start stop step →
  0 < step ∨ step = -1 ∨ FT ≠ HDF5File (importable FT) →
  ∃ vs, read col (Reader.Sl start stop step) = Ok vs
        ∧ rows_at col (slice_rows start stop step) vs.
Proof.
  intros Hread Hin Hal. apply reader_cases in Hread.
  destruct Hread as [[E ->]|[[E ->]|[[E ->]|[[E ->]|[E ->]]]]].
  - by apply fits_rows.
  - destruct Hal as [Hpos|[->|Hne]]; [| |done].
    + assert (Reader.hdf5 col (Reader.Sl start stop step)
              = Reader.numpy col (Reader.Sl start stop step)) as ->.
      { unfold Reader.hdf5, Reader.numpy. destruct (Z.ltb_spec step 0); [lia|done]. }
      by apply numpy_rows.
    + destruct (hdf5_backward_rows col start stop (-1) Hin) as (ws & Hws & Hrows); [lia|].
      exists ws. split; [done|]. unfold slice_rows.
      change (- -1) with 1 in Hrows.
      rewrite (proj2 (range_reversed _ _ 1 ltac:(lia))) in Hrows.
      * by replace (start + 1 - 1) with start in Hrows by lia;
          replace (default (-1) stop + 1 - 1) with (default (-1) stop) in Hrows by lia.
      * right. apply Z.mod_1_r.
  - by apply numpy_rows.
  - by apply bigfile_rows.
  - by apply numpy_rows.
Qed.

(** A forward slice whose stop lies past the end of the column is read
    as one that stops at the end, but by the reader of [FitsFile],
    which asks the library for each row of the window. *)
Lemma reader_stop_clamp (FT : FileType) (read : list Z → Reader.Rows → result (list Z))
    (col : list Z) (start b step : Z) :
  BaseFile.reader FT = Some read → FT ≠ FitsFile (importable FT) →
  0 < step → Z.of_nat (length col) ≤ b →
  read col (Reader.Sl start (Some b) step)
  = read col (Reader.Sl start (Some (Z.of_nat (length col))) step).
Proof.
  intros Hread Hfits Hstep Hb. apply reader_cases in Hread.
  destruct Hread as [[E ->]|[[E ->]|[[E ->]|[[E ->]|[E ->]]]]]; [done|..].
  - unfold Reader.hdf5. destruct (Z.ltb_spec step 0); [lia|]. by apply getslice_stop_clamp.
  - by apply getslice_stop_clamp.
  - unfold Reader.bigfile. destruct (Z.ltb_spec step 0); [lia|]. cbn [fst snd].
    by rewrite getslice_stop_clamp by (done || lia).
  - by apply getslice_stop_clamp.
Qed.

(** [_read_rows] on a range that stands for the positions
    [a, a + d, ..., a + (n - 1) * d] of the column: the rows at these
    positions, in this order. *)
Lemma read_rows_range (f : BaseFile.t) (column : string) (col : list Z)
    (a s d n : Z) :
  readable f → BaseFile.column_data f column = Some col →
  d ≠ 0 → 1 ≤ n →
  (∀ k, 0 ≤ k < n → 0 ≤ a + k * d < Z.of_nat (length col)) →
  (if 0 <? d then a + (n - 1) * d < s ≤ a + n * d
   else a + n * d ≤ s < a + (n - 1) * d) →
  s ≤ Z.of_nat (length col)
  ∨ BaseFile.cls f ≠ FitsFile (importable (BaseFile.cls f)) →
  0 < d ∨ d = -1 ∨ BaseFile.cls f ≠ HDF5File (importable (BaseFile.cls f)) →
  ∃ vs, BaseFile._read_rows f column (Slice.Range a s d) = Ok vs
        ∧ rows_at col (progression a d n) vs.
Proof.
  intros [read Hread] Hcol Hd Hn Hin Hs Hfits Hal.
  unfold BaseFile._read_rows. rewrite Hread, Hcol. cbn [Slice.idx].
  pose proof (Hin 0 ltac:(lia)) as H0. pose proof (Hin (n - 1) ltac:(lia)) as Hlast.
  set (len := Z.of_nat (length col)) in *.
  destruct (Z.ltb_spec 0 d) as [Hpos|Hneg].
  - destruct (Z.ltb_spec d 0); [lia|]. cbn [andb].
    destruct (decide (s ≤ len)) as [Hle|Hgt].
    + destruct (reader_rows _ read col a (Some s) d Hread) as (vs & Hvs & Hrows); [|done|].
      { unfold inside. fold len. destruct (Z.ltb_spec 0 d); [|lia].
        split; [lia|]. exists s. split; [done|lia]. }
      exists vs. split; [done|].
      replace (slice_rows a (Some s) d) with (progression a d n) in Hrows; [done|].
      symmetry. apply range_progression; [done|done|].
      by destruct (Z.ltb_spec 0 d); [|lia].
    + destruct Hfits as [?|Hfits]; [lia|].
      rewrite (reader_stop_clamp _ read col a s d Hread Hfits) by (fold len; lia). fold len.
      destruct (reader_rows _ read col a (Some len) d Hread) as (vs & Hvs & Hrows); [|done|].
      { unfold inside. fold len. destruct (Z.ltb_spec 0 d); [|lia].
        split; [lia|]. exists len. split; [done|lia]. }
      exists vs. split; [done|].
      replace (slice_rows a (Some len) d) with (progression a d n) in Hrows; [done|].
      symmetry. apply range_progression; [done|done|].
      destruct (Z.ltb_spec 0 d); simpl; lia.
  - destruct (Z.ltb_spec d 0); [|lia]. cbn [andb].
    set (stop := if s <? 0 then None else Some s).
    destruct (reader_rows _ read col a stop d Hread) as (vs & Hvs & Hrows).
    { unfold inside. fold len. destruct (Z.ltb_spec 0 d); [lia|].
      split; [lia|]. split; [lia|]. intros b. unfold stop.
      destruct (Z.ltb_spec s 0); [done|]. intros [= <-]. done. }
    { destruct Hal as [?|[?|?]]; [lia|by right; left|by right; right]. }
    exists vs. split; [done|].
    replace (slice_rows a stop d) with (progression a d n) in Hrows; [done|].
    symmetry. apply range_progression; [done|done|].
    destruct (Z.ltb_spec 0 d); [lia|]. unfold stop.
    destruct (Z.ltb_spec s 0); simpl; lia.
Qed.

Lemma BaseFile_read_run (f : BaseFile.t) (column : string) (x d len : Z)
    (vs : list Z) :
  d = 1 ∨ d = -1 → 1 ≤ len →
  Forall2 (λ p v, file_cell f column p = Some v) (progression x d len) vs →
  BaseFile.read f column (Slice.pack false (progression x d len)) = Ok vs.
Proof.
  intros Hd Hlen Hcells.
  assert (∀ p, p ∈ progression x d len → 0 ≤ p < BaseFile.csize f) as Hin.
  { intros p Hp. apply list_elem_of_lookup in Hp as [i Hi].
    destruct (Forall2_lookup_l _ _ _ _ _ Hcells Hi) as (v & _ & Hv).
    by apply file_cell_inv in Hv as (_ & ? & _). }
  assert (readable f ∧ ∃ col, BaseFile.column_data f column = Some col) as (Hr & col & Hcol).
  { rewrite progression_cons in Hcells by lia.
    apply Forall2_cons_inv_l in Hcells as (v & vs' & Hv & _ & _).
    apply file_cell_inv in Hv as (? & _ & col & ? & _). split; [done|by exists col]. }
  assert (rows_at col (progression x d len) vs) as Hrows.
  { eapply Forall2_impl; [exact Hcells|].
    intros p v Hv. apply file_cell_inv in Hv as (_ & Hp & col' & Hcol' & Hv).
    rewrite Hcol in Hcol'. injection Hcol' as <-. split; [lia|done]. }
  assert (∀ k, 0 ≤ k < len → 0 ≤ x + k * d < Z.of_nat (length col)) as Hcolin.
  { intros k Hk.
    assert (progression x d len !! Z.to_nat k = Some (x + k * d)) as Hp.
    { unfold progression. rewrite list_lookup_fmap, lookup_seqZ_lt by lia.
      cbn. do 2 f_equal. lia. }
    destruct (Forall2_lookup_l _ _ _ _ _ Hrows Hp) as (v & _ & H0 & Hv).
    apply lookup_lt_Some in Hv. lia. }
  unfold BaseFile.read, BaseFile.read_pieces.
  rewrite with_size_run by done.
  assert (Slice.is_array (Slice.pack false (progression x d len)) = false) as ->.
  { rewrite pack_progression by lia. by destruct (len =? 1). }
  rewrite bool_decide_eq_true_2 by (by apply readable_slice).
  rewrite rmap_cons.
  assert (∃ vs', BaseFile._read_rows f column (Slice.pack false (progression x d len))
                 = Ok vs' ∧ rows_at col (progression x d len) vs') as (vs' & -> & Hvs').
  { rewrite pack_progression by lia. destruct (Z.eqb_spec len 1) as [->|Hne].
    - pose proof (Hcolin 0 ltac:(lia)) as H0.
      destruct (read_rows_range f column col x (x + 1) 1 1 Hr Hcol)
        as (vs' & Hvs' & Hr'); [lia|lia| | | | |].
      + intros k Hk. assert (k = 0) as -> by lia. lia.
      + simpl. lia.
      + left. lia.
      + left. lia.
      + exists vs'. split; [done|].
        rewrite (progression_cons x d 1), progression_nil by lia.
        by rewrite (progression_cons x 1 1), progression_nil in Hr' by lia.
    - pose proof (Hcolin (len - 1) ltac:(lia)) as Hlast.
      destruct (read_rows_range f column col x (x + len * d) d len Hr Hcol)
        as (vs' & Hvs' & Hr'); [lia|lia|done| | | |].
      + destruct (Z.ltb_spec 0 d); lia.
      + left. destruct Hd as [-> | ->]; lia.
      + destruct Hd as [-> | ->]; [left; lia|by right; left].
      + by exists vs'. }
  rewrite (rows_at_functional _ _ _ _ Hvs' Hrows).
  cbn [rmap mbind result_bind concatenate concat]. by rewrite app_nil_r.
Qed.

End format_reads.

(** ** The logical table *)

Section table_facts.

Lemma cumsum_windows (acc : Z) (l : list Z) :
  zip (acc :: cumsum_from acc l) (cumsum_from acc l) = windows acc l.
Proof.
  revert acc. induction l as [|x l IH]; intros acc; [done|].
  simpl. f_equal. apply IH.
Qed.

Lemma fileslices_windows (st : FileStack.t) :
  FileStack.fileslices st
  = (λ sli, (λ w, Slice.find (Slice.Range w.1 w.2 1) sli)
              <$> windows 0 (FileStack.filesizes st)) <$> FileStack.slices st.
Proof.
  unfold FileStack.fileslices.
  change (zip (cumsum (0 :: FileStack.filesizes st))
              (tail (cumsum (0 :: FileStack.filesizes st))))
    with (zip (0 :: cumsum_from 0 (FileStack.filesizes st))
              (cumsum_from 0 (FileStack.filesizes st))).
  by rewrite cumsum_windows.
Qed.

Lemma hits_from_cons (off : Z) (f : BaseFile.t) (fs : list BaseFile.t) (sli : Slice.t) :
  hits_from off (f :: fs) sli
  = (let o := Slice.find (Slice.Range off (off + BaseFile.csize f) 1) sli in
     if Slice.nonempty o.1 then [(f, o)] else [])
    ++ hits_from (off + BaseFile.csize f) fs sli.
Proof.
  unfold hits_from. simpl.
  by destruct (Slice.nonempty _).
Qed.

Lemma sumZ_nonneg (l : list Z) : Forall (λ x, 0 ≤ x) l → 0 ≤ sumZ l.
Proof. induction 1; simpl; lia. Qed.

Lemma table_cell_bounds (fs : list BaseFile.t) (column : string) (p v : Z) :
  Forall (λ f, 0 ≤ BaseFile.csize f) fs →
  table_cell fs column p = Some v → 0 ≤ p < sumZ (BaseFile.csize <$> fs).
Proof.
  intros Hfs. revert p. induction Hfs as [|f fs Hf Hfs IH]; intros p; [done|].
  cbn [table_cell]. rewrite fmap_cons, sumZ_cons.
  pose proof (sumZ_nonneg (BaseFile.csize <$> fs)) as Hs.
  rewrite Forall_fmap in Hs. specialize (Hs Hfs).
  destruct (Z.ltb_spec p (BaseFile.csize f)).
  - intros Hc. apply file_cell_inv in Hc as (_ & ? & _). lia.
  - intros Hc. apply IH in Hc. lia.
Qed.

Lemma table_cell_here (f : BaseFile.t) (fs : list BaseFile.t) (column : string) (q : Z) :
  q < BaseFile.csize f → table_cell (f :: fs) column q = file_cell f column q.
Proof. intros Hq. simpl. destruct (Z.ltb_spec q (BaseFile.csize f)); [done|lia]. Qed.

Lemma table_cell_there (f : BaseFile.t) (fs : list BaseFile.t) (column : string) (q : Z) :
  BaseFile.csize f ≤ q →
  table_cell (f :: fs) column q = table_cell fs column (q - BaseFile.csize f).
Proof. intros Hq. simpl. destruct (Z.ltb_spec q (BaseFile.csize f)); [lia|done]. Qed.

Lemma progression_max (a d n : Z) : progression a d n = progression a d (Z.max 0 n).
Proof.
  destruct (decide (0 ≤ n)).
  - by rewrite Z.max_r by lia.
  - by rewrite Z.max_l, !progression_nil by lia.
Qed.

Lemma idx_start_pack_progression (x len : Z) :
  1 ≤ len → Slice.idx_start (Slice.pack false (progression x 1 len)) = Ok x.
Proof. intros Hlen. rewrite pack_progression by lia. by destruct (len =? 1). Qed.

End table_facts.

(** ** The overlaps of a forward run *)

Section forward_run.

Context (column : string) (sli : Slice.t) (a n : Z).
Hypothesis Harr : Slice.is_array sli = false.
Hypothesis Hto : Slice.to_array sli = progression a 1 n.
Hypothesis Hn : 0 ≤ n.

Lemma hits_forward (fs : list BaseFile.t) :
  ∀ off vs,
    Forall (λ f, 0 ≤ BaseFile.csize f) fs →
    Forall2 (λ p v, table_cell fs column (p - off) = Some v)
      (progression (a + Z.max 0 (off - a)) 1
         (Z.min n (off + sumZ (BaseFile.csize <$> fs) - a) - Z.max 0 (off - a))) vs →
    ∃ tmp starts,
      rmap (λ fp, BaseFile.read fp.1 column fp.2.1) (hits_from off fs sli) = Ok tmp
      ∧ rmap Slice.idx_start ((λ fp, fp.2.2) <$> hits_from off fs sli) = Ok starts
      ∧ length starts = length tmp
      ∧ concat tmp = vs
      ∧ StronglySorted Z.le starts
      ∧ Forall (λ s, Z.max 0 (off - a) ≤ s) starts.
Proof.
  induction fs as [|f fs IH]; intros off vs Hfs Hcells.
  - rewrite progression_nil in Hcells by (simpl; lia).
    apply Forall2_nil_inv_l in Hcells as ->.
    exists [], []. repeat split; constructor.
  - apply Forall_cons in Hfs as [Hf Hfs].
    rewrite fmap_cons, sumZ_cons in Hcells.
    pose proof (sumZ_nonneg (BaseFile.csize <$> fs)) as HS.
    rewrite Forall_fmap in HS. specialize (HS Hfs).
    set (c := BaseFile.csize f) in *.
    set (S' := sumZ (BaseFile.csize <$> fs)) in *.
    specialize (IH (off + c)). fold S' in IH.
    rewrite hits_from_cons. fold c.
    rewrite (find_window off c sli a 1 n) by auto.
    cbv zeta. cbn [fst snd]. rewrite nonempty_pack_progression.
    unfold first_in, last_in. change (1 =? 1) with true. cbv iota.
    set (j0 := Z.max 0 (off - a)) in *.
    set (j1 := Z.min n (off + c - a)).
    set (J0' := Z.max 0 (off + c - a)) in *.
    set (J1 := Z.min n (off + (c + S') - a)) in *.
    replace (Z.min n (off + c + S' - a)) with J1 in IH by (unfold J1; f_equal; lia).
    assert (∀ ws, Forall2 (λ p v, table_cell (f :: fs) column (p - off) = Some v)
                    (progression (a + J0') 1 (J1 - J0')) ws →
                  Forall2 (λ p v, table_cell fs column (p - (off + c)) = Some v)
                    (progression (a + J0') 1 (J1 - J0')) ws) as Hrest.
    { intros ws Hws. eapply Forall2_impl_in; [exact Hws|].
      intros p v Hp Hv. apply elem_of_progression in Hp as (j & Hj & ->).
      rewrite table_cell_there in Hv by (fold c; lia).
      fold c in Hv. rewrite <- Hv. f_equal. lia. }
    destruct (Z.ltb_spec 0 (j1 - j0)) as [Hhit|Hmiss].
    + assert (progression (a + j0) 1 (J1 - j0)
              = progression (a + j0) 1 (j1 - j0) ++ progression (a + J0') 1 (J1 - J0')) as Hsplit.
      { replace (J1 - j0) with ((j1 - j0) + Z.max 0 (J1 - J0')) by lia.
        rewrite progression_app by lia. f_equal.
        rewrite (progression_max _ _ (J1 - J0')).
        destruct (decide (J1 - J0' ≤ 0)).
        - by rewrite Z.max_l, !progression_nil by lia.
        - f_equal. lia. }
      rewrite Hsplit in Hcells.
      apply Forall2_app_inv_l in Hcells as (vs1 & vs2 & H1 & H2 & ->).
      destruct (IH vs2 Hfs (Hrest _ H2)) as (tmp & starts & Ht & Hs & Hlen & Hcat & Hsort & Hlow).
      assert (BaseFile.read f column
                (Slice.pack false (progression (a + j0 * 1 - off) 1 (j1 - j0))) = Ok vs1) as Hread.
      { apply BaseFile_read_run; [by left|lia|].
        replace (progression (a + j0 * 1 - off) 1 (j1 - j0))
          with ((λ p, p - off) <$> progression (a + j0) 1 (j1 - j0)).
        - apply Forall2_fmap_l. eapply Forall2_impl_in; [exact H1|].
          intros p v Hp Hv. apply elem_of_progression in Hp as (j & Hj & ->).
          rewrite table_cell_here in Hv by (fold c; lia). exact Hv.
        - unfold progression. rewrite <- list_fmap_compose.
          apply list_fmap_ext. intros i j _. simpl. lia. }
      exists (vs1 :: tmp), (j0 :: starts).
      rewrite <- !app_comm_cons, !app_nil_l, fmap_cons, !rmap_cons. cbn [fst snd].
      rewrite Hread, Ht, idx_start_pack_progression, Hs by lia.
      repeat split; simpl; try done.
      * by rewrite Hlen.
      * by rewrite Hcat.
      * constructor; [done|]. eapply Forall_impl; [exact Hlow|]. intros s. simpl. lia.
      * constructor; [lia|]. eapply Forall_impl; [exact Hlow|]. intros s. simpl. lia.
    + assert (progression (a + j0) 1 (J1 - j0) = progression (a + J0') 1 (J1 - J0')) as Hsame.
      { destruct (decide (J1 - j0 ≤ 0)).
        - by rewrite !progression_nil by lia.
        - f_equal; lia. }
      rewrite Hsame in Hcells.
      destruct (IH vs Hfs (Hrest _ Hcells)) as (tmp & starts & Ht & Hs & Hlen & Hcat & Hsort & Hlow).
      exists tmp, starts. rewrite app_nil_l.
      repeat split; try done.
      eapply Forall_impl; [exact Hlow|]. intros s. simpl. lia.
Qed.

End forward_run.

(** ** The overlaps of a backward run *)

Section backward_run.

Context (column : string) (sli : Slice.t) (a n : Z).
Hypothesis Harr : Slice.is_array sli = false.
Hypothesis Hto : Slice.to_array sli = progression a (-1) n.
Hypothesis Hn : 0 ≤ n.

Lemma hits_backward (fs : list BaseFile.t) :
  ∀ off vs,
    Forall (λ f, 0 ≤ BaseFile.csize f) fs →
    Forall2 (λ p v, table_cell fs column (p - off) = Some v)
      (progression (a - Z.max 0 (a - (off + sumZ (BaseFile.csize <$> fs) - 1))) (-1)
         (Z.min n (a - off + 1)
          - Z.max 0 (a - (off + sumZ (BaseFile.csize <$> fs) - 1)))) vs →
    ∃ tmp starts,
      rmap (λ fp, BaseFile.read fp.1 column fp.2.1) (hits_from off fs sli) = Ok tmp
      ∧ rmap Slice.idx_start ((λ fp, fp.2.2) <$> hits_from off fs sli) = Ok starts
      ∧ length starts = length tmp
      ∧ concat (reverse tmp) = vs
      ∧ StronglySorted Z.gt starts
      ∧ Forall (λ s, s < Z.min n (a - off + 1)) starts.
Proof.
  induction fs as [|f fs IH]; intros off vs Hfs Hcells.
  - rewrite progression_nil in Hcells by (simpl; lia).
    apply Forall2_nil_inv_l in Hcells as ->.
    exists [], []. repeat split; constructor.
  - apply Forall_cons in Hfs as [Hf Hfs].
    rewrite fmap_cons, sumZ_cons in Hcells.
    pose proof (sumZ_nonneg (BaseFile.csize <$> fs)) as HS.
    rewrite Forall_fmap in HS. specialize (HS Hfs).
    set (c := BaseFile.csize f) in *.
    set (S' := sumZ (BaseFile.csize <$> fs)) in *.
    specialize (IH (off + c)). fold S' in IH.
    rewrite hits_from_cons. fold c.
    rewrite (find_window off c sli a (-1) n) by auto.
    cbv zeta. cbn [fst snd]. rewrite nonempty_pack_progression.
    unfold first_in, last_in. change (-1 =? 1) with false. cbv iota.
    set (j0 := Z.max 0 (a - (off + c - 1))).
    set (J1 := Z.min n (a - off + 1)) in *.
    set (J0 := Z.max 0 (a - (off + (c + S') - 1))) in *.
    set (J1' := Z.min n (a - (off + c) + 1)) in *.
    replace (Z.max 0 (a - (off + c + S' - 1))) with J0 in IH by (unfold J0; f_equal; lia).
    assert (∀ ws, Forall2 (λ p v, table_cell (f :: fs) column (p - off) = Some v)
                    (progression (a - J0) (-1) (J1' - J0)) ws →
                  Forall2 (λ p v, table_cell fs column (p - (off + c)) = Some v)
                    (progression (a - J0) (-1) (J1' - J0)) ws) as Hrest.
    { intros ws Hws. eapply Forall2_impl_in; [exact Hws|].
      intros p v Hp Hv. apply elem_of_progression in Hp as (j & Hj & ->).
      rewrite table_cell_there in Hv by (fold c; lia).
      fold c in Hv. rewrite <- Hv. f_equal. lia. }
    destruct (Z.ltb_spec 0 (J1 - j0)) as [Hhit|Hmiss].
    + assert (progression (a - J0) (-1) (J1 - J0)
              = progression (a - J0) (-1) (J1' - J0)
                ++ progression (a + j0 * -1) (-1) (J1 - j0)) as Hsplit.
      { replace (J1 - J0) with (Z.max 0 (J1' - J0) + (J1 - j0)) by lia.
        rewrite progression_app by lia. f_equal.
        - symmetry. apply progression_max.
        - f_equal. lia. }
      rewrite Hsplit in Hcells.
      apply Forall2_app_inv_l in Hcells as (vs2 & vs1 & H2 & H1 & ->).
      destruct (IH vs2 Hfs (Hrest _ H2)) as (tmp & starts & Ht & Hs & Hlen & Hcat & Hsort & Hup).
      assert (BaseFile.read f column
                (Slice.pack false (progression (a + j0 * -1 - off) (-1) (J1 - j0))) = Ok vs1) as Hread.
      { apply BaseFile_read_run; [by right|lia|].
        replace (progression (a + j0 * -1 - off) (-1) (J1 - j0))
          with ((λ p, p - off) <$> progression (a + j0 * -1) (-1) (J1 - j0)).
        - apply Forall2_fmap_l. eapply Forall2_impl_in; [exact H1|].
          intros p v Hp Hv. apply elem_of_progression in Hp as (j & Hj & ->).
          rewrite table_cell_here in Hv by (fold c; lia). exact Hv.
        - unfold progression. rewrite <- list_fmap_compose.
          apply list_fmap_ext. intros i j _. simpl. lia. }
      exists (vs1 :: tmp), (j0 :: starts).
      rewrite <- !app_comm_cons, !app_nil_l, fmap_cons, !rmap_cons. cbn [fst snd].
      rewrite Hread, Ht, idx_start_pack_progression, Hs by lia.
      repeat split; simpl; try done.
      * by rewrite Hlen.
      * by rewrite reverse_cons, concat_app, Hcat; simpl; rewrite app_nil_r.
      * constructor; [done|]. eapply Forall_impl; [exact Hup|]. intros s. simpl. lia.
      * constructor; [lia|]. eapply Forall_impl; [exact Hup|]. intros s. simpl. lia.
    + assert (progression (a - J0) (-1) (J1 - J0) = progression (a - J0) (-1) (J1' - J0)) as Hsame.
      { destruct (decide (J1 - J0 ≤ 0)).
        - by rewrite !progression_nil by lia.
        - f_equal; lia. }
      rewrite Hsame in Hcells.
      destruct (IH vs Hfs (Hrest _ Hcells)) as (tmp & starts & Ht & Hs & Hlen & Hcat & Hsort & Hup).
      exists tmp, starts. rewrite app_nil_l.
      repeat split; try done.
      eapply Forall_impl; [exact Hup|]. intros s. simpl. lia.
Qed.

End backward_run.

(** ** Reading the rows of unit-stride partitions *)

Section reading_runs.

Lemma concat_concat {A : Type} (ll : list (list (list A))) :
  concat (concat ll) = concat (@concat A <$> ll).
Proof.
  induction ll as [|l ll IH]; [done|].
  rewrite fmap_cons. simpl. by rewrite concat_app, IH.
Qed.

Lemma read_slice_hits (st : FileStack.t) (column : string) (sli : Slice.t) :
  FileStack.read_slice st column sli
    ((λ w, Slice.find (Slice.Range w.1 w.2 1) sli) <$> windows 0 (FileStack.filesizes st))
  = (tmp ← rmap (λ fp, BaseFile.read fp.1 column fp.2.1) (hits_from 0 (FileStack.files st) sli);
     match tmp with
     | [] => Ok []
     | _ :: _ =>
         if Slice.is_array sli then
           sorted ← rmap (item (concat tmp))
                      (argsort (concat (Slice.to_array <$>
                         ((λ fp, fp.2.2) <$> hits_from 0 (FileStack.files st) sli))));
           Ok [sorted]
         else
           starts ← rmap Slice.idx_start
                      ((λ fp, fp.2.2) <$> hits_from 0 (FileStack.files st) sli);
           rmap (item tmp) (argsort starts)
     end).
Proof. done. Qed.

Lemma read_slice_run (st : FileStack.t) (column : string) (sli : Slice.t) (vs : list Z) :
  Forall (λ f, 0 ≤ BaseFile.csize f) (FileStack.files st) →
  unit_run sli →
  Forall2 (λ p v, table_cell (FileStack.files st) column p = Some v)
    (Slice.to_array sli) vs →
  ∃ pieces,
    FileStack.read_slice st column sli
      ((λ w, Slice.find (Slice.Range w.1 w.2 1) sli)
         <$> windows 0 (FileStack.filesizes st)) = Ok pieces
    ∧ concat pieces = vs.
Proof.
  intros Hfs (Harr & a & d & n & Hd & Hn & Hto) Hcells.
  rewrite Hto in Hcells.
  assert (∀ p, p ∈ progression a d n →
               0 ≤ p < sumZ (BaseFile.csize <$> FileStack.files st)) as Hin.
  { intros p Hp. apply list_elem_of_lookup in Hp as [i Hi].
    destruct (Forall2_lookup_l _ _ _ _ _ Hcells Hi) as (v & _ & Hv).
    by eapply table_cell_bounds. }
  assert (1 ≤ n → 0 ≤ a < sumZ (BaseFile.csize <$> FileStack.files st)) as Hfirst.
  { intros H1. apply Hin, elem_of_progression. exists 0. lia. }
  assert (1 ≤ n → 0 ≤ a + (n - 1) * d < sumZ (BaseFile.csize <$> FileStack.files st)) as Hlast.
  { intros H1. apply Hin, elem_of_progression. exists (n - 1). lia. }
  rewrite read_slice_hits, Harr.
  destruct Hd as [-> | ->].
  - destruct (hits_forward column sli a n Harr Hto Hn (FileStack.files st) 0 vs Hfs)
      as (tmp & starts & Ht & Hs & Hlen & Hcat & Hsort & _).
    { destruct (decide (1 ≤ n)).
      - replace (a + Z.max 0 (0 - a)) with a by lia.
        replace (Z.min n (0 + _ - a) - Z.max 0 (0 - a)) with n by lia.
        eapply Forall2_impl; [exact Hcells|]. intros p v <-. f_equal. lia.
      - rewrite progression_nil in Hcells by lia.
        apply Forall2_nil_inv_l in Hcells as ->.
        rewrite progression_nil by lia. constructor. }
    rewrite Ht, Hs. simpl. destruct tmp as [|t tmp].
    + exists []. done.
    + rewrite argsort_ascending, Hlen by done.
      exists (t :: tmp). split; [|done]. apply rmap_item_identity.
  - destruct (hits_backward column sli a n Harr Hto Hn (FileStack.files st) 0 vs Hfs)
      as (tmp & starts & Ht & Hs & Hlen & Hcat & Hsort & _).
    { destruct (decide (1 ≤ n)).
      - replace (a - Z.max 0 (a - (0 + _ - 1))) with a by lia.
        replace (Z.min n (a - 0 + 1) - Z.max 0 (a - (0 + _ - 1))) with n by lia.
        eapply Forall2_impl; [exact Hcells|]. intros p v <-. f_equal. lia.
      - rewrite progression_nil in Hcells by lia.
        apply Forall2_nil_inv_l in Hcells as ->.
        rewrite progression_nil by lia. constructor. }
    rewrite Ht, Hs. simpl. destruct tmp as [|t tmp].
    + exists []. done.
    + rewrite argsort_descending, Hlen by done.
      exists (reverse (t :: tmp)). split; [|done]. apply rmap_item_reverse.
Qed.

Lemma read_runs (st : FileStack.t) (column : string) (vss : list (list Z)) :
  Forall (λ f, 0 ≤ BaseFile.csize f) (FileStack.files st) →
  Forall2 (λ sli vs,
             unit_run sli
             ∧ Forall2 (λ p v, table_cell (FileStack.files st) column p = Some v)
                 (Slice.to_array sli) vs)
    (FileStack.slices st) vss →
  concat vss ≠ [] →
  FileStack.read st column = Ok (concat vss).
Proof.
  intros Hfs Hruns Hne. unfold FileStack.read.
  rewrite fileslices_windows, rmap_zip_fmap. cbn [fst snd].
  assert (∃ toret,
    rmap (λ sli, FileStack.read_slice st column sli
                   ((λ w, Slice.find (Slice.Range w.1 w.2 1) sli)
                      <$> windows 0 (FileStack.filesizes st)))
         (FileStack.slices st) = Ok toret
    ∧ @concat Z <$> toret = vss) as (toret & -> & <-).
  { clear Hne.
    induction Hruns as [|sli vs sls vss [Hrun Hcells] _ (toret & IH1 & IH2)].
    - by exists [].
    - destruct (read_slice_run st column sli vs Hfs Hrun Hcells) as (pieces & Hp & Hc).
      exists (pieces :: toret). rewrite rmap_cons, Hp, IH1, fmap_cons, Hc, IH2. done. }
  simpl. rewrite <- concat_concat in *.
  unfold concatenate. by destruct (concat toret).
Qed.

End reading_runs.

(** ** Reading a column a shard lacks *)

Section missing_column.





End missing_column.




(** ** Reslicing the default partitions backwards *)

Section backward_pieces.

Lemma size_unit_range (a b : Z) : a ≤ b → Slice.size (Slice.Range a b 1) = b - a.
Proof.
  intros Hab. unfold Slice.size. simpl. rewrite range_list_unit by done.
  rewrite length_seqZ. lia.
Qed.

Lemma to_array_backward (a b : Z) :
  b ≤ a → Slice.to_array (Slice.Range a b (-1)) = progression a (-1) (a - b).
Proof.
  intros Hab. simpl. rewrite <- range_list_progression by lia. f_equal. lia.
Qed.

(** The part of the rows [H, H-1, ..., B+1] held by the unit range
    over [[off, off + c)], as [cslice] computes it. *)
Lemma slice_backward (off c H B : Z) :
  0 ≤ c → B ≤ H →
  let x := Slice.clamp (-1) (c - 1) (H - off) in
  let y := Slice.clamp (-1) (c - 1) (B - off) in
  Slice.slice (Slice.Range off (off + c) 1)
              (Slice.shift (Slice.Range H B (-1)) (- off))
  = Slice.Range (off + x * 1) (off + y * 1) (1 * -1).
Proof.
  intros Hc HB x y. unfold Slice.slice, Slice.shift.
  rewrite size_unit_range by lia. replace (off + c - off) with c by lia.
  unfold Slice.with_size. simpl (0 <? -1). cbv iota.
  replace (H + - off) with (H - off) by lia.
  replace (B + - off) with (B - off) by lia. done.
Qed.

Lemma pieces_backward (H B : Z) (sizes : list Z) :
  B ≤ H →
  ∀ off,
    Forall (λ c, 0 ≤ c) sizes →
    let pieces :=
      FileStack.cslice_pieces (Slice.Range H B (-1)) off
        ((λ w, Slice.Range w.1 w.2 1) <$> windows off sizes) in
    Forall (λ p, Slice.nonempty p = true) pieces
    ∧ concat (Slice.to_array <$> reverse pieces)
      = progression (Z.min H (off + sumZ sizes - 1)) (-1)
          (Z.min H (off + sumZ sizes - 1) - Z.max B (off - 1)).
Proof.
  intros HB. induction sizes as [|c sizes IH]; intros off Hsizes.
  - simpl. split; [constructor|]. rewrite progression_nil; [done|lia].
  - apply Forall_cons in Hsizes as [Hc Hsizes].
    pose proof (sumZ_nonneg sizes Hsizes) as HS.
    destruct (IH (off + c) Hsizes) as [IHne IHcat]. clear IH.
    cbn [windows fmap list_fmap FileStack.cslice_pieces fst snd].
    change (list_fmap _ _ ?f ?l) with (f <$> l) in *.
    rewrite slice_backward by done.
    rewrite size_unit_range by lia.
    replace (off + (off + c - off)) with (off + c) by lia.
    set (x := Slice.clamp (-1) (c - 1) (H - off)).
    set (y := Slice.clamp (-1) (c - 1) (B - off)).
    assert (Slice.to_array (Slice.Range (off + x * 1) (off + y * 1) (1 * -1))
            = progression (off + x) (-1) (x - y)) as Hrun.
    { change (1 * -1) with (-1). rewrite !Z.mul_1_r.
      rewrite to_array_backward by (unfold x, y, Slice.clamp; lia). f_equal. lia. }
    assert (Slice.nonempty (Slice.Range (off + x * 1) (off + y * 1) (1 * -1))
            = (0 <? x - y)) as Hne.
    { unfold Slice.nonempty, Slice.size. rewrite Hrun, length_progression.
      destruct (Z.ltb_spec 0 (x - y)), (Z.ltb_spec 0 (Z.of_nat (Z.to_nat (x - y)))); lia. }
    rewrite Hne, sumZ_cons.
    replace (off + c + sumZ sizes - 1) with (off + (c + sumZ sizes) - 1) in IHcat by lia.
    set (T := Z.min H (off + (c + sumZ sizes) - 1)) in *.
    assert (progression T (-1) (T - Z.max B (off - 1))
            = progression T (-1) (T - Z.max B (off + c - 1))
              ++ progression (off + x) (-1) (x - y)) as Hsplit.
    { rewrite (progression_max _ _ (T - Z.max B (off - 1))).
      rewrite (progression_max _ _ (T - Z.max B (off + c - 1))).
      replace (Z.max 0 (T - Z.max B (off - 1)))
        with (Z.max 0 (T - Z.max B (off + c - 1)) + (x - y))
        by (unfold T, x, y, Slice.clamp; lia).
      rewrite progression_app by (unfold T, x, y, Slice.clamp; lia). f_equal.
      destruct (decide (x - y ≤ 0)).
      - by rewrite !progression_nil by lia.
      - f_equal. unfold T, x, y, Slice.clamp in *. lia. }
    rewrite Hsplit, <- IHcat.
    destruct (Z.ltb_spec 0 (x - y)).
    + split; [by constructor|].
      rewrite <- app_comm_cons, app_nil_l, reverse_cons, fmap_app, concat_app.
      f_equal. rewrite fmap_cons, fmap_nil. cbn [concat].
      by rewrite Hrun, app_nil_r.
    + split; [done|]. rewrite app_nil_l, progression_nil, app_nil_r by lia. done.
Qed.

End backward_pieces.

(** ** Coalescing the pieces of a run *)

Section snap_facts.

Lemma progression_split (l1 l2 : list Z) (a d n : Z) :
  l1 ++ l2 = progression a d n →
  l1 = progression a d (Z.of_nat (length l1))
  ∧ l2 = progression (a + Z.of_nat (length l1) * d) d (n - Z.of_nat (length l1))
  ∧ Z.of_nat (length l1) ≤ Z.max 0 n.
Proof.
  intros Happ.
  assert (Z.of_nat (length l1) ≤ Z.max 0 n) as Hk.
  { pose proof (f_equal length Happ) as Hlen.
    rewrite length_app, length_progression in Hlen. lia. }
  rewrite progression_max in Happ.
  replace (Z.max 0 n) with (Z.of_nat (length l1) + (Z.max 0 n - Z.of_nat (length l1)))
    in Happ by lia.
  rewrite progression_app in Happ by lia.
  apply app_inj_1 in Happ as [H1 H2].
  - split; [done|]. split; [|done]. rewrite H2.
    destruct (decide (0 ≤ n)).
    + f_equal. lia.
    + rewrite !progression_nil by lia. done.
  - rewrite length_progression. lia.
Qed.

Lemma snap_progression (pieces : list Slice.t) :
  ∀ a d n,
    d ≠ 0 → 1 ≤ n →
    Forall (λ p, Slice.nonempty p = true) pieces →
    concat (Slice.to_array <$> pieces) = progression a d n →
    Slice.snap pieces = [Slice.pack false (progression a d n)].
Proof.
  induction pieces as [|p rest IH]; intros a d n Hd Hn Hne Hcat.
  - simpl in Hcat. rewrite progression_cons in Hcat by lia. done.
  - apply Forall_cons in Hne as [Hp Hrest].
    rewrite fmap_cons in Hcat. cbn [concat] in Hcat.
    apply progression_split in Hcat as (H1 & H2 & Hmax).
    set (k := Z.of_nat (length (Slice.to_array p))) in *.
    assert (1 ≤ k) as Hk.
    { unfold Slice.nonempty, Slice.size in Hp. fold k in Hp. lia. }
    cbn [Slice.snap]. destruct rest as [|q rest].
    + simpl in H2. cbn [Slice.snap].
      assert (n - k ≤ 0) as Hnk.
      { destruct (decide (n - k ≤ 0)); [done|].
        rewrite progression_cons in H2 by lia. done. }
      rewrite H1. do 3 f_equal. lia.
    + assert (1 ≤ n - k) as Hnk.
      { destruct (decide (1 ≤ n - k)); [done|].
        rewrite (progression_nil _ _ (n - k)) in H2 by lia.
        apply Forall_cons in Hrest as [Hq _].
        unfold Slice.nonempty, Slice.size in Hq.
        rewrite fmap_cons in H2. cbn [concat] in H2.
        apply app_eq_nil in H2 as [Hq0 _]. rewrite Hq0 in Hq. done. }
      rewrite (IH (a + k * d) d (n - k)) by done.
      rewrite pack_to_array, H1.
      replace (progression a d k ++ progression (a + k * d) d (n - k))
        with (progression a d n).
      * rewrite to_range_progression by lia.
        rewrite pack_progression by lia.
        destruct (Z.eqb_spec n 1); [lia|done].
      * replace n with (k + (n - k)) at 1 by lia.
        by rewrite progression_app by lia.
Qed.

End snap_facts.

(** ** The default partitions of all ranks *)

Section default_world_facts.

Context (P N : Z).
Hypothesis HP : 1 ≤ P.
Hypothesis HN : 0 ≤ N.

Lemma edge_nonneg (q : Z) : 0 ≤ q → 0 ≤ q * N / P.
Proof. intros Hq. apply Z.div_pos; lia. Qed.

Lemma edge_le (q : Z) : 0 ≤ q ≤ P → q * N / P ≤ N.
Proof.
  intros Hq. transitivity (P * N / P).
  - apply Z.div_le_mono; [lia|]. apply Z.mul_le_mono_nonneg_r; lia.
  - rewrite Z.mul_comm, Z.div_mul by lia. lia.
Qed.

Lemma default_slices_windows (k : nat) :
  ∀ q0,
    (λ q, default_slice q P N) <$> seqZ q0 (Z.of_nat k)
    = (λ w, Slice.Range w.1 w.2 1)
        <$> windows (q0 * N / P)
              ((λ q, (q + 1) * N / P - q * N / P) <$> seqZ q0 (Z.of_nat k)).
Proof.
  induction k as [|k IH]; intros q0; [done|].
  rewrite seqZ_S by lia. replace (Z.of_nat (S k) - 1) with (Z.of_nat k) by lia.
  rewrite !fmap_cons. cbn [windows]. rewrite fmap_cons. cbn [fst snd].
  replace (q0 * N / P + ((q0 + 1) * N / P - q0 * N / P)) with ((q0 + 1) * N / P) by lia.
  f_equal. apply IH.
Qed.

Lemma default_sizes_sum :
  sumZ ((λ q, (q + 1) * N / P - q * N / P) <$> seqZ 0 P) = N.
Proof.
  pose proof (sumZ_telescope (λ q, q * N / P) (Z.to_nat P)) as Ht.
  cbv beta in Ht. rewrite Z2Nat.id in Ht by lia. rewrite Ht.
  rewrite Z.mul_0_l, Z.div_0_l, Z.sub_0_r by lia.
  rewrite Z.mul_comm. apply Z.div_mul. lia.
Qed.

Lemma concat_default_world :
  concat (default_world P N) = (λ q, default_slice q P N) <$> seqZ 0 P.
Proof.
  unfold default_world. induction (seqZ 0 P) as [|q l IH]; [done|].
  rewrite !fmap_cons. simpl. by rewrite IH.
Qed.

Lemma default_world_csize :
  sumZ ((λ sl, sumZ (Slice.size <$> sl)) <$> default_world P N) = N.
Proof.
  rewrite <- default_sizes_sum at 2. f_equal.
  unfold default_world. rewrite <- list_fmap_compose.
  apply list_fmap_ext. intros i q Hq. simpl.
  apply list_elem_of_lookup_2, elem_of_seqZ in Hq.
  unfold default_slice. rewrite size_unit_range; [lia|].
  apply floor_step_mono; lia.
Qed.

Lemma default_world_ranges :
  existsb Slice.is_array (concat (default_world P N)) = false.
Proof.
  rewrite concat_default_world. induction (seqZ 0 P) as [|q l IH]; [done|].
  rewrite fmap_cons. simpl. exact IH.
Qed.

Lemma itemZ_fmap_seqZ {B : Type} (g : Z → B) (r : Z) :
  0 ≤ r < P → itemZ (g <$> seqZ 0 P) r = Ok (g r).
Proof.
  intros Hr. unfold itemZ, item. destruct (Z.leb_spec 0 r); [|lia].
  rewrite list_lookup_fmap, lookup_seqZ_lt by lia. simpl. do 2 f_equal. lia.
Qed.

(** The partition [cslice(N-1, -1, -1)] gives rank [r] from the
    default partitions: its share of the rows, backwards. *)
Lemma cslice_backward (st : FileStack.t) :
  let r := MPIComm.rank (FileStack.mpicomm st) in
  MPIComm.size (FileStack.mpicomm st) = P →
  0 ≤ r < P → r * N / P < (r + 1) * N / P →
  FileStack.cslice st (default_world P N) (N - 1) (-1) (-1)
  = Ok (FileStack.set_slices st
          (Some [Slice.pack false
                   (progression (N - 1 - r * N / P) (-1)
                      ((r + 1) * N / P - r * N / P))])).
Proof.
  intros r HPsize Hr Hshare. unfold FileStack.cslice.
  rewrite default_world_csize, HPsize. fold r.
  assert (Slice.make (N - 1) (-1) (-1) (Some N) = Ok (Slice.Range (N - 1) (-1) (-1))) as ->.
  { unfold Slice.make, Slice.clamp. simpl. do 2 f_equal; lia. }
  cbn [mbind result_bind].
  assert (Slice.size (Slice.Range (N - 1) (-1) (-1)) = N) as Hsize.
  { unfold Slice.size. rewrite to_array_backward, length_progression by lia. lia. }
  unfold Slice.split. rewrite Hsize, itemZ_fmap_seqZ by done.
  cbn [mbind result_bind Slice.is_array orb Slice.idx_step].
  rewrite default_world_ranges. change (-1 <? 0) with true. cbv iota.
  rewrite concat_default_world.
  pose proof (default_slices_windows (Z.to_nat P) 0) as Hw.
  rewrite Z2Nat.id, Z.mul_0_l, Z.div_0_l in Hw by lia. rewrite Hw.
  pose proof (edge_nonneg r) as Hlo. pose proof (edge_le (r + 1)) as Hhi.
  set (lo := r * N / P) in *. set (hi := (r + 1) * N / P) in *.
  destruct (pieces_backward (N - 1 + lo * -1) (N - 1 + hi * -1)
              ((λ q, (q + 1) * N / P - q * N / P) <$> seqZ 0 P)) with (off := 0)
    as [Hne Hcat]; [lia| |].
  { apply Forall_fmap, Forall_forall. intros q Hq. simpl.
    apply elem_of_seqZ in Hq. pose proof (floor_step_mono q N P). lia. }
  rewrite default_sizes_sum in Hcat.
  do 3 f_equal. apply snap_progression; [done|lia|by apply Forall_reverse|].
  rewrite Hcat. f_equal; lia.
Qed.

(** A rank whose default share holds no row is left without a
    partition by [cslice(N-1, -1, -1)]. *)
Lemma cslice_backward_empty (st : FileStack.t) :
  let r := MPIComm.rank (FileStack.mpicomm st) in
  MPIComm.size (FileStack.mpicomm st) = P →
  0 ≤ r < P → r * N / P = (r + 1) * N / P →
  FileStack.cslice st (default_world P N) (N - 1) (-1) (-1)
  = Ok (FileStack.set_slices st (Some [])).
Proof.
  intros r HPsize Hr Hshare. unfold FileStack.cslice.
  rewrite default_world_csize, HPsize. fold r.
  assert (Slice.make (N - 1) (-1) (-1) (Some N) = Ok (Slice.Range (N - 1) (-1) (-1))) as ->.
  { unfold Slice.make, Slice.clamp. simpl. do 2 f_equal; lia. }
  cbn [mbind result_bind].
  assert (Slice.size (Slice.Range (N - 1) (-1) (-1)) = N) as Hsize.
  { unfold Slice.size. rewrite to_array_backward, length_progression by lia. lia. }
  unfold Slice.split. rewrite Hsize, itemZ_fmap_seqZ by done.
  cbn [mbind result_bind Slice.is_array orb Slice.idx_step].
  rewrite default_world_ranges. change (-1 <? 0) with true. cbv iota.
  rewrite concat_default_world.
  pose proof (default_slices_windows (Z.to_nat P) 0) as Hw.
  rewrite Z2Nat.id, Z.mul_0_l, Z.div_0_l in Hw by lia. rewrite Hw.
  pose proof (edge_nonneg r) as Hlo. pose proof (edge_le (r + 1)) as Hhi.
  rewrite <- Hshare.
  set (lo := r * N / P) in *.
  destruct (pieces_backward (N - 1 + lo * -1) (N - 1 + lo * -1)
              ((λ q, (q + 1) * N / P - q * N / P) <$> seqZ 0 P)) with (off := 0)
    as [Hne Hcat]; [lia| |].
  { apply Forall_fmap, Forall_forall. intros q Hq. simpl.
    apply elem_of_seqZ in Hq. pose proof (floor_step_mono q N P). lia. }
  rewrite progression_nil in Hcat by lia.
  destruct (FileStack.cslice_pieces _ 0 _) as [|p pieces]; [done|].
  exfalso. apply Forall_cons in Hne as [Hp _].
  rewrite reverse_cons, fmap_app, concat_app in Hcat.
  apply app_eq_nil in Hcat as [_ Hcat]. simpl in Hcat. rewrite app_nil_r in Hcat.
  unfold Slice.nonempty, Slice.size in Hp. rewrite Hcat in Hp. done.
Qed.

End default_world_facts.

(** ** Reading a share of the table, forwards and backwards *)

Section shares.

Lemma whole_nonneg (column : string) (fs : list BaseFile.t) :
  Forall (whole column) fs → Forall (λ f, 0 ≤ BaseFile.csize f) fs.
Proof.
  intros H. eapply Forall_impl; [exact H|]. intros f (_ & col & _ & Hlen). simpl. lia.
Qed.

Lemma length_table (column : string) (fs : list BaseFile.t) :
  Forall (whole column) fs →
  Z.of_nat (length (table fs column)) = sumZ (BaseFile.csize <$> fs).
Proof.
  unfold table. induction 1 as [|f fs (_ & col & Hcol & Hlen) _ IH]; [done|].
  rewrite bind_cons, length_app, fmap_cons, sumZ_cons, Hcol. simpl. lia.
Qed.

Lemma table_cell_table (column : string) (fs : list BaseFile.t) :
  Forall (whole column) fs →
  ∀ p, 0 ≤ p → table_cell fs column p = table fs column !! Z.to_nat p.
Proof.
  unfold table. induction 1 as [|f fs (Hr & col & Hcol & Hlen) _ IH]; intros p Hp; [done|].
  rewrite bind_cons, Hcol. simpl default.
  destruct (decide (p < BaseFile.csize f)).
  - rewrite table_cell_here by done.
    rewrite (file_cell_intro f column col p Hr Hcol) by lia.
    by rewrite lookup_app_l by lia.
  - rewrite table_cell_there, IH by lia. rewrite lookup_app_r by lia.
    f_equal. lia.
Qed.

Lemma cells_forward (column : string) (fs : list BaseFile.t) (lo n : Z) :
  Forall (whole column) fs →
  0 ≤ lo → 0 ≤ n → lo + n ≤ sumZ (BaseFile.csize <$> fs) →
  Forall2 (λ p v, table_cell fs column p = Some v)
    (progression lo 1 n)
    (take (Z.to_nat n) (drop (Z.to_nat lo) (table fs column))).
Proof.
  intros Hw Hlo Hn Hhi. pose proof (length_table column fs Hw) as Hlen.
  apply Forall2_same_length_lookup_2.
  - rewrite length_progression, length_take, length_drop. lia.
  - intros i p v Hp Hv. rewrite progression_unit in Hp.
    apply lookup_seqZ in Hp as [-> Hi].
    rewrite table_cell_table by (done || lia).
    rewrite lookup_take_Some in Hv. destruct Hv as [Hv _].
    rewrite lookup_drop in Hv. rewrite <- Hv. f_equal. lia.
Qed.

Lemma cells_backward (column : string) (fs : list BaseFile.t) (lo n : Z) :
  Forall (whole column) fs →
  0 ≤ lo → 0 ≤ n → lo + n ≤ sumZ (BaseFile.csize <$> fs) →
  Forall2 (λ p v, table_cell fs column p = Some v)
    (progression (sumZ (BaseFile.csize <$> fs) - 1 - lo) (-1) n)
    (take (Z.to_nat n) (drop (Z.to_nat lo) (reverse (table fs column)))).
Proof.
  intros Hw Hlo Hn Hhi. pose proof (length_table column fs Hw) as Hlen.
  apply Forall2_same_length_lookup_2.
  - rewrite length_progression, length_take, length_drop, length_reverse. lia.
  - intros i p v Hp Hv. unfold progression in Hp.
    rewrite list_lookup_fmap in Hp.
    destruct (seqZ 0 n !! i) as [j|] eqn:Hj; [|done].
    apply lookup_seqZ in Hj as [-> Hi]. simpl in Hp. injection Hp as <-.
    rewrite table_cell_table by (done || lia).
    rewrite lookup_take_Some in Hv. destruct Hv as [Hv _].
    rewrite lookup_drop, reverse_lookup in Hv by lia.
    rewrite <- Hv. f_equal. lia.
Qed.

End shares.

Lemma read_shares (st : FileStack.t) (column : string) :
  let P := MPIComm.size (FileStack.mpicomm st) in
  let r := MPIComm.rank (FileStack.mpicomm st) in
  let N := FileStack.cfilesize st in
  FileStack._slices st = None →
  Forall (whole column) (FileStack.files st) →
  1 ≤ P → 0 ≤ r < P → r * N / P < (r + 1) * N / P →
  FileStack.read st column = Ok (share P N r (table (FileStack.files st) column))
  ∧ read_reversed st column
    = Ok (share P N r (reverse (table (FileStack.files st) column))).
Proof.
  intros P r N Hnone Hwhole HP Hr Hshare.
  pose proof (whole_nonneg column _ Hwhole) as Hfs.
  assert (0 ≤ N) as HN.
  { unfold N, FileStack.cfilesize, FileStack.filesizes. by apply sumZ_nonneg, Forall_fmap. }
  pose proof (edge_nonneg P N HP HN r) as Hlo.
  pose proof (edge_le P N HP HN (r + 1)) as Hhi.
  set (lo := r * N / P) in *. set (hi := (r + 1) * N / P) in *.
  assert (∀ l : list Z, length l = Z.to_nat (hi - lo) → [l] ≠ [] ∧ concat [l] ≠ []) as Hne.
  { intros l Hl. split; [done|]. simpl. rewrite app_nil_r. destruct l; [simpl in Hl; lia|done]. }
  split.
  - replace (share P N r (table (FileStack.files st) column))
      with (concat [share P N r (table (FileStack.files st) column)])
      by (simpl; apply app_nil_r).
    apply read_runs; [done| |].
    + unfold FileStack.slices. rewrite Hnone. fold P r N.
      constructor; [|constructor]. unfold default_slice. fold lo hi. split.
      * split; [done|]. exists lo, 1, (hi - lo). split; [by left|]. split; [lia|].
        simpl. rewrite range_list_unit by lia. by rewrite progression_unit.
      * simpl Slice.to_array. rewrite range_list_unit, <- progression_unit by lia.
        apply cells_forward; try done; try lia.
        unfold N, FileStack.cfilesize, FileStack.filesizes in Hhi. lia.
    + apply Hne. unfold share. fold lo hi.
      pose proof (length_table column _ Hwhole).
      rewrite length_take, length_drop.
      unfold N, FileStack.cfilesize, FileStack.filesizes in Hhi. lia.
  - unfold read_reversed. fold P N.
    rewrite (cslice_backward P N HP HN st) by done. fold r lo hi.
    cbn [mbind result_bind].
    replace (share P N r (reverse (table (FileStack.files st) column)))
      with (concat [share P N r (reverse (table (FileStack.files st) column))])
      by (simpl; apply app_nil_r).
    apply read_runs; [done| |].
    + unfold FileStack.slices. cbn [FileStack.set_slices FileStack._slices FileStack.files].
      constructor; [|constructor]. split.
      * split.
        -- rewrite pack_progression by lia. by destruct (hi - lo =? 1).
        -- exists (N - 1 - lo), (-1), (hi - lo). split; [by right|]. split; [lia|].
           apply pack_to_array.
      * rewrite pack_to_array.
        apply cells_backward; try done; try lia.
        unfold N, FileStack.cfilesize, FileStack.filesizes in Hhi. lia.
    + apply Hne. unfold share. fold lo hi.
      pose proof (length_table column _ Hwhole).
      rewrite length_take, length_drop, length_reverse.
      unfold N, FileStack.cfilesize, FileStack.filesizes in Hhi. lia.
Qed.

Lemma share_single {A : Type} (N : Z) (l : list A) :
  Z.of_nat (length l) = N → share 1 N 0 l = l.
Proof.
  intros Hl. unfold share. rewrite !Z.div_1_r.
  replace (Z.to_nat (0 * N)) with 0%nat by lia.
  rewrite drop_0. apply take_ge. lia.
Qed.

Lemma shares_prefix {A : Type} (P N : Z) (l : list A) (k : nat) :
  1 ≤ P → 0 ≤ N →
  concat ((λ r, share P N r l) <$> seqZ 0 (Z.of_nat k))
  = take (Z.to_nat (Z.of_nat k * N / P)) l.
Proof.
  intros HP HN. induction k as [|k IH].
  - simpl. by rewrite Z.div_0_l by lia.
  - replace (Z.of_nat (S k)) with (Z.of_nat k + 1) by lia.
    rewrite seqZ_app, fmap_app, concat_app, IH by lia.
    change (seqZ (0 + Z.of_nat k) 1) with [0 + Z.of_nat k].
    rewrite fmap_cons, fmap_nil, Z.add_0_l. cbn [concat]. rewrite app_nil_r.
    unfold share. rewrite take_take_drop. f_equal.
    pose proof (edge_nonneg P N HP HN (Z.of_nat k)).
    pose proof (floor_step_mono (Z.of_nat k) N P). lia.
Qed.

(** The shares of the ranks, laid end to end in rank order, make up
    the list. *)
Lemma shares_cover {A : Type} (P N : Z) (l : list A) :
  1 ≤ P → Z.of_nat (length l) = N →
  concat ((λ r, share P N r l) <$> seqZ 0 P) = l.
Proof.
  intros HP Hl.
  replace (seqZ 0 P) with (seqZ 0 (Z.of_nat (Z.to_nat P))) by (f_equal; lia).
  rewrite shares_prefix, Z2Nat.id by lia.
  rewrite Z.mul_comm, Z.div_mul by lia. apply take_ge. lia.
Qed.

(** C2 where the code departs from it: on [P] ranks that hold the
    default partitions of [N] rows, a rank whose share
    [[floor(r*N/P), floor((r+1)*N/P))] is empty, and so every rank when
    [N = 0], gets no array from [read], before as after
    [cslice(N-1, -1, -1)]: both reads raise at [toret[0]], where the
    reverse of an empty read was expected. *)
Theorem reversed_read_no_rows_raises (st : FileStack.t) (column : string) :
  let P := MPIComm.size (FileStack.mpicomm st) in
  let r := MPIComm.rank (FileStack.mpicomm st) in
  let N := FileStack.cfilesize st in
  FileStack._slices st = None →
  1 ≤ P → 0 ≤ r < P → 0 ≤ N →
  (r * N / P = (r + 1) * N / P →
   FileStack.read st column = Raise IndexError
   ∧ read_reversed st column = Raise IndexError)
  ∧ (N = 0 →
     FileStack.read st column = Raise IndexError
     ∧ read_reversed st column = Raise IndexError).
Proof.
  intros P r N Hnone HP Hr HN.
  assert (r * N / P = (r + 1) * N / P →
          FileStack.read st column = Raise IndexError
          ∧ read_reversed st column = Raise IndexError) as Hempty.
  { intros Hshare. split.
    - apply read_no_rows. unfold FileStack.slices. rewrite Hnone. fold P r N.
      repeat constructor. unfold default_slice. rewrite Hshare.
      rewrite size_unit_range; lia.
    - unfold read_reversed. fold P N.
      rewrite (cslice_backward_empty P N HP HN st) by done.
      cbn [mbind result_bind]. apply read_no_rows. constructor. }
  split; [exact Hempty|].
  intros HN0. apply Hempty. by rewrite HN0, !Z.mul_0_r.
Qed.

Lemma reversed_read_no_rows_raises_witness :
  (FileStack.read (stack_of [shard_empty] 1 0) "X" = Raise IndexError
   ∧ read_reversed (stack_of [shard_empty] 1 0) "X" = Raise IndexError)
  ∧ (FileStack.read (stack_of [shard_xy; shard_x] 8 0) "X" = Raise IndexError
     ∧ read_reversed (stack_of [shard_xy; shard_x] 8 0) "X" = Raise IndexError).
Proof.
  split.
  - apply (proj2 (reversed_read_no_rows_raises (stack_of [shard_empty] 1 0) "X"
                    eq_refl ltac:(simpl; lia) ltac:(simpl; lia) ltac:(vm_compute; discriminate))).
    reflexivity.
  - apply (proj1 (reversed_read_no_rows_raises (stack_of [shard_xy; shard_x] 8 0) "X"
                    eq_refl ltac:(simpl; lia) ltac:(simpl; lia) ltac:(vm_compute; discriminate))).
    reflexivity.
Defined.

Lemma whole_shards : Forall (whole "X") [shard_xy; shard_x].
Proof.
  constructor; [|constructor; [|constructor]];
    (split; [by eexists|eexists; split; [by vm_compute|done]]).
Qed.

Lemma share_nonempty (P N r : Z) :
  1 ≤ P → P ≤ N → 0 ≤ r → r * N / P < (r + 1) * N / P.
Proof.
  intros HP HN Hr.
  assert (r * N / P + 1 ≤ (r + 1) * N / P); [|lia].
  rewrite <- (Z.div_add (r * N) 1 P) by lia.
  apply Z.div_le_mono; lia.
Qed.

(** When every rank has a row ([P <= N]), the reads of the ranks after
    [cslice(N-1, -1, -1)], laid end to end in rank order, are the
    reverse of the reads before it laid end to end. *)
Lemma reversed_read_gathered (fs : list BaseFile.t) (column : string) (P : Z) :
  1 ≤ P → P ≤ sumZ (BaseFile.csize <$> fs) → Forall (whole column) fs →
  ∃ parts rparts,
    rmap (λ r, FileStack.read (stack_of fs P r) column) (seqZ 0 P) = Ok parts
    ∧ rmap (λ r, read_reversed (stack_of fs P r) column) (seqZ 0 P) = Ok rparts
    ∧ concat rparts = reverse (concat parts).
Proof.
  intros HP HN Hwhole. set (N := sumZ (BaseFile.csize <$> fs)) in *.
  pose proof (length_table column fs Hwhole) as Hlen. fold N in Hlen.
  exists ((λ r, share P N r (table fs column)) <$> seqZ 0 P),
         ((λ r, share P N r (reverse (table fs column))) <$> seqZ 0 P).
  assert (∀ r, r ∈ seqZ 0 P →
            FileStack.read (stack_of fs P r) column = Ok (share P N r (table fs column))
            ∧ read_reversed (stack_of fs P r) column
              = Ok (share P N r (reverse (table fs column)))) as Hranks.
  { intros r Hr. apply elem_of_seqZ in Hr.
    apply (read_shares (stack_of fs P r) column); simpl; try done; try lia.
    change (FileStack.cfilesize (stack_of fs P r)) with N.
    apply share_nonempty; lia. }
  split; [|split].
  - apply rmap_ok, Forall_forall. intros r Hr. by apply Hranks.
  - apply rmap_ok, Forall_forall. intros r Hr. by apply Hranks.
  - rewrite !shares_cover; [done|lia|done|lia|].
    by rewrite length_reverse.
Qed.

Lemma reversed_read_gathered_witness :
  ∃ parts rparts,
    rmap (λ r, FileStack.read (stack_of [shard_xy; shard_x] 2 r) "X") (seqZ 0 2) = Ok parts
    ∧ rmap (λ r, read_reversed (stack_of [shard_xy; shard_x] 2 r) "X") (seqZ 0 2) = Ok rparts
    ∧ concat rparts = reverse (concat parts).
Proof.
  apply (reversed_read_gathered [shard_xy; shard_x] "X" 2).
  - lia.
  - simpl. lia.
  - exact whole_shards.
Defined.

(** * Further properties *)

Section registry_facts.

Lemma dict_set_keys {V : Type} (d : list (string * V)) (k : string) (v : V) (key : V → string) :
  key v = k → Forall (λ kv, kv.1 = key kv.2) d →
  Forall (λ kv, kv.1 = key kv.2) (dict_set d k v).
Proof.
  intros Hk. induction 1 as [|kv d Hkv Hd IH]; cbn [dict_set].
  - by constructor.
  - case_bool_decide; constructor; auto.
Qed.

Lemma registered_snoc (classes : list FileType) (cls : FileType) :
  registered (classes ++ [cls]) = register (registered classes) cls.
Proof. unfold registered. by rewrite foldl_app. Qed.

Lemma registered_keys (classes : list FileType) :
  Forall (λ kv, kv.1 = name kv.2) (registered classes).
Proof.
  induction classes as [|cls classes IH] using rev_ind.
  - constructor.
  - rewrite registered_snoc. by apply dict_set_keys.
Qed.

Lemma registry_lookup_cons (kv : string * FileType) (reg : Registry) (key : string) :
  registry_lookup (kv :: reg) key
  = if bool_decide (kv.1 = key) then Ok kv.2 else registry_lookup reg key.
Proof.
  unfold registry_lookup. cbn [list_find].
  case_decide; case_bool_decide; try done.
  by destruct (list_find _ reg) as [[? ?]|].
Qed.

Lemma lookup_dict_set (reg : Registry) (cls : FileType) (key : string) :
  registry_lookup (register reg cls) key
  = if bool_decide (name cls = key) then Ok cls else registry_lookup reg key.
Proof.
  unfold register.
  induction reg as [|kv reg IH]; cbn [dict_set].
  - by rewrite registry_lookup_cons.
  - destruct (bool_decide (kv.1 = name cls)) eqn:Hk.
    + apply bool_decide_eq_true in Hk.
      rewrite !registry_lookup_cons. cbn [fst snd].
      repeat case_bool_decide; congruence.
    + apply bool_decide_eq_false in Hk.
      rewrite !registry_lookup_cons, IH.
      repeat case_bool_decide; congruence.
Qed.

Lemma registered_lookup (classes : list FileType) (key : string) :
  registry_lookup (registered classes) key
  = match list_find (λ ft, name ft = key) (reverse classes) with
    | Some (_, ft) => Ok ft
    | None => Raise KeyError
    end.
Proof.
  induction classes as [|cls classes IH] using rev_ind.
  - done.
  - rewrite registered_snoc, lookup_dict_set, reverse_snoc. cbn [list_find].
    case_bool_decide; case_decide; try done.
    rewrite IH. by destruct (list_find _ (reverse classes)) as [[? ?]|].
Qed.

Lemma lower_ascii_idemp (c : ascii) : lower_ascii (lower_ascii c) = lower_ascii c.
Proof. destruct c as [[] [] [] [] [] [] [] []]; by vm_compute. Qed.

Lemma lower_idemp (s : string) : lower (lower s) = lower s.
Proof.
  unfold lower. rewrite list_ascii_of_string_of_list_ascii.
  f_equal. rewrite <- list_fmap_compose. apply list_fmap_ext.
  intros _ c _. apply lower_ascii_idemp.
Qed.

Lemma io_registry_registered (fitsio h5py bigfile asdf : bool) :
  io_registry fitsio h5py bigfile asdf = registered (io_classes fitsio h5py bigfile asdf).
Proof. reflexivity. Qed.

End registry_facts.

(** A tag resolves to the class defined last under the lower-cased tag. *)
Theorem tag_lookup_last_registered (classes : list FileType) (tag : string)
    (filename : option string) :
  ascii_text tag →
  (∀ before cls after,
     classes = before ++ cls :: after →
     name cls = lower tag →
     Forall (λ ft, name ft ≠ lower tag) after →
     get_filetype (registered classes) (Some (Tag tag)) filename = Ok (Some cls))
  ∧ (Forall (λ ft, name ft ≠ lower tag) classes →
     get_filetype (registered classes) (Some (Tag tag)) filename = Raise KeyError).
Proof.
  intros _. cbn [get_filetype]. rewrite registered_lookup. split.
  - intros before cls after -> Hname Hafter.
    rewrite reverse_app, reverse_cons, <- app_assoc. cbn [app].
    assert (list_find (λ ft, name ft = lower tag) (reverse after ++ cls :: reverse before)
            = Some (length (reverse after), cls)) as ->; [|done].
    apply list_find_Some. split; [|split; [done|]].
    + by rewrite lookup_app_r, Nat.sub_diag by done.
    + intros j ft Hj Hlt. rewrite lookup_app_l in Hj by done.
      apply list_elem_of_lookup_2 in Hj.
      rewrite elem_of_reverse in Hj.
      by eapply (proj1 (Forall_forall _ _) Hafter).
  - intros Hnone.
    assert (list_find (λ ft, name ft = lower tag) (reverse classes) = None) as ->; [|done].
    apply list_find_None. by apply Forall_reverse.
Qed.

Lemma tag_lookup_last_registered_witness :
  get_filetype (io_registry true true true true) (Some (Tag "HDF5")) (Some "catalog.fits"%string)
  = Ok (Some (HDF5File true))
  ∧ get_filetype (io_registry true true true true) (Some (Tag "csv")) None = Raise KeyError.
Proof.
  assert (ascii_text "HDF5") as H1.
  { unfold ascii_text. cbn. repeat constructor. }
  assert (ascii_text "csv") as H2.
  { unfold ascii_text. cbn. repeat constructor. }
  split.
  - apply (proj1 (tag_lookup_last_registered (io_classes true true true true)
                    "HDF5" (Some "catalog.fits"%string) H1)
             [BaseFileType; FitsFile true] (HDF5File true)
             [BinaryFile; BigFile true; AsdfFile true]).
    + reflexivity.
    + reflexivity.
    + repeat constructor; by vm_compute.
  - apply (proj2 (tag_lookup_last_registered (io_classes true true true true)
                    "csv" None H2)).
    repeat constructor; by vm_compute.
Defined.

(** No tag resolves to a class whose name is not in lower case. *)
Theorem tag_lookup_lowercase_names (classes : list FileType) (cls : FileType)
    (tag : string) (filename : option string) :
  ascii_text tag →
  lower (name cls) ≠ name cls →
  get_filetype (registered classes) (Some (Tag tag)) filename ≠ Ok (Some cls).
Proof.
  intros _ Hmixed. cbn [get_filetype]. rewrite registered_lookup.
  destruct (list_find _ (reverse classes)) as [[i ft]|] eqn:Hfind; [|done].
  apply list_find_Some in Hfind as (_ & Hname & _).
  cbn. intros [= ->]. apply Hmixed. by rewrite Hname, lower_idemp.
Qed.

Lemma tag_lookup_lowercase_names_witness :
  MixedCaseFile ∈ io_classes true true true true ++ [MixedCaseFile]
  ∧ get_filetype (registered (io_classes true true true true ++ [MixedCaseFile]))
      (Some (Tag "Text")) None ≠ Ok (Some MixedCaseFile).
Proof.
  split.
  - apply elem_of_app. right. apply list_elem_of_singleton. reflexivity.
  - apply tag_lookup_lowercase_names.
    + unfold ascii_text. cbn. repeat constructor.
    + by vm_compute.
Defined.


Section extension_facts.

Lemma rfind_from_app (c : ascii) (l1 l2 : list ascii) :
  ∀ k found,
    rfind_from c k found (l1 ++ l2)
    = rfind_from c (k + Z.of_nat (length l1)) (rfind_from c k found l1) l2.
Proof.
  induction l1 as [|x l1 IH]; intros k found; cbn [app rfind_from length].
  - by rewrite Z.add_0_r.
  - rewrite IH. f_equal. lia.
Qed.

Lemma rfind_from_absent (c : ascii) (l : list ascii) :
  c ∉ l → ∀ k found, rfind_from c k found l = found.
Proof.
  induction l as [|x l IH]; intros Hc k found; cbn [rfind_from]; [done|].
  apply not_elem_of_cons in Hc as [Hx Hl].
  rewrite IH by done. destruct (Ascii.eqb_spec x c); congruence.
Qed.

Lemma rfind_from_bound (c : ascii) (l : list ascii) :
  ∀ k found, found < k → rfind_from c k found l < k + Z.of_nat (length l).
Proof.
  induction l as [|x l IH]; intros k found Hlt; cbn [rfind_from length].
  - lia.
  - specialize (IH (k + 1) (if Ascii.eqb x c then k else found)).
    destruct (Ascii.eqb x c); lia.
Qed.

Lemma rfind_from_lower (c : ascii) (l : list ascii) :
  ∀ k found, -1 ≤ found → 0 ≤ k → -1 ≤ rfind_from c k found l.
Proof.
  induction l as [|x l IH]; intros k found Hf Hk; cbn [rfind_from]; [done|].
  apply IH; [|lia]. destruct (Ascii.eqb x c); lia.
Qed.

Lemma list_ascii_of_string_app (s1 s2 : string) :
  list_ascii_of_string (s1 +:+ s2)
  = list_ascii_of_string s1 ++ list_ascii_of_string s2.
Proof. induction s1 as [|c s1 IH]; simpl; [done|]. by rewrite IH. Qed.

Lemma file_ext_suffix (stem ext : string) :
  has_stem stem → plain_ext ext → file_ext (stem +:+ "." +:+ ext) = ext.
Proof.
  intros Hstem [Hdot Hsep]. unfold file_ext, splitext_ext.
  rewrite !list_ascii_of_string_app. cbn [list_ascii_of_string app].
  set (S := list_ascii_of_string stem) in *.
  set (E := list_ascii_of_string ext) in *.
  assert (rfind "/"%char (S ++ "."%char :: E) = rfind "/"%char S) as Hs.
  { unfold rfind. rewrite rfind_from_app. apply rfind_from_absent.
    apply not_elem_of_cons. split; [done|exact Hsep]. }
  assert (rfind "."%char (S ++ "."%char :: E) = Z.of_nat (length S)) as Hd.
  { unfold rfind. rewrite rfind_from_app. cbn [rfind_from].
    rewrite rfind_from_absent by done. cbn. lia. }
  assert (-1 ≤ rfind "/"%char S < Z.of_nat (length S)) as Hb.
  { unfold rfind. split.
    - by apply rfind_from_lower.
    - apply (rfind_from_bound "/"%char S 0 (-1)). lia. }
  rewrite Hs, Hd.
  destruct (Z.ltb_spec (rfind "/"%char S) (Z.of_nat (length S))) as [_|?]; [|lia].
  assert (take (Z.to_nat (Z.of_nat (length S) - (rfind "/"%char S + 1)))
            (drop (Z.to_nat (rfind "/"%char S + 1)) (S ++ "."%char :: E))
          = basename S) as ->.
  { unfold basename. rewrite drop_app_le by lia.
    rewrite take_app_length'; [done|]. rewrite length_drop. lia. }
  unfold has_stem in Hstem. fold S in Hstem. rewrite Hstem.
  rewrite Nat2Z.id, drop_app_length. cbn [drop].
  apply string_of_list_ascii_of_string.
Qed.

End extension_facts.

(** Each class of [io.py] is found from a file name through each of the
    extensions it declares. *)
Theorem extension_lookup_reaches_class (fitsio h5py bigfile asdf : bool)
    (ft : FileType) (ext stem : string) :
  ft ∈ io_classes fitsio h5py bigfile asdf →
  ext ∈ extensions ft →
  has_stem stem →
  get_filetype (io_registry fitsio h5py bigfile asdf) None (Some (stem +:+ "." +:+ ext))
  = Ok (Some ft).
Proof.
  intros Hft Hext Hstem.
  assert (plain_ext ext) as Hplain.
  { unfold io_classes in Hft.
    repeat (apply elem_of_cons in Hft as [->|Hft]);
      [..|by apply elem_of_nil in Hft]; cbn in Hext;
      repeat (apply elem_of_cons in Hext as [->|Hext]);
      try (by apply elem_of_nil in Hext);
      (split; apply (bool_decide_unpack _); by vm_compute). }
  cbn [get_filetype]. rewrite file_ext_suffix by done.
  unfold io_classes in Hft.
  repeat (apply elem_of_cons in Hft as [->|Hft]);
    [..|by apply elem_of_nil in Hft]; cbn in Hext;
    repeat (apply elem_of_cons in Hext as [->|Hext]);
    try (by apply elem_of_nil in Hext); by vm_compute.
Qed.

Lemma extension_lookup_reaches_class_witness :
  get_filetype (io_registry true true true true) None (Some "run.1/catalog.v2.h5"%string)
  = Ok (Some (HDF5File true)).
Proof.
  apply (extension_lookup_reaches_class true true true true (HDF5File true)
           "h5" "run.1/catalog.v2").
  - unfold io_classes. repeat constructor.
  - apply (bool_decide_unpack _). by vm_compute.
  - by vm_compute.
Defined.

Lemma header_all_empty (fs : list BaseFile.t) (h : gmap string Z) :
  Forall (λ f, BaseFile.header f = ∅) fs →
  foldl (λ h file, FileStack.update h (BaseFile.header file)) h fs = h.
Proof.
  intros Hfs. revert h. induction Hfs as [|f fs Hf _ IH]; intros h; cbn [foldl]; [done|].
  rewrite IH, Hf. unfold FileStack.update. by rewrite (left_id_L ∅ (∪)).
Qed.

(** The header of a file of the five formats is empty whatever the file
    holds, and so is the header of a stack of such files; a reader
    returning its attributes under ['header'] would have them kept. *)
Theorem header_never_read (st : FileStack.t) :
  (∀ state, Header.from_reader state →
     ∀ r, Header._read_header state = Ok r →
          Header._header r = ∅ ∧ Header.attrs r = Header.k_attrs state)
  ∧ (Forall (λ f, ∃ FT fn comm state data,
                Header.from_reader state
                ∧ Header.opened FT fn comm state data = Ok f) (FileStack.files st) →
     FileStack.header st = ∅)
  ∧ (∀ csize columns h attrs ext,
       ∃ r, Header._read_header
              {| Header.k_csize := Some csize; Header.k_columns := Some (Some columns);
                 Header.k_header := Some h; Header.k_attrs := attrs;
                 Header.k_ext := ext |} = Ok r
            ∧ Header._header r = h).
Proof.
  assert (∀ state, Header.from_reader state →
            ∀ r, Header._read_header state = Ok r →
                 Header._header r = ∅ ∧ Header.attrs r = Header.k_attrs state) as Hread.
  { intros state Hst r Hr. destruct Hst; cbn in Hr;
      try (destruct names; cbn in Hr); by simplify_eq. }
  split; [exact Hread|]. split.
  - intros Hfs. unfold FileStack.header. apply header_all_empty.
    eapply Forall_impl; [exact Hfs|].
    intros f (FT & fn & comm & state & data & Hst & Hopen).
    unfold Header.opened in Hopen.
    destruct (Header._read_header state) as [r|e] eqn:Hr; cbn in Hopen; [|done].
    injection Hopen as <-. cbn. by apply (Hread state Hst r Hr).
  - intros. eexists. split; [reflexivity|done].
Qed.

Lemma header_never_read_witness :
  (∃ f, Header.opened (HDF5File true) "a.h5"
          {| MPIComm.id := 0; MPIComm.rank := 0; MPIComm.size := 1 |}
          (Header.hdf5_root 2 ["X"] {[ "z" := 7 ]}) [("X", [1; 2])] = Ok f
        ∧ FileStack.header (stack_of [f] 1 0) = ∅).
Proof.
  eexists. split; [reflexivity|].
  apply (proj1 (proj2 (header_never_read _))).
  repeat constructor.
  eexists _, _, _, _, _. split; [apply Header.from_hdf5|reflexivity].
Defined.

Section select_facts.

Lemma re_match_any (pat : list Select.Tok) (s : list ascii) :
  Select.re_match (Select.Any :: pat) s
  = Select.re_match pat s
    || match s with
       | x :: s' => negb (Ascii.eqb x Select.newline) && Select.re_match (Select.Any :: pat) s'
       | [] => false
       end.
Proof. by destruct s. Qed.

(** The segments of the text the tokens of a pattern take. *)
Lemma re_match_segments (pat : list Select.Tok) :
  ∀ s, Select.re_match pat s = true
       ↔ ∃ segs rest,
           s = concat segs ++ rest
           ∧ Forall2 (λ t seg, match t with
                               | Select.Lit c => seg = [c]
                               | Select.Any => Select.newline ∉ seg
                               end) pat segs.
Proof.
  induction pat as [|t pat IH]; intros s.
  - split; [|done]. intros _. exists [], s. split; [done|constructor].
  - destruct t as [c|].
    + cbn [Select.re_match]. destruct s as [|x s].
      * split; [done|]. intros (segs & rest & Hs & Hsegs).
        apply Forall2_cons_inv_l in Hsegs as (seg & segs' & -> & _ & ->). done.
      * rewrite andb_true_iff, IH. split.
        -- intros [Hx (segs & rest & -> & Hsegs)].
           apply Ascii.eqb_eq in Hx as ->.
           exists ([c] :: segs), rest. split; [done|by constructor].
        -- intros (segs & rest & Hs & Hsegs).
           apply Forall2_cons_inv_l in Hsegs as (seg & segs' & -> & Hsegs & ->).
           cbn in Hs. injection Hs as -> ->. split; [apply Ascii.eqb_refl|].
           by exists segs', rest.
    + induction s as [|x s IHs].
      * rewrite re_match_any, orb_false_r, IH. split.
        -- intros (segs & rest & Hs & Hsegs).
           exists ([] :: segs), rest. split; [done|]. constructor; [|done].
           apply not_elem_of_nil.
        -- intros (segs & rest & Hs & Hsegs).
           apply Forall2_cons_inv_l in Hsegs as (seg & segs' & Hseg & Hsegs & ->).
           cbn in Hs. symmetry in Hs.
           apply app_eq_nil in Hs as [Hs ->]. apply app_eq_nil in Hs as [-> Hs].
           exists segs', []. by rewrite app_nil_r.
      * rewrite re_match_any, orb_true_iff, andb_true_iff, IH, IHs. split.
        -- intros [(segs & rest & Hs & Hsegs)|[Hx (segs & rest & Hs & Hsegs)]].
           ++ exists ([] :: segs), rest. split; [done|]. constructor; [|done].
              apply not_elem_of_nil.
           ++ apply Forall2_cons_inv_l in Hsegs as (seg & segs' & Hseg & Hsegs & ->).
              exists ((x :: seg) :: segs'), rest. split.
              ** cbn. cbn in Hs. by rewrite Hs.
              ** constructor; [|done]. apply not_elem_of_cons. split; [|done].
                 intros Hnl. by rewrite <- Hnl, Ascii.eqb_refl in Hx.
        -- intros (segs & rest & Hs & Hsegs).
           apply Forall2_cons_inv_l in Hsegs as (seg & segs' & Hseg & Hsegs & ->).
           destruct seg as [|y seg].
           ++ left. by exists segs', rest.
           ++ right. cbn in Hs. injection Hs as -> ->.
              apply not_elem_of_cons in Hseg as [Hy Hseg]. split.
              ** destruct (Ascii.eqb_spec y Select.newline); [congruence|done].
              ** exists (seg :: segs'), rest. split; [done|by constructor].
Qed.

Lemma re_match_literal (name column : string) :
  ("*"%char ∉ list_ascii_of_string name) →
  Select.re_match (Select.toregex name) (list_ascii_of_string column) = true
  ↔ starts_with name column.
Proof.
  unfold starts_with, Select.toregex.
  generalize (list_ascii_of_string column) as s.
  induction (list_ascii_of_string name) as [|c n IH]; intros s Hstar.
  - split; [|done]. intros _. apply prefix_nil.
  - apply not_elem_of_cons in Hstar as [Hc Hn]. rewrite fmap_cons.
    destruct (Ascii.eqb_spec c "*"%char) as [->|_]; [done|].
    cbn [Select.re_match]. destruct s as [|x s].
    + split; [done|]. intros [k Hk]. done.
    + rewrite andb_true_iff, IH by done. split.
      * intros [Hx Hp]. apply Ascii.eqb_eq in Hx as ->. by apply prefix_cons.
      * intros Hp. pose proof (prefix_cons_inv_1 _ _ _ _ Hp) as ->.
        split; [apply Ascii.eqb_refl|]. by apply prefix_cons_inv_2 in Hp.
Qed.

Lemma matches_any_literal (names : list string) (column : string) :
  Forall literal_name names →
  Select.matches_any names column = true ↔ Exists (λ n, starts_with n column) names.
Proof.
  intros Hnames. unfold Select.matches_any.
  induction Hnames as [|n names [_ Hn] _ IH]; cbn [existsb].
  - split; [done|]. by intros ?%Exists_nil.
  - rewrite orb_true_iff, Exists_cons, IH, re_match_literal by done. done.
Qed.

End select_facts.

Lemma literal_segments (n : list ascii) (segs : list (list ascii)) :
  ("*"%char ∉ n) →
  Forall2 (λ t seg, match t with
                    | Select.Lit c => seg = [c]
                    | Select.Any => Select.newline ∉ seg
                    end)
    ((λ c, if Ascii.eqb c "*"%char then Select.Any else Select.Lit c) <$> n) segs →
  concat segs = n.
Proof.
  revert segs. induction n as [|c n IH]; intros segs Hstar Hsegs.
  - apply Forall2_nil_inv_l in Hsegs as ->. done.
  - apply not_elem_of_cons in Hstar as [Hc Hn]. rewrite fmap_cons in Hsegs.
    destruct (Ascii.eqb_spec c "*"%char) as [->|_]; [done|].
    apply Forall2_cons_inv_l in Hsegs as (seg & segs' & -> & Hsegs & ->).
    cbn. f_equal. by apply IH.
Qed.

Lemma literal_segments_intro (n : list ascii) :
  ("*"%char ∉ n) →
  Forall2 (λ t seg, match t with
                    | Select.Lit c => seg = [c]
                    | Select.Any => Select.newline ∉ seg
                    end)
    ((λ c, if Ascii.eqb c "*"%char then Select.Any else Select.Lit c) <$> n)
    ((λ c, [c]) <$> n)
  ∧ concat ((λ c, [c]) <$> n) = n.
Proof.
  induction n as [|c n IH]; intros Hstar.
  - split; [constructor|done].
  - apply not_elem_of_cons in Hstar as [Hc Hn]. rewrite !fmap_cons.
    destruct (Ascii.eqb_spec c "*"%char) as [->|_]; [done|].
    destruct (IH Hn) as [H1 H2]. split; [by constructor|].
    cbn. by rewrite H2.
Qed.

(** Names are matched as prefixes: a column is kept when it starts
    with an included name and with no excluded name. *)
Theorem select_columns_by_prefix (columns : list string)
    (include exclude : option (list string)) :
  from_option (Forall literal_name) True include →
  from_option (Forall literal_name) True exclude →
  _select_columns columns include exclude `sublist_of` columns
  ∧ ∀ c, c ∈ _select_columns columns include exclude
         ↔ c ∈ columns
           ∧ (∀ inc, include = Some inc → Exists (λ n, starts_with n c) inc)
           ∧ (∀ exc, exclude = Some exc → Forall (λ n, ¬ starts_with n c) exc).
Proof.
  intros Hinc Hexc. unfold _select_columns. split.
  - destruct include, exclude; try done;
      repeat (etrans; [apply List_filter_sublist|]); done.
  - intros c.
    assert (∀ exc, Forall literal_name exc →
              negb (Select.matches_any exc c) = true
              ↔ Forall (λ n, ¬ starts_with n c) exc) as Hneg.
    { intros exc Hl. rewrite negb_true_iff, <- not_true_iff_false,
        matches_any_literal by done. by rewrite Forall_Exists_neg. }
    destruct include as [inc|], exclude as [exc|]; cbn in Hinc, Hexc.
    + rewrite !elem_of_List_filter, Hneg, matches_any_literal by done.
      split.
      * intros [[? ?] ?]. repeat split; [done|by intros ? [= <-]..].
      * intros (? & Hi & He). repeat split; [done|by apply Hi|by apply He].
    + rewrite !elem_of_List_filter, matches_any_literal by done.
      split.
      * intros [? ?]. repeat split; [done|by intros ? [= <-]|done].
      * intros (? & Hi & He). split; [done|by apply Hi].
    + rewrite !elem_of_List_filter, Hneg by done.
      split.
      * intros [? ?]. repeat split; [done|done|by intros ? [= <-]].
      * intros (? & Hi & He). split; [done|by apply He].
    + split; [by intros ?|by intros (? & _)].
Qed.

Lemma select_columns_by_prefix_witness :
  _select_columns ["Position"; "PositionError"; "Header"; "Velocity"] None (Some ["Position"])
  `sublist_of` ["Position"; "PositionError"; "Header"; "Velocity"]
  ∧ ("PositionError" ∉ _select_columns ["Position"; "PositionError"; "Header"; "Velocity"]
                          None (Some ["Position"])).
Proof.
  assert (from_option (Forall literal_name) True (Some ["Position"])) as Hexc.
  { cbn. repeat constructor; cbn; try (apply (bool_decide_unpack _); by vm_compute). }
  destruct (select_columns_by_prefix ["Position"; "PositionError"; "Header"; "Velocity"]
              None (Some ["Position"]) I Hexc) as [Hsub Hin].
  split; [exact Hsub|].
  intros Hc. apply Hin in Hc as (_ & _ & He).
  specialize (He ["Position"] eq_refl). apply Forall_inv in He. apply He.
  by exists (list_ascii_of_string "Error").
Defined.

(** A pattern with one star matches the names that start with the text
    before the star and hold the text after it further on, on the same
    line. *)
Theorem select_columns_wildcard (before after column : string) (columns : list string) :
  literal_name before → literal_name after →
  (column ∈ _select_columns columns (Some [before +:+ "*" +:+ after]) None
   ↔ column ∈ columns
     ∧ ∃ mid rest,
         list_ascii_of_string column
         = list_ascii_of_string before ++ mid ++ list_ascii_of_string after ++ rest
         ∧ Select.newline ∉ mid).
Proof.
  intros [_ Hb] [_ Ha]. unfold _select_columns, Select.matches_any.
  rewrite elem_of_List_filter. cbn [existsb]. rewrite orb_false_r.
  apply and_iff_compat_l.
  unfold Select.toregex. rewrite !list_ascii_of_string_app.
  cbn [list_ascii_of_string app]. rewrite fmap_app, fmap_cons.
  cbn [Ascii.eqb Bool.eqb].
  rewrite re_match_segments. split.
  - intros (segs & rest & Hs & Hsegs).
    apply Forall2_app_inv_l in Hsegs as (segs1 & segs2 & H1 & H2 & ->).
    apply Forall2_cons_inv_l in H2 as (mid & segs3 & Hmid & H3 & ->).
    apply literal_segments in H1; [|done]. apply literal_segments in H3; [|done].
    exists mid, rest. split; [|done].
    rewrite Hs, concat_app, concat_cons, H1, H3. by rewrite <- !app_assoc.
  - intros (mid & rest & Hs & Hmid).
    destruct (literal_segments_intro _ Hb) as [Hb1 Hb2].
    destruct (literal_segments_intro _ Ha) as [Ha1 Ha2].
    exists (((λ c, [c]) <$> list_ascii_of_string before)
            ++ mid :: ((λ c, [c]) <$> list_ascii_of_string after)), rest.
    split.
    + rewrite Hs, concat_app, concat_cons, Hb2, Ha2. by rewrite <- !app_assoc.
    + apply Forall2_app; [done|]. by constructor.
Qed.

Lemma select_columns_wildcard_witness :
  "Position_x" ∈ _select_columns ["Position_x"; "Velocity_x"] (Some ["Pos*_x"]) None.
Proof.
  apply (select_columns_wildcard "Pos" "_x" "Position_x" ["Position_x"; "Velocity_x"]).
  - split; [|apply (bool_decide_unpack _); by vm_compute].
    unfold Select.plain_name. cbn. repeat constructor; apply (bool_decide_unpack _); by vm_compute.
  - split; [|apply (bool_decide_unpack _); by vm_compute].
    unfold Select.plain_name. cbn. repeat constructor; apply (bool_decide_unpack _); by vm_compute.
  - split; [repeat constructor|].
    exists (list_ascii_of_string "ition"), []. split; [reflexivity|].
    apply (bool_decide_unpack _). by vm_compute.
Defined.

Lemma found_headers_inv (columns header_blocks acc : list string) :
  NoDup acc → acc ⊆ columns →
  let found :=
    foldl (λ headers header,
             if bool_decide (header ∈ columns) && negb (bool_decide (header ∈ headers))
             then headers ++ [header] else headers)
          acc header_blocks in
  NoDup found ∧ found ⊆ columns
  ∧ ∀ h, h ∈ found ↔ h ∈ acc ∨ (h ∈ header_blocks ∧ h ∈ columns).
Proof.
  revert acc. induction header_blocks as [|b bs IH]; intros acc Hnd Hsub; cbn [foldl].
  - split; [done|]. split; [done|]. intros h. split; [by left|].
    intros [?|[?%elem_of_nil _]]; done.
  - destruct (bool_decide (b ∈ columns)) eqn:Hb; cbn [andb];
      [destruct (bool_decide (b ∈ acc)) eqn:Ha; cbn [negb]|].
    + apply bool_decide_eq_true in Hb, Ha.
      destruct (IH acc Hnd Hsub) as (H1 & H2 & H3). split; [done|]. split; [done|].
      intros h. rewrite H3, elem_of_cons. split; [tauto|].
      intros [?|[[ -> |?] ?]]; tauto.
    + apply bool_decide_eq_true in Hb. apply bool_decide_eq_false in Ha.
      destruct (IH (acc ++ [b])) as (H1 & H2 & H3).
      * apply NoDup_app. split; [done|]. split; [|apply NoDup_singleton].
        intros x Hx Hx'. apply list_elem_of_singleton in Hx' as ->. done.
      * intros x [?|Hx]%elem_of_app; [by apply Hsub|].
        apply list_elem_of_singleton in Hx as ->. done.
      * split; [done|]. split; [done|].
        intros h. rewrite H3, elem_of_app, list_elem_of_singleton, elem_of_cons.
        split; [|tauto]. intros [[?| ->]|[? ?]]; tauto.
    + apply bool_decide_eq_false in Hb.
      destruct (IH acc Hnd Hsub) as (H1 & H2 & H3). split; [done|]. split; [done|].
      intros h. rewrite H3, elem_of_cons. split; [tauto|].
      intros [?|[[ -> |?] ?]]; tauto.
Qed.

(** With no [exclude] given, the names ['asdf_library'] and ['history']
    join the header blocks whose entries are read as attributes; with
    an [exclude] list they do not, and the caller's list gains them. *)
Theorem asdf_exclude_shares_headers (keys : list string)
    (header_blocks : option (list string)) (exclude : list string) :
  let found := found_headers keys (default ["Header"; "header"] header_blocks) in
  Asdf.header_plan keys header_blocks None
  = (_select_columns keys None (Some (found ++ ["asdf_library"; "history"])),
     found ++ ["asdf_library"; "history"], None)
  ∧ Asdf.header_plan keys header_blocks (Some exclude)
    = (_select_columns keys None (Some (exclude ++ ["asdf_library"; "history"])),
       found, Some (exclude ++ ["asdf_library"; "history"]))
  ∧ NoDup found
  ∧ (∀ h, h ∈ found ↔ h ∈ default ["Header"; "header"] header_blocks ∧ h ∈ keys).
Proof.
  intros found. split; [done|]. split; [done|].
  destruct (found_headers_inv keys (default ["Header"; "header"] header_blocks) [])
    as (H1 & H2 & H3); [constructor|by intros ? ?%elem_of_nil|].
  split; [done|]. intros h. unfold found, found_headers. rewrite H3.
  split; [|tauto]. intros [?%elem_of_nil|?]; done.
Qed.

Section window_writes.

Lemma cumsum_from_lookup (l : list Z) :
  ∀ acc k, (k < length l)%nat → cumsum_from acc l !! k = Some (acc + sumZ (take (S k) l)).
Proof.
  induction l as [|x l IH]; intros acc k Hk; [cbn in Hk; lia|].
  cbn [cumsum_from]. destruct k as [|k].
  - change (take 1 (x :: l)) with [x]. rewrite sumZ_cons. cbn. f_equal. lia.
  - change (take (S (S k)) (x :: l)) with (x :: take (S k) l).
    rewrite sumZ_cons. cbn [lookup list_lookup]. rewrite IH by (cbn in Hk; lia).
    f_equal. lia.
Qed.

Lemma cumsum_lookup (sizes : list Z) (k : nat) :
  (k ≤ length sizes)%nat → cumsum (0 :: sizes) !! k = Some (sumZ (take k sizes)).
Proof.
  intros Hk. unfold cumsum. cbn [cumsum_from]. destruct k as [|k]; [done|].
  cbn [lookup list_lookup]. rewrite cumsum_from_lookup by lia. f_equal.
Qed.

Lemma length_cumsum_from (l : list Z) : ∀ acc, length (cumsum_from acc l) = length l.
Proof. induction l as [|x l IH]; intros acc; cbn; [done|]. by rewrite IH. Qed.

Lemma cumsum_last (sizes : list Z) : last (cumsum (0 :: sizes)) = Some (sumZ sizes).
Proof.
  rewrite last_lookup.
  assert (length (cumsum (0 :: sizes)) = S (length sizes)) as ->.
  { unfold cumsum. cbn [cumsum_from length]. by rewrite length_cumsum_from. }
  cbn [pred]. rewrite cumsum_lookup by done. by rewrite firstn_all.
Qed.

Lemma sumZ_lengths_concat {A : Type} (ll : list (list A)) :
  sumZ ((λ d, Z.of_nat (length d)) <$> ll) = Z.of_nat (length (concat ll)).
Proof.
  induction ll as [|l ll IH]; [done|].
  rewrite fmap_cons, sumZ_cons, IH. cbn [concat]. rewrite length_app. lia.
Qed.

Lemma setslice_window (before data after old : list Z) :
  length old = length data →
  Writer.setslice (before ++ old ++ after) (Z.of_nat (length before))
    (Z.of_nat (length before) + Z.of_nat (length data)) data
  = Ok (before ++ data ++ after).
Proof.
  intros Hold. unfold Writer.setslice. cbn [Py.indices fst snd].
  set (len := Z.of_nat (length (before ++ old ++ after))).
  assert (len = Z.of_nat (length before) + Z.of_nat (length data)
                + Z.of_nat (length after)) as Hlen.
  { unfold len. rewrite !length_app. lia. }
  assert (Py.adjust len 1 (Z.of_nat (length before)) = Z.of_nat (length before)) as ->.
  { unfold Py.adjust.
    destruct (Z.ltb_spec (Z.of_nat (length before)) 0),
      (Z.leb_spec len (Z.of_nat (length before))); cbn; lia. }
  assert (Py.adjust len 1 (Z.of_nat (length before) + Z.of_nat (length data))
          = Z.of_nat (length before) + Z.of_nat (length data)) as ->.
  { unfold Py.adjust.
    destruct (Z.ltb_spec (Z.of_nat (length before) + Z.of_nat (length data)) 0),
      (Z.leb_spec len (Z.of_nat (length before) + Z.of_nat (length data))); cbn; lia. }
  replace (Z.max 0 (Z.of_nat (length before) + Z.of_nat (length data)
                    - Z.of_nat (length before))) with (Z.of_nat (length data)) by lia.
  rewrite Z.eqb_refl, Nat2Z.id. f_equal.
  rewrite take_app_length. f_equal. f_equal.
  replace (Z.to_nat (Z.of_nat (length before) + Z.of_nat (length data)))
    with (length before + length old)%nat by lia.
  by rewrite drop_app_add', drop_app_length by done.
Qed.

Lemma binary_file_steps (datas : list (list Z)) :
  ∀ done rest,
    datas = done ++ rest →
    foldl (λ fp rd, fp ← fp;
                    Writer.binary ((λ d, Z.of_nat (length d)) <$> datas)
                      (Z.of_nat rd.1) rd.2 fp)
          (Ok (concat done ++ replicate (length (concat rest)) 0))
          (imap (λ r d, (length done + r, d)%nat) rest)
    = Ok (concat datas).
Proof.
  intros done rest. revert done. induction rest as [|d rest IH]; intros done Hd.
  - cbn. by rewrite Hd, !app_nil_r.
  - rewrite imap_cons. cbn [foldl mbind result_bind fst snd].
    rewrite Nat.add_0_r.
    assert (Writer.binary ((λ d, Z.of_nat (length d)) <$> datas) (Z.of_nat (length done)) d
              (concat done ++ replicate (length (concat (d :: rest))) 0)
            = Ok (concat (done ++ [d]) ++ replicate (length (concat rest)) 0)) as ->.
    { unfold Writer.binary.
      assert (0 ≤ Z.of_nat (length done)) as H0 by lia.
      unfold itemZ.
      destruct (Z.leb_spec 0 (Z.of_nat (length done))); [|lia].
      destruct (Z.leb_spec 0 (Z.of_nat (length done) + 1)); [|lia].
      unfold item.
      rewrite Nat2Z.id.
      replace (Z.to_nat (Z.of_nat (length done) + 1)) with (S (length done)) by lia.
      rewrite !cumsum_lookup by (rewrite length_fmap, Hd, length_app; cbn; lia).
      cbn [mbind result_bind].
      rewrite <- !fmap_take, !sumZ_lengths_concat.
      rewrite Hd. rewrite take_app_length.
      replace (S (length done)) with (length (done ++ [d])) by (rewrite length_app; cbn; lia).
      replace (done ++ d :: rest) with ((done ++ [d]) ++ rest) by (by rewrite <- app_assoc).
      rewrite take_app_length, concat_app. cbn [concat]. rewrite app_nil_r.
      rewrite (length_app (concat done) d), Nat2Z.inj_add, (length_app d), replicate_add.
      rewrite <- (app_assoc (concat done)).
      apply (setslice_window (concat done) d (replicate (length (concat rest)) 0)
               (replicate (length d) 0)).
      apply length_replicate. }
    specialize (IH (done ++ [d])).
    rewrite <- app_assoc in IH. specialize (IH Hd).
    rewrite <- IH. f_equal. apply imap_ext. intros r x _. cbn.
    f_equal. rewrite length_app. cbn. lia.
Qed.

Lemma binary_file_concat (datas : list (list Z)) :
  Writer.binary_file datas = Ok (concat datas).
Proof.
  unfold Writer.binary_file. rewrite cumsum_last. cbn [default from_option]. unfold id.
  rewrite sumZ_lengths_concat, Nat2Z.id.
  pose proof (binary_file_steps datas [] datas eq_refl) as H.
  cbn [concat app length] in H. rewrite <- H. f_equal.
Qed.

End window_writes.

Section between_facts.

Context {A : Type}.
Implicit Types l : list A.

Lemma between_empty l (x y : Z) : y ≤ x → between l x y = [].
Proof. intros H. unfold between. by replace (Z.to_nat (y - x)) with 0%nat by lia. Qed.

Lemma between_app l (x m y : Z) :
  0 ≤ x → x ≤ m → m ≤ y → between l x m ++ between l m y = between l x y.
Proof.
  intros Hx Hm Hy. unfold between.
  replace (Z.to_nat m) with (Z.to_nat x + Z.to_nat (m - x))%nat by lia.
  rewrite <- drop_drop, take_take_drop. f_equal. lia.
Qed.

Lemma length_between l (x y : Z) :
  0 ≤ x → x ≤ y → y ≤ Z.of_nat (length l) → Z.of_nat (length (between l x y)) = y - x.
Proof. intros. unfold between. rewrite length_take, length_drop. lia. Qed.

Lemma between_between l (a b u v : Z) :
  0 ≤ a → 0 ≤ u → u ≤ v → a + v ≤ b →
  between (between l a b) u v = between l (a + u) (a + v).
Proof.
  intros Ha Hu Hv Hb. unfold between.
  apply list_eq. intros i.
  rewrite !lookup_take, !lookup_drop, lookup_take, lookup_drop.
  repeat case_decide; try lia; try done.
  f_equal. lia.
Qed.


(** Consecutive windows with the edges [E 0 ≤ E 1 ≤ ...] cut the rows
    [x .. y - 1] into pieces that lie end to end. *)
Lemma between_tiling l (E : Z → Z) (x y : Z) (k : nat) :
  (∀ q, 0 ≤ q < Z.of_nat k → E q ≤ E (q + 1)) → 0 ≤ E 0 → x ≤ y →
  concat ((λ q, between l (Z.max x (E q)) (Z.min y (E (q + 1)))) <$> seqZ 0 (Z.of_nat k))
  = between l (Z.max x (E 0)) (Z.min y (E (Z.of_nat k)))
  ∧ E 0 ≤ E (Z.of_nat k).
Proof.
  intros Hmono H0 Hxy. induction k as [|k IH].
  - change (Z.of_nat 0) with 0. split; [|done].
    rewrite between_empty by lia. done.
  - destruct IH as [IH Hk]; [intros q Hq; apply Hmono; lia|].
    pose proof (Hmono (Z.of_nat k) ltac:(lia)) as Hstep.
    replace (Z.of_nat (S k)) with (Z.of_nat k + 1) by lia.
    split; [|lia].
    rewrite seqZ_app, fmap_app, concat_app, IH by lia.
    change (seqZ (0 + Z.of_nat k) 1) with [0 + Z.of_nat k].
    rewrite fmap_cons, fmap_nil, Z.add_0_l. cbn [concat]. rewrite app_nil_r.
    set (Ek := E (Z.of_nat k)) in *. set (Ek1 := E (Z.of_nat k + 1)) in *.
    destruct (Z.le_gt_cases y Ek) as [Hy|Hy].
    + rewrite (between_empty l (Z.max x Ek)) by lia. rewrite app_nil_r.
      f_equal. lia.
    + destruct (Z.le_gt_cases x Ek) as [Hx|Hx].
      * replace (Z.min y Ek) with Ek by lia. replace (Z.max x Ek) with Ek by lia.
        apply between_app; lia.
      * rewrite (between_empty l (Z.max x (E 0))) by lia. cbn [app].
        f_equal. lia.
Qed.

End between_facts.

Section write_pieces_facts.

Lemma rows_at_between (col sub : list Z) (u m : Z) :
  rows_at col (progression u 1 m) sub → 0 ≤ u → 0 ≤ m →
  sub = between col u (u + m).
Proof.
  intros Hsub Hu Hm. pose proof (rows_at_length _ _ _ Hsub) as Hlen.
  rewrite length_progression in Hlen.
  apply list_eq. intros i. unfold between.
  rewrite lookup_take, lookup_drop. case_decide as Hi.
  - assert (progression u 1 m !! i = Some (u + Z.of_nat i)) as Hp.
    { unfold progression. rewrite list_lookup_fmap.
      rewrite (proj2 (lookup_seqZ 0 m i (0 + Z.of_nat i))) by lia. cbn. f_equal. lia. }
    destruct (Forall2_lookup_l _ _ _ _ _ Hsub Hp) as (v & Hv & _ & Hc).
    rewrite Hv, <- Hc. f_equal. lia.
  - apply lookup_ge_None. lia.
Qed.

Lemma take_rows_window (data : list Z) (u v : Z) :
  0 ≤ u → u ≤ v → v ≤ Z.of_nat (length data) →
  take_rows data (Slice.Range u v 1) = Ok (between data u v).
Proof.
  intros Hu Hv Hlen. unfold take_rows. cbn [Slice.idx Z.ltb Z.compare andb].
  destruct (getslice_window data u v) as (sub & -> & Hsub); [lia..|].
  f_equal. replace (Z.min u (Z.of_nat (length data))) with u in Hsub by lia.
  replace (Z.max 0 (v - u)) with (v - u) in Hsub by lia.
  apply rows_at_between in Hsub; [|lia..].
  by replace (u + (v - u)) with v in Hsub by lia.
Qed.

Lemma take_rows_empty (data : list Z) (x : Z) :
  take_rows data (Slice.Range x x 1) = Ok [].
Proof.
  unfold take_rows. cbn [Slice.idx Z.ltb Z.compare andb].
  destruct (getslice_rows data (Some x) (Some x) 1 ltac:(done)) as (sub & -> & Hsub).
  f_equal. cbn [Py.indices fst snd] in Hsub.
  rewrite range_empty in Hsub by (cbn; lia).
  by apply Forall2_nil_inv_l in Hsub.
Qed.

(** The rows of the share [[a, b)] handed to the file over [[s, e)]. *)
Lemma call_piece (col : list Z) (a b s e : Z) :
  0 ≤ a → a ≤ b → b ≤ Z.of_nat (length col) → s ≤ e →
  take_rows (between col a b)
    (Slice.shift (Slice.find (Slice.Range s e 1) (Slice.Range a b 1)).1 (s - a))
  = Ok (between col (Z.max a s) (Z.min b e)).
Proof.
  intros Ha Hb Hlen He.
  assert (Slice.to_array (Slice.Range a b 1) = progression a 1 (b - a)) as Hto.
  { cbn [Slice.to_array]. rewrite range_list_unit by lia. by rewrite progression_unit. }
  pose proof (find_window s (e - s) (Slice.Range a b 1) a 1 (b - a)
                ltac:(lia) ltac:(lia) (or_introl eq_refl) eq_refl Hto) as Hfind.
  replace (s + (e - s)) with e in Hfind at 1 by lia.
  rewrite Hfind. cbn [fst]. unfold first_in, last_in. cbn [Z.eqb Pos.eqb].
  set (x := a + Z.max 0 (s - a) * 1 - s).
  set (L := Z.min (b - a) (s + (e - s) - a) - Z.max 0 (s - a)).
  assert (x = Z.max a s - s) as Hx by lia.
  assert (L = Z.min b e - Z.max a s) as HL by lia.
  destruct (Z.le_gt_cases L 0) as [Hle|Hgt].
  - rewrite progression_nil by done.
    change (Slice.pack false []) with (Slice.Range 0 0 1).
    cbn [Slice.shift]. rewrite take_rows_empty. f_equal.
    symmetry. apply between_empty. lia.
  - rewrite pack_progression by lia.
    assert ((if L =? 1 then Slice.Range x (x + 1) 1 else Slice.Range x (x + L * 1) 1)
            = Slice.Range x (x + L) 1) as ->.
    { destruct (Z.eqb_spec L 1) as [->|_]; f_equal; lia. }
    cbn [Slice.shift].
    rewrite take_rows_window.
    + f_equal. rewrite between_between by lia. f_equal; lia.
    + lia.
    + lia.
    + rewrite length_between by lia. lia.
Qed.

End write_pieces_facts.

Section even_shares.

Lemma share_sizes_lookup (P N : Z) (k : nat) :
  (Z.of_nat k < P) →
  share_sizes P N !! k = Some ((Z.of_nat k + 1) * N / P - Z.of_nat k * N / P).
Proof.
  intros Hk. unfold share_sizes. rewrite list_lookup_fmap.
  rewrite (proj2 (lookup_seqZ 0 P k (0 + Z.of_nat k))) by lia. cbn.
  by rewrite Z.add_0_l.
Qed.

Lemma length_share_sizes (P N : Z) : length (share_sizes P N) = Z.to_nat P.
Proof. unfold share_sizes. by rewrite length_fmap, length_seqZ. Qed.

Lemma sumZ_take_shares (P N : Z) (k : nat) :
  1 ≤ P → Z.of_nat k ≤ P → sumZ (take k (share_sizes P N)) = Z.of_nat k * N / P.
Proof.
  intros HP. induction k as [|k IH]; intros Hk.
  - cbn. by rewrite Z.div_0_l by lia.
  - rewrite (take_S_r _ _ _ (share_sizes_lookup P N k ltac:(lia))).
    rewrite sumZ_app, IH by lia. cbn [sumZ foldr].
    replace (Z.of_nat (S k)) with (Z.of_nat k + 1) by lia. lia.
Qed.

Lemma cumsum_shares (P N q : Z) :
  1 ≤ P → 0 ≤ q ≤ P →
  default 0 (cumsum (0 :: share_sizes P N) !! Z.to_nat q) = q * N / P.
Proof.
  intros HP Hq. rewrite cumsum_lookup by (rewrite length_share_sizes; lia).
  cbn [default from_option]. unfold id. rewrite sumZ_take_shares by lia.
  by rewrite Z2Nat.id by lia.
Qed.

Lemma share_sizes_sum (P N : Z) : 1 ≤ P → 0 ≤ N → sumZ (share_sizes P N) = N.
Proof. intros HP HN. by apply default_sizes_sum. Qed.

Lemma windows_shares (P N : Z) (k : nat) :
  ∀ q0,
    windows (q0 * N / P) ((λ q, (q + 1) * N / P - q * N / P) <$> seqZ q0 (Z.of_nat k))
    = (λ q, (q * N / P, (q + 1) * N / P)) <$> seqZ q0 (Z.of_nat k).
Proof.
  induction k as [|k IH]; intros q0; [done|].
  rewrite (seqZ_S q0) by lia. rewrite !fmap_cons. cbn [windows].
  replace (Z.of_nat (S k) - 1) with (Z.of_nat k) by lia.
  replace (q0 * N / P + ((q0 + 1) * N / P - q0 * N / P)) with ((q0 + 1) * N / P) by lia.
  f_equal. apply IH.
Qed.

Lemma edges_mono (P N q : Z) : 1 ≤ P → 0 ≤ N → q * N / P ≤ (q + 1) * N / P.
Proof. intros. apply floor_step_mono; lia. Qed.

Lemma edge_last (P N : Z) : 1 ≤ P → P * N / P = N.
Proof. intros. rewrite Z.mul_comm. apply Z.div_mul. lia. Qed.

End even_shares.

Lemma imap_fmap_seqZ {A B : Type} (g : nat → A → B) (h : Z → A) (k : nat) :
  imap g (h <$> seqZ 0 (Z.of_nat k))
  = (λ q, g (Z.to_nat q) (h q)) <$> seqZ 0 (Z.of_nat k).
Proof.
  induction k as [|k IH]; [done|].
  replace (Z.of_nat (S k)) with (Z.of_nat k + 1) by lia.
  rewrite seqZ_app by lia. rewrite !fmap_app, imap_app, IH. f_equal.
  change (seqZ (0 + Z.of_nat k) 1) with [0 + Z.of_nat k].
  rewrite length_fmap, length_seqZ. cbn [fmap list_fmap imap].
  rewrite Nat.add_0_r. f_equal.
Qed.

Section even_write.

Context (fs : list BaseFile.t) (P : Z) (col : list Z).
Hypothesis Hfs : fs ≠ [].
Hypothesis HP : 1 ≤ P.

Let N := Z.of_nat (length col).
Let n := Z.of_nat (length fs).

Lemma files_positive : 1 ≤ n.
Proof. unfold n. destruct fs; [done|cbn; lia]. Qed.

Lemma written_filesizes (r : Z) :
  FileStack.filesizes (FileStack.write (stack_of fs P r) (share_sizes P N)).1
  = share_sizes n N.
Proof.
  rewrite write_filesizes. rewrite share_sizes_sum by (unfold N; lia). done.
Qed.

Lemma write_pieces_even (r : Z) :
  0 ≤ r < P →
  write_pieces (stack_of fs P r) (share_sizes P N) (share P N r col)
  = Ok ((λ q, (Z.to_nat q,
               between col (Z.max (r * N / P) (q * N / n))
                           (Z.min ((r + 1) * N / P) ((q + 1) * N / n))))
          <$> seqZ 0 n).
Proof.
  intros Hr. pose proof files_positive as Hn.
  assert (0 ≤ N) as HN by (unfold N; lia).
  unfold write_pieces.
  set (st1 := (FileStack.write (stack_of fs P r) (share_sizes P N)).1).
  assert ((FileStack.write (stack_of fs P r) (share_sizes P N)).2
          = (overlaps ← FileStack.fileslices st1;
             imap (λ ifile rows,
                     (ifile, Slice.shift rows.1
                               (default 0 (cumsum (0 :: FileStack.filesizes st1) !! ifile)
                                - default 0 (cumsum (0 :: share_sizes P N) !! Z.to_nat r))))
                  overlaps)) as -> by reflexivity.
  assert (FileStack.filesizes st1 = share_sizes n N) as Hsizes by apply written_filesizes.
  rewrite fileslices_windows, Hsizes.
  assert (FileStack.slices st1 = [default_slice r P N]) as ->.
  { transitivity [default_slice r P (FileStack.cfilesize st1)]; [reflexivity|].
    unfold FileStack.cfilesize. rewrite Hsizes.
    by rewrite share_sizes_sum by lia. }
  rewrite cumsum_shares by lia.
  pose proof (windows_shares n N (Z.to_nat n) 0) as Hw.
  rewrite Z2Nat.id, Z.mul_0_l, Z.div_0_l in Hw by lia.
  fold (share_sizes n N) in Hw. rewrite Hw.
  rewrite fmap_cons, fmap_nil. cbn [mbind list_bind]. rewrite app_nil_r.
  rewrite <- list_fmap_compose.
  rewrite <- (Z2Nat.id n) by lia. rewrite imap_fmap_seqZ. rewrite Z2Nat.id by lia.
  rewrite rmap_ok with (g := λ c, (c.1, between col (Z.max (r * N / P) (Z.of_nat c.1 * N / n))
                                         (Z.min ((r + 1) * N / P) ((Z.of_nat c.1 + 1) * N / n)))).
  - f_equal. rewrite <- list_fmap_compose. apply list_fmap_ext.
    intros i q Hq. apply lookup_seqZ in Hq as [-> Hi]. cbn.
    by rewrite Z2Nat.id by lia.
  - apply Forall_fmap, Forall_forall. intros q Hq. apply elem_of_seqZ in Hq.
    cbn [fst snd compose]. unfold default_slice.
    rewrite cumsum_shares by lia.
    pose proof (edge_nonneg P N HP HN r ltac:(lia)).
    pose proof (edge_le P N HP HN (r + 1) ltac:(lia)).
    pose proof (edges_mono P N r HP HN). pose proof (edges_mono n N q Hn HN).
    unfold share. fold (between col (r * N / P) ((r + 1) * N / P)).
    rewrite call_piece by (fold N; lia).
    cbn [mbind result_bind]. by rewrite Z2Nat.id by lia.
Qed.

End even_write.

Section world_facts.

Lemma lengths_shares (P : Z) (col : list Z) :
  1 ≤ P →
  (λ d, Z.of_nat (length d)) <$> ((λ r, share P (Z.of_nat (length col)) r col) <$> seqZ 0 P)
  = share_sizes P (Z.of_nat (length col)).
Proof.
  intros HP. rewrite <- list_fmap_compose. unfold share_sizes.
  apply list_fmap_ext. intros i r Hr. apply lookup_seqZ in Hr as [-> Hi]. cbn.
  set (N := Z.of_nat (length col)).
  pose proof (edge_nonneg P N HP ltac:(lia) (0 + Z.of_nat i) ltac:(lia)).
  pose proof (edge_le P N HP ltac:(lia) (0 + Z.of_nat i + 1) ltac:(lia)).
  pose proof (edges_mono P N (0 + Z.of_nat i) HP ltac:(lia)).
  unfold share. rewrite length_take, length_drop. lia.
Qed.

Lemma filter_indexed {B : Type} (g : Z → B) (i : nat) (k : nat) :
  ∀ q0 : nat,
    List.filter (λ c : nat * B, Nat.eqb c.1 i)
      ((λ q, (Z.to_nat q, g q)) <$> seqZ (Z.of_nat q0) (Z.of_nat k))
    = if bool_decide (q0 ≤ i < q0 + k)%nat then [(i, g (Z.of_nat i))] else [].
Proof.
  induction k as [|k IH]; intros q0.
  - cbn. case_bool_decide; [lia|done].
  - rewrite (seqZ_S (Z.of_nat q0)) by lia. rewrite fmap_cons. cbn [List.filter fst].
    replace (Z.of_nat (S k) - 1) with (Z.of_nat k) by lia.
    replace (Z.of_nat q0 + 1) with (Z.of_nat (S q0)) by lia.
    rewrite IH, Nat2Z.id.
    destruct (Nat.eqb_spec q0 i) as [->|Hne].
    + rewrite bool_decide_eq_false_2 by lia. by rewrite bool_decide_eq_true_2 by lia.
    + repeat case_bool_decide; try lia; done.
Qed.

Lemma piece_for_indexed (g : Z → list Z) (i : nat) (n : Z) :
  Z.of_nat i < n →
  piece_for i ((λ q, (Z.to_nat q, g q)) <$> seqZ 0 n) = g (Z.of_nat i).
Proof.
  intros Hi. unfold piece_for.
  pose proof (filter_indexed g i (Z.to_nat n) 0) as Hf.
  rewrite Z2Nat.id in Hf by lia. change (Z.of_nat 0) with 0 in Hf.
  rewrite Hf, bool_decide_eq_true_2 by lia. done.
Qed.

Lemma seqZ_seq (k : nat) : seqZ 0 (Z.of_nat k) = Z.of_nat <$> seq 0 k.
Proof.
  unfold seqZ. rewrite Nat2Z.id. apply list_fmap_ext. intros _ i _. lia.
Qed.

End world_facts.

(** When every rank holds its default share of the rows, [write] hands
    each file one array, and the arrays a rank hands out, laid end to
    end in the order of the files, are its own rows: none is dropped
    and none goes to two files. *)
Theorem write_hands_out_every_row (fs : list BaseFile.t) (P r : Z) (col : list Z) :
  fs ≠ [] → 1 ≤ P → 0 ≤ r < P →
  let N := Z.of_nat (length col) in
  let n := Z.of_nat (length fs) in
  ∃ pieces,
    write_pieces (stack_of fs P r) (share_sizes P N) (share P N r col) = Ok pieces
    ∧ pieces.*1 = seq 0 (length fs)
    ∧ pieces.*2 = (λ i, between col (Z.max (r * N / P) (i * N / n))
                                (Z.min ((r + 1) * N / P) ((i + 1) * N / n)))
                    <$> seqZ 0 n
    ∧ concat pieces.*2 = share P N r col.
Proof.
  intros Hfs HP Hr N n.
  pose proof (write_pieces_even fs P col Hfs HP r Hr) as Hw. cbv zeta in Hw.
  fold N n in Hw. eexists. split; [exact Hw|].
  assert (1 ≤ n) as Hn by (unfold n; destruct fs; [done|cbn; lia]).
  assert (0 ≤ N) as HN by (unfold N; lia).
  split; [|split].
  - rewrite <- list_fmap_compose. unfold n. rewrite seqZ_seq, <- list_fmap_compose.
    rewrite <- (list_fmap_id (seq 0 (length fs))) at 2.
    apply list_fmap_ext. intros _ i _. cbn. lia.
  - rewrite <- list_fmap_compose. done.
  - rewrite <- list_fmap_compose.
    pose proof (edge_nonneg P N HP HN r ltac:(lia)).
    pose proof (edge_le P N HP HN (r + 1) ltac:(lia)).
    pose proof (edges_mono P N r HP HN).
    destruct (between_tiling col (λ q, q * N / n) (r * N / P) ((r + 1) * N / P)
                (Z.to_nat n)) as [Ht _].
    + intros q _. by apply edges_mono.
    + by rewrite Z.mul_0_l, Z.div_0_l by lia.
    + done.
    + rewrite Z2Nat.id in Ht by lia. cbv beta in Ht.
      rewrite Z.mul_0_l, Z.div_0_l, (edge_last n N) in Ht by lia.
      unfold compose. cbn [snd]. rewrite Ht. unfold share, between.
      f_equal; [|f_equal]; lia.
Qed.

Lemma write_hands_out_every_row_witness :
  ∃ pieces,
    write_pieces (stack_of [shard_xy; shard_x] 2 1) (share_sizes 2 7)
      (share 2 7 1 [10; 11; 12; 13; 14; 15; 16]) = Ok pieces
    ∧ pieces.*1 = [0; 1]%nat
    ∧ pieces.*2 = [[]; [13; 14; 15; 16]]
    ∧ concat pieces.*2 = [13; 14; 15; 16].
Proof.
  apply (write_hands_out_every_row [shard_xy; shard_x] 2 1 [10; 11; 12; 13; 14; 15; 16]).
  - done.
  - lia.
  - lia.
Defined.

Section round_trip.

Context (fs : list BaseFile.t) (P : Z) (col : list Z) (column : string).
Hypothesis Hfs : fs ≠ [].
Hypothesis HP : 1 ≤ P.

Lemma write_world_even :
  let N := Z.of_nat (length col) in
  let n := Z.of_nat (length fs) in
  write_world fs P ((λ r, share P N r col) <$> seqZ 0 P)
  = Ok ((λ i, share n N i col) <$> seqZ 0 n).
Proof.
  cbv zeta. unfold write_world. rewrite lengths_shares by done.
  set (N := Z.of_nat (length col)). set (n := Z.of_nat (length fs)).
  assert (1 ≤ n) as Hn by (unfold n; destruct fs; [done|cbn; lia]).
  assert (0 ≤ N) as HN by (unfold N; lia).
  rewrite (rmap_zip_fmap
             (λ rd, write_pieces (stack_of fs P rd.1) (share_sizes P N) rd.2)).
  cbn [fst snd].
  rewrite rmap_ok with
    (g := λ r, (λ q, (Z.to_nat q,
                      between col (Z.max (r * N / P) (q * N / n))
                                  (Z.min ((r + 1) * N / P) ((q + 1) * N / n))))
                 <$> seqZ 0 n).
  2:{ apply Forall_forall. intros r Hr. apply elem_of_seqZ in Hr.
      by apply (write_pieces_even fs P col Hfs HP r). }
  cbn [mbind result_bind].
  rewrite rmap_ok with (g := λ i : nat, share n N (Z.of_nat i) col).
  - f_equal. unfold n at 3. by rewrite seqZ_seq, <- list_fmap_compose.
  - apply Forall_forall. intros i Hi. apply elem_of_seq in Hi.
    rewrite <- list_fmap_compose, binary_file_concat. f_equal.
    transitivity (concat ((λ r, between col (Z.max (Z.of_nat i * N / n) (r * N / P))
                                    (Z.min ((Z.of_nat i + 1) * N / n) ((r + 1) * N / P)))
                            <$> seqZ 0 P)).
    { f_equal. apply list_fmap_ext. intros _ r _. cbn.
      rewrite (piece_for_indexed
                 (λ q, between col (Z.max (r * N / P) (q * N / n))
                               (Z.min ((r + 1) * N / P) ((q + 1) * N / n)))) by (unfold n; lia).
      cbv beta. f_equal; lia. }
    pose proof (edge_nonneg n N Hn HN (Z.of_nat i) ltac:(lia)).
    pose proof (edge_le n N Hn HN (Z.of_nat i + 1) ltac:(unfold n; lia)).
    pose proof (edges_mono n N (Z.of_nat i) Hn HN).
    destruct (between_tiling col (λ q, q * N / P) (Z.of_nat i * N / n)
                ((Z.of_nat i + 1) * N / n) (Z.to_nat P)) as [Ht _].
    + intros q _. by apply edges_mono.
    + by rewrite Z.mul_0_l, Z.div_0_l by lia.
    + done.
    + rewrite Z2Nat.id in Ht by lia. cbv beta in Ht.
      rewrite Z.mul_0_l, Z.div_0_l, (edge_last P N) in Ht by lia.
      rewrite Ht. unfold share, between. f_equal; [|f_equal]; lia.
Qed.

Lemma reopened_csizes (st : FileStack.t) (contents : list (list Z)) :
  length (FileStack.files st) = length contents →
  FileStack.filesizes (reopened column st contents) = FileStack.filesizes st.
Proof.
  unfold FileStack.filesizes. cbn [reopened FileStack.files].
  generalize (FileStack.files st) as l. intros l. revert contents.
  induction l as [|f l IH]; intros [|c k] Hlen; try done.
  cbn [zip_with]. rewrite !fmap_cons. f_equal. apply IH. by injection Hlen.
Qed.

Lemma reopened_table (st : FileStack.t) (contents : list (list Z)) :
  length (FileStack.files st) = length contents →
  table (FileStack.files (reopened column st contents)) column = concat contents.
Proof.
  unfold table. cbn [reopened FileStack.files].
  generalize (FileStack.files st) as l. intros l. revert contents.
  induction l as [|f l IH]; intros [|c k] Hlen; try done.
  cbn [zip_with mbind list_bind concat]. rewrite IH by (by injection Hlen).
  f_equal. unfold BaseFile.column_data. cbn [BaseFile.data list_find].
  by rewrite decide_True.
Qed.

Lemma write_readable (st : FileStack.t) (sizes : list Z) :
  Forall readable (FileStack.files st) →
  Forall readable (FileStack.files (FileStack.write st sizes).1).
Proof.
  cbn [FileStack.write fst FileStack.files]. intros H.
  apply Forall_forall. intros f Hf.
  apply list_elem_of_lookup in Hf as [i Hi].
  rewrite list_lookup_imap in Hi.
  destruct (FileStack.files st !! i) as [f0|] eqn:E; [|done].
  injection Hi as <-.
  exact (proj1 (Forall_forall _ _) H f0 (list_elem_of_lookup_2 _ _ _ E)).
Qed.

Lemma reopened_whole (st : FileStack.t) (contents : list (list Z)) :
  Forall readable (FileStack.files st) →
  FileStack.filesizes st = (λ c, Z.of_nat (length c)) <$> contents →
  Forall (whole column) (FileStack.files (reopened column st contents)).
Proof.
  unfold FileStack.filesizes. cbn [reopened FileStack.files].
  generalize (FileStack.files st) as l. intros l Hl. revert contents.
  induction Hl as [|f l Hf _ IH]; intros [|c k] Hlen; try done.
  rewrite !fmap_cons in Hlen. injection Hlen as Hc Hk.
  cbn [zip_with]. constructor; [|by apply IH].
  split; [done|]. exists c. split; [|done].
  unfold BaseFile.column_data. cbn [BaseFile.data list_find].
  by rewrite decide_True.
Qed.

Lemma round_trip_read (r : Z) :
  let N := Z.of_nat (length col) in
  let n := Z.of_nat (length fs) in
  Forall readable fs →
  0 ≤ r < P → r * N / P < (r + 1) * N / P →
  FileStack.read
    (reopened column (FileStack.write (stack_of fs P r) (share_sizes P N)).1
       ((λ i, share n N i col) <$> seqZ 0 n)) column
  = Ok (share P N r col).
Proof.
  intros N n Hreadable Hr Hne.
  assert (1 ≤ n) as Hn by (unfold n; destruct fs; [done|cbn; lia]).
  assert (0 ≤ N) as HN by (unfold N; lia).
  set (st1 := (FileStack.write (stack_of fs P r) (share_sizes P N)).1).
  set (contents := (λ i, share n N i col) <$> seqZ 0 n).
  pose proof (written_filesizes fs P col HP r) as Hsizes. cbv zeta in Hsizes.
  fold N n st1 in Hsizes.
  assert ((λ c, Z.of_nat (length c)) <$> contents = share_sizes n N) as Hlens.
  { by apply lengths_shares. }
  assert (length (FileStack.files st1) = length contents) as Hlen.
  { transitivity (length (FileStack.filesizes st1)).
    - unfold FileStack.filesizes. by rewrite length_fmap.
    - rewrite Hsizes, <- Hlens. by rewrite length_fmap. }
  destruct (read_shares (reopened column st1 contents) column) as [Hread _].
  - done.
  - apply reopened_whole; [by apply write_readable|]. by rewrite Hsizes, Hlens.
  - done.
  - done.
  - unfold FileStack.cfilesize. rewrite reopened_csizes, Hsizes, share_sizes_sum by done.
    done.
  - rewrite Hread. f_equal.
    unfold FileStack.cfilesize. rewrite reopened_csizes, Hsizes, share_sizes_sum by done.
    cbn [reopened FileStack.mpicomm st1 FileStack.write fst stack_of MPIComm.size
           MPIComm.rank].
    f_equal. fold st1. rewrite reopened_table by done.
    by apply shares_cover.
Qed.

End round_trip.

(** Writing evenly shared rows through a stack of binary files and
    reading the stack again gives every rank its rows back: file [i]
    holds the rows of its window of the table, whatever the numbers of
    ranks and of files. *)
Theorem write_read_round_trip (fs : list BaseFile.t) (P : Z) (col : list Z)
    (column : string) :
  fs ≠ [] → 1 ≤ P → Forall readable fs →
  let N := Z.of_nat (length col) in
  let n := Z.of_nat (length fs) in
  ∃ contents,
    write_world fs P ((λ r, share P N r col) <$> seqZ 0 P) = Ok contents
    ∧ contents = (λ i, share n N i col) <$> seqZ 0 n
    ∧ concat contents = col
    ∧ ∀ r, 0 ≤ r < P → r * N / P < (r + 1) * N / P →
           FileStack.read
             (reopened column (FileStack.write (stack_of fs P r) (share_sizes P N)).1
                contents) column
           = Ok (share P N r col).
Proof.
  intros Hfs HP Hreadable N n.
  assert (1 ≤ n) as Hn by (unfold n; destruct fs; [done|cbn; lia]).
  exists ((λ i, share n N i col) <$> seqZ 0 n).
  split; [by apply write_world_even|]. split; [done|]. split.
  - by apply shares_cover.
  - intros r Hr Hne. by apply round_trip_read.
Qed.

Lemma write_read_round_trip_witness :
  ∃ contents,
    write_world [shard_xy; shard_x] 2
      ((λ r, share 2 7 r [10; 11; 12; 13; 14; 15; 16]) <$> seqZ 0 2) = Ok contents
    ∧ contents = (λ i, share 2 7 i [10; 11; 12; 13; 14; 15; 16]) <$> seqZ 0 2
    ∧ concat contents = [10; 11; 12; 13; 14; 15; 16]
    ∧ ∀ r, 0 ≤ r < 2 → r * 7 / 2 < (r + 1) * 7 / 2 →
           FileStack.read
             (reopened "X" (FileStack.write (stack_of [shard_xy; shard_x] 2 r)
                              (share_sizes 2 7)).1 contents) "X"
           = Ok (share 2 7 r [10; 11; 12; 13; 14; 15; 16]).
Proof.
  apply (write_read_round_trip [shard_xy; shard_x] 2 [10; 11; 12; 13; 14; 15; 16] "X").
  - done.
  - lia.
  - repeat constructor; by eexists.
Defined.

(** The windows the ranks write to a binary file are disjoint and
    cover it: the file holds the arrays of the ranks laid end to end in
    rank order, and the region a rank writes to a big file is the same
    window. *)
Theorem binary_write_concatenates (datas : list (list Z)) :
  Writer.binary_file datas = Ok (concat datas)
  ∧ ∀ (r : nat) d,
      datas !! r = Some d →
      let sizes := (λ d, Z.of_nat (length d)) <$> datas in
      let region := Writer.bigfile_region sizes (Z.of_nat r) (Z.of_nat (length d)) in
      itemZ (cumsum (0 :: sizes)) (Z.of_nat r) = Ok region.1
      ∧ itemZ (cumsum (0 :: sizes)) (Z.of_nat r + 1) = Ok region.2
      ∧ between (concat datas) region.1 region.2 = d.
Proof.
  split; [apply binary_file_concat|].
  intros r d Hd sizes region.
  pose proof (lookup_lt_Some _ _ _ Hd) as Hr.
  assert (length sizes = length datas) as Hlen by (unfold sizes; by rewrite length_fmap).
  assert (region.1 = Z.of_nat (length (concat (take r datas)))) as H1.
  { unfold region, Writer.bigfile_region, sizes. cbn [fst].
    by rewrite Nat2Z.id, <- fmap_take, sumZ_lengths_concat. }
  assert (region.2 = region.1 + Z.of_nat (length d)) as H2 by done.
  split; [|split].
  - unfold itemZ, item. destruct (Z.leb_spec 0 (Z.of_nat r)); [|lia].
    rewrite Nat2Z.id, cumsum_lookup by lia. f_equal.
    unfold region, Writer.bigfile_region. cbn [fst]. by rewrite Nat2Z.id.
  - unfold itemZ, item. destruct (Z.leb_spec 0 (Z.of_nat r + 1)); [|lia].
    replace (Z.to_nat (Z.of_nat r + 1)) with (S r) by lia.
    rewrite cumsum_lookup by lia. f_equal. rewrite H2. unfold region.
    unfold Writer.bigfile_region. cbn [fst]. rewrite Nat2Z.id.
    assert (sizes !! r = Some (Z.of_nat (length d))) as Hs.
    { unfold sizes. by rewrite list_lookup_fmap, Hd. }
    rewrite (take_S_r _ _ _ Hs), sumZ_app. cbn [sumZ foldr]. lia.
  - rewrite H2, H1. unfold between.
    replace (Z.of_nat (length (concat (take r datas))) + Z.of_nat (length d)
             - Z.of_nat (length (concat (take r datas)))) with (Z.of_nat (length d)) by lia.
    rewrite !Nat2Z.id.
    rewrite <- (take_drop_middle _ _ _ Hd) at 2.
    rewrite concat_app, drop_app_length. cbn [concat].
    by rewrite take_app_length.
Qed.

Lemma binary_write_concatenates_witness :
  Writer.binary_file [[10; 11]; []; [12; 13; 14]] = Ok [10; 11; 12; 13; 14]
  ∧ itemZ (cumsum [0; 2; 0; 3]) 2 = Ok (Writer.bigfile_region [2; 0; 3] 2 3).1
  ∧ itemZ (cumsum [0; 2; 0; 3]) (2 + 1) = Ok (Writer.bigfile_region [2; 0; 3] 2 3).2
  ∧ between [10; 11; 12; 13; 14] (Writer.bigfile_region [2; 0; 3] 2 3).1
      (Writer.bigfile_region [2; 0; 3] 2 3).2 = [12; 13; 14].
Proof.
  destruct (binary_write_concatenates [[10; 11]; []; [12; 13; 14]]) as [Hfile Hregion].
  split; [exact Hfile|].
  exact (Hregion 2%nat [12; 13; 14] eq_refl).
Defined.

(** A column of a big file is cut into the least number of physical
    files of at most [32 * 1024 * 1024] items: [k] files hold the
    column, [k - 1] do not, no smaller count does, and an empty column
    gets no file. *)
Theorem bigfile_nfiles_ceiling (size : Z) :
  0 ≤ size →
  let k := Writer.bigfile_nfiles size in
  size ≤ k * (32 * 1024 * 1024)
  ∧ (k - 1) * (32 * 1024 * 1024) < size
  ∧ (∀ j, size ≤ j * (32 * 1024 * 1024) → k ≤ j)
  ∧ (size = 0 → k = 0).
Proof.
  intros Hsize k. unfold k, Writer.bigfile_nfiles.
  change (32 * 1024 * 1024) with 33554432.
  pose proof (Z.div_mod (size + 33554432 - 1) 33554432 ltac:(lia)) as Hdm.
  pose proof (Z.mod_pos_bound (size + 33554432 - 1) 33554432 ltac:(lia)) as Hmod.
  repeat split; lia.
Qed.

Lemma bigfile_nfiles_ceiling_witness :
  Writer.bigfile_nfiles 33554433 = 2 ∧ Writer.bigfile_nfiles 0 = 0.
Proof.
  pose proof (bigfile_nfiles_ceiling 33554433 ltac:(lia)) as (Hle & Hlt & _ & _).
  pose proof (bigfile_nfiles_ceiling 0 ltac:(lia)) as (_ & _ & _ & H0).
  split; [|by apply H0].
  cbv zeta in Hle, Hlt.
  pose proof (bigfile_nfiles_ceiling 33554433 ltac:(lia)) as (_ & _ & Hmin & _).
  specialize (Hmin 2 ltac:(lia)). lia.
Defined.

Section concatenate_facts.

Lemma cslice_files (st : FileStack.t) (gathered : list (list Slice.t))
    (start stop step : Z) (new : FileStack.t) :
  FileStack.cslice st gathered start stop step = Ok new →
  FileStack.files new = FileStack.files st
  ∧ FileStack.mpicomm new = FileStack.mpicomm st.
Proof.
  unfold FileStack.cslice. intros H.
  destruct (Slice.make _ _ _ _) as [g|]; cbn in H; [|done].
  destruct (itemZ _ _) as [l|]; cbn in H; [|done].
  destruct (Slice.is_array l || _).
  - destruct (FileStack.scattered_get _ _); cbn in H; [|done]. by injection H as <-.
  - destruct (Slice.idx_step l); cbn in H; [|done]. by injection H as <-.
Qed.

Lemma concatenate_files (current : MPIComm.t)
    (others : list (FileStack.t * list (list Slice.t))) (new : FileStack.t) :
  FileStackOps.concatenate current others = Ok new →
  FileStack.files new = others.*1 ≫= FileStack.files
  ∧ FileStack.mpicomm new = current
  ∧ Forall (λ f, MPIComm.id (BaseFile.mpicomm f) = MPIComm.id current)
      (FileStack.files new).
Proof.
  unfold FileStackOps.concatenate, FileStack.__init__. rewrite rmap_inl. cbn [mbind result_bind].
  destruct (forallb _ _) eqn:Hall; cbn [mbind result_bind]; [|done].
  apply forallb_comm_Forall in Hall.
  set (new0 := {| FileStack.files := others.*1 ≫= FileStack.files;
                  FileStack.mpicomm := current; FileStack.mpiroot := 0;
                  FileStack._slices := None |}).
  destruct (existsb _ others); [|by intros [= <-]].
  destruct (existsb _ others).
  - cbn [Slice.make Z.eqb mbind result_bind].
    destruct (FileStack.scattered_get _ _); cbn; [|done]. by intros [= <-].
  - intros H. apply cslice_files in H as [-> ->]. done.
Qed.

Lemma header_app (fs1 fs2 : list BaseFile.t) (h : gmap string Z) :
  foldl (λ h file, FileStack.update h (BaseFile.header file)) h (fs1 ++ fs2)
  = FileStack.update
      (foldl (λ h file, FileStack.update h (BaseFile.header file)) h fs1)
      (foldl (λ h file, FileStack.update h (BaseFile.header file)) ∅ fs2).
Proof.
  rewrite foldl_app.
  generalize (foldl (λ h file, FileStack.update h (BaseFile.header file)) h fs1) as h1.
  induction fs2 as [|f fs2 IH] using rev_ind; intros h1.
  - cbn. unfold FileStack.update. by rewrite (left_id_L ∅ (∪)).
  - rewrite !foldl_app. cbn [foldl]. rewrite IH. unfold FileStack.update.
    by rewrite (assoc_L (∪)).
Qed.

Lemma elem_of_columns (st : FileStack.t) (c : string) :
  FileStack.files st ≠ [] →
  c ∈ FileStack.columns st ↔ Forall (λ f, c ∈ BaseFile.columns f) (FileStack.files st).
Proof.
  unfold FileStack.columns. destruct (FileStack.files st) as [|f0 rest]; [done|].
  intros _. rewrite elem_of_List_filter, forallb_columns_Forall, Forall_cons. done.
Qed.

End concatenate_facts.

Lemma concatenate_other_comm (current : MPIComm.t)
    (others : list (FileStack.t * list (list Slice.t))) :
  Exists (λ f, MPIComm.id (BaseFile.mpicomm f) ≠ MPIComm.id current)
    (others.*1 ≫= FileStack.files) →
  FileStackOps.concatenate current others = Raise ValueError.
Proof.
  unfold FileStackOps.concatenate, FileStack.__init__. rewrite rmap_inl. cbn [mbind result_bind].
  intros Hex.
  destruct (forallb _ _) eqn:Hall; [|done].
  apply forallb_comm_Forall in Hall.
  apply Exists_exists in Hex as (f & Hf & Hne).
  by pose proof (proj1 (Forall_forall _ _) Hall f Hf).
Qed.

Lemma concatenate_unset (current : MPIComm.t)
    (others : list (FileStack.t * list (list Slice.t))) :
  Forall (λ f, MPIComm.id (BaseFile.mpicomm f) = MPIComm.id current)
    (others.*1 ≫= FileStack.files) →
  Forall (λ o, FileStack._slices o.1 = None) others →
  FileStackOps.concatenate current others
  = Ok {| FileStack.files := others.*1 ≫= FileStack.files;
          FileStack.mpicomm := current; FileStack.mpiroot := 0;
          FileStack._slices := None |}.
Proof.
  unfold FileStackOps.concatenate, FileStack.__init__. rewrite rmap_inl. cbn [mbind result_bind].
  intros Hall Hnone.
  rewrite (proj2 (forallb_comm_Forall current _) Hall). cbn [mbind result_bind].
  assert (existsb (λ o : FileStack.t * list (list Slice.t),
                     bool_decide (is_Some (FileStack._slices o.1))) others = false) as ->;
    [|done].
  clear Hall. induction Hnone as [|o others Ho _ IH]; [done|].
  cbn [existsb]. rewrite IH, Ho. by rewrite bool_decide_eq_false_2 by (by intros [? ?]).
Qed.

(** [concatenate] builds the new stack on the communicator that is
    current when it is called: files held on another communicator make
    it raise, even when all the stacks share that other communicator;
    stacks without partitions of their own give a stack without. *)
Theorem concatenate_needs_current_comm (current : MPIComm.t)
    (others : list (FileStack.t * list (list Slice.t))) :
  (Exists (λ f, MPIComm.id (BaseFile.mpicomm f) ≠ MPIComm.id current)
     (others.*1 ≫= FileStack.files) →
   FileStackOps.concatenate current others = Raise ValueError)
  ∧ (Forall (λ f, MPIComm.id (BaseFile.mpicomm f) = MPIComm.id current)
       (others.*1 ≫= FileStack.files) →
     Forall (λ o, FileStack._slices o.1 = None) others →
     FileStackOps.concatenate current others
     = Ok {| FileStack.files := others.*1 ≫= FileStack.files;
             FileStack.mpicomm := current; FileStack.mpiroot := 0;
             FileStack._slices := None |}).
Proof.
  split.
  - apply concatenate_other_comm.
  - apply concatenate_unset.
Qed.

Lemma concatenate_needs_current_comm_witness :
  FileStackOps.concatenate {| MPIComm.id := 1; MPIComm.rank := 0; MPIComm.size := 2 |}
    [(stack_of [shard_xy] 2 0, default_world 2 3); (stack_of [shard_x] 2 0, default_world 2 4)]
  = Raise ValueError
  ∧ FileStackOps.concatenate {| MPIComm.id := 0; MPIComm.rank := 0; MPIComm.size := 2 |}
      [(stack_of [shard_xy] 2 0, default_world 2 3); (stack_of [shard_x] 2 0, default_world 2 4)]
    = Ok (stack_of [shard_xy; shard_x] 2 0).
Proof.
  split.
  - apply (proj1 (concatenate_needs_current_comm _ _)).
    apply Exists_cons_hd. cbn. lia.
  - apply (proj2 (concatenate_needs_current_comm
                    {| MPIComm.id := 0; MPIComm.rank := 0; MPIComm.size := 2 |}
                    [(stack_of [shard_xy] 2 0, default_world 2 3);
                     (stack_of [shard_x] 2 0, default_world 2 4)])).
    + repeat constructor.
    + repeat constructor.
Defined.

Section composition.

Lemma header_bind (stacks : list FileStack.t) (comm : MPIComm.t) (root : Z)
    (sl : option (list Slice.t)) :
  FileStack.header {| FileStack.files := stacks ≫= FileStack.files;
                      FileStack.mpicomm := comm; FileStack.mpiroot := root;
                      FileStack._slices := sl |}
  = foldl (λ h st, FileStack.update h (FileStack.header st)) ∅ stacks.
Proof.
  unfold FileStack.header. cbn [FileStack.files].
  induction stacks as [|st stacks IH] using rev_ind; [done|].
  rewrite bind_app. cbn [mbind list_bind]. rewrite app_nil_r.
  rewrite header_app, IH, foldl_app. done.
Qed.

End composition.

Lemma header_unset (o : Cached.t) :
  Cached._header o = None → (Cached.header o).1 = FileStack.header (Cached.stack o).
Proof. unfold Cached.header. by intros ->. Qed.

(** The header and the columns of a concatenation come from those of
    the stacks, when these were not read on the stacks before (a stack
    that holds them in [_header] or [_columns] answers with what it
    holds): the headers are merged in the
    order of the stacks, a later one winning on a shared key, and the
    columns are those every stack with files has. *)
Theorem concatenate_header_columns (current : MPIComm.t)
    (others : list (Cached.t * list (list Slice.t))) (new : FileStack.t) :
  FileStackOps.concatenate current ((λ o, (Cached.stack o.1, o.2)) <$> others) = Ok new →
  (Forall (λ o, Cached._header o.1 = None) others →
   (Cached.header (Cached.fresh new)).1
   = foldl (λ h o, FileStack.update h (Cached.header o.1).1) ∅ others)
  ∧ (Forall (λ o, Cached._columns o.1 = None) others →
     FileStack.files new ≠ [] →
     ∀ c, c ∈ (Cached.columns (Cached.fresh new)).1
          ↔ ∀ o, o ∈ others → FileStack.files (Cached.stack o.1) ≠ [] →
                 c ∈ (Cached.columns o.1).1).
Proof.
  intros Hnew. apply concatenate_files in Hnew as (Hfiles & _ & _).
  rewrite <- list_fmap_compose in Hfiles.
  split.
  - intros Hunset. rewrite header_unset by done. cbn [Cached.fresh Cached.stack].
    transitivity (foldl (λ h st, FileStack.update h (FileStack.header st)) ∅
                    ((Cached.stack ∘ fst) <$> others)).
    + rewrite <- (header_bind _ (FileStack.mpicomm new) (FileStack.mpiroot new)
                   (FileStack._slices new)).
      unfold FileStack.header. cbn [FileStack.files]. by rewrite Hfiles.
    + clear Hfiles. generalize (∅ : gmap string Z) as h.
      induction Hunset as [|o others Ho _ IH]; intros h; [done|].
      rewrite fmap_cons. cbn [foldl]. rewrite IH. cbn [compose].
      by rewrite header_unset.
  - intros Hunset Hne c.
    rewrite (proj1 (columns_unset (Cached.fresh new) eq_refl)). cbn [Cached.fresh Cached.stack].
    rewrite elem_of_columns by done. rewrite Hfiles.
    rewrite Forall_forall. split.
    + intros Hall o Ho Hof.
      rewrite (proj1 (columns_unset o.1 (proj1 (Forall_forall _ _) Hunset o Ho))).
      apply elem_of_columns; [done|].
      apply Forall_forall. intros f Hf. apply Hall.
      apply list_elem_of_bind. exists (Cached.stack o.1). split; [done|].
      apply list_elem_of_fmap. by exists o.
    + intros Hall f Hf.
      apply list_elem_of_bind in Hf as (st & Hf & Hst).
      apply list_elem_of_fmap in Hst as (o & -> & Ho).
      cbn [compose fst] in Hf.
      assert (FileStack.files (Cached.stack o.1) ≠ []) as Hof.
      { intros Hnil. rewrite Hnil in Hf. by apply elem_of_nil in Hf. }
      specialize (Hall o Ho Hof).
      rewrite (proj1 (columns_unset o.1 (proj1 (Forall_forall _ _) Hunset o Ho))) in Hall.
      apply elem_of_columns in Hall; [|done].
      by apply (proj1 (Forall_forall _ _) Hall).
Qed.

Lemma concatenate_header_columns_witness :
  (Cached.header (Cached.fresh (stack_of [shard_h1; shard_h2] 1 0))).1
  = foldl (λ h o, FileStack.update h (Cached.header o.1).1) ∅
      [(Cached.fresh (stack_of [shard_h1] 1 0), default_world 1 0);
       (Cached.fresh (stack_of [shard_h2] 1 0), default_world 1 0)].
Proof.
  apply (proj1 (concatenate_header_columns
                  {| MPIComm.id := 0; MPIComm.rank := 0; MPIComm.size := 1 |}
                  [(Cached.fresh (stack_of [shard_h1] 1 0), default_world 1 0);
                   (Cached.fresh (stack_of [shard_h2] 1 0), default_world 1 0)]
                  (stack_of [shard_h1; shard_h2] 1 0) eq_refl)).
  repeat constructor.
Defined.

(** [extend] leaves the caches of [columns] and [header] as they were:
    a stack whose columns or header were read before it was extended
    goes on answering with the old value, while a stack on which they
    were not read answers for all its files. *)
Theorem extend_keeps_caches (current : MPIComm.t) (o other o' : Cached.t)
    (gathered gathered_other : list (list Slice.t)) :
  Cached.extend current o other gathered gathered_other = Ok o' →
  FileStack.files (Cached.stack o')
  = FileStack.files (Cached.stack o) ++ FileStack.files (Cached.stack other)
  ∧ (∀ c, Cached._columns o = Some c → (Cached.columns o').1 = c)
  ∧ (∀ h, Cached._header o = Some h → (Cached.header o').1 = h)
  ∧ (Cached._columns o = None →
     (Cached.columns o').1 = FileStack.columns (Cached.stack o'))
  ∧ (Cached._header o = None →
     (Cached.header o').1 = FileStack.header (Cached.stack o')).
Proof.
  unfold Cached.extend. intros H.
  destruct (FileStackOps.concatenate _ _) as [new|] eqn:Hnew; cbn in H; [|done].
  injection H as <-.
  apply concatenate_files in Hnew as (Hfiles & _ & _).
  cbn [fmap list_fmap fst mbind list_bind] in Hfiles. rewrite app_nil_r in Hfiles.
  cbn [Cached.stack FileStack.files]. split; [done|].
  unfold Cached.columns, Cached.header.
  cbn [Cached._columns Cached._header Cached.stack FileStack.files].
  repeat split.
  - by intros c ->.
  - by intros h ->.
  - intros ->. unfold FileStack.columns. cbn [FileStack.files].
    by destruct (FileStack.files new).
  - by intros ->.
Qed.

Lemma extend_keeps_caches_witness :
  ∃ o',
    Cached.extend {| MPIComm.id := 0; MPIComm.rank := 0; MPIComm.size := 2 |}
      (Cached.columns (Cached.fresh (stack_of [shard_xy] 2 0))).2
      (Cached.fresh (stack_of [shard_y] 2 0)) (default_world 2 3) (default_world 2 4)
    = Ok o'
    ∧ (Cached.columns o').1 = ["X"; "Y"]
    ∧ FileStack.columns (Cached.stack o') = ["Y"].
Proof.
  eexists. split; [reflexivity|]. split; [|reflexivity].
  refine (proj1 (proj2 (extend_keeps_caches
            {| MPIComm.id := 0; MPIComm.rank := 0; MPIComm.size := 2 |}
            (Cached.columns (Cached.fresh (stack_of [shard_xy] 2 0))).2
            (Cached.fresh (stack_of [shard_y] 2 0)) _
            (default_world 2 3) (default_world 2 4) _)) ["X"; "Y"] _); reflexivity.
Defined.

Section end_to_end.

Lemma gathered_read (fs : list BaseFile.t) (column : string) (P : Z) :
  1 ≤ P → P ≤ sumZ (BaseFile.csize <$> fs) → Forall (whole column) fs →
  rmap (λ r, FileStack.read (stack_of fs P r) column) (seqZ 0 P)
  = Ok ((λ r, share P (sumZ (BaseFile.csize <$> fs)) r (table fs column)) <$> seqZ 0 P).
Proof.
  intros HP HN Hwhole. apply rmap_ok, Forall_forall. intros r Hr.
  apply elem_of_seqZ in Hr.
  assert (r * sumZ (BaseFile.csize <$> fs) / P < (r + 1) * sumZ (BaseFile.csize <$> fs) / P)
    as Hne by (apply share_nonempty; lia).
  assert (0 ≤ r < P) as Hr' by lia.
  by destruct (read_shares (stack_of fs P r) column eq_refl Hwhole HP Hr' Hne) as [Hread _].
Qed.

Lemma rmap_ext {A B : Type} (f g : A → result B) (l : list A) :
  (∀ a, f a = g a) → rmap f l = rmap g l.
Proof. intros Hfg. induction l as [|a l IH]; [done|]. by rewrite !rmap_cons, Hfg, IH. Qed.

Lemma table_app (fa fb : list BaseFile.t) (column : string) :
  table (fa ++ fb) column = table fa column ++ table fb column.
Proof. unfold table. apply bind_app. Qed.

End end_to_end.

(** Reading the concatenation of two stacks gives, over the ranks, the
    rows of the first stack followed by those of the second: the
    results of the ranks laid end to end are those of the two stacks
    laid end to end. *)
Theorem concatenate_reads_end_to_end (fa fb : list BaseFile.t) (column : string) (P : Z) :
  let Na := sumZ (BaseFile.csize <$> fa) in
  let Nb := sumZ (BaseFile.csize <$> fb) in
  1 ≤ P → P ≤ Na → P ≤ Nb →
  Forall (whole column) (fa ++ fb) →
  Forall (λ f, MPIComm.id (BaseFile.mpicomm f) = 0%nat) (fa ++ fb) →
  ∃ pa pb pn,
    rmap (λ r, FileStack.read (stack_of fa P r) column) (seqZ 0 P) = Ok pa
    ∧ rmap (λ r, FileStack.read (stack_of fb P r) column) (seqZ 0 P) = Ok pb
    ∧ rmap (λ r, new ← FileStackOps.concatenate (FileStack.mpicomm (stack_of fa P r))
                         [(stack_of fa P r, default_world P Na);
                          (stack_of fb P r, default_world P Nb)];
                 FileStack.read new column) (seqZ 0 P) = Ok pn
    ∧ concat pn = concat pa ++ concat pb.
Proof.
  intros Na Nb HP HNa HNb Hwhole Hcomm.
  pose proof Hwhole as Hw. apply Forall_app in Hw as [Hwa Hwb].
  eexists _, _, _. split; [by apply gathered_read|]. split; [by apply gathered_read|].
  split.
  - transitivity (rmap (λ r, FileStack.read (stack_of (fa ++ fb) P r) column) (seqZ 0 P)).
    + apply rmap_ext. intros r.
      rewrite concatenate_unset.
      * cbn [mbind result_bind fmap list_fmap fst list_bind]. by rewrite app_nil_r.
      * cbn [fmap list_fmap fst mbind list_bind stack_of FileStack.files
               FileStack.mpicomm MPIComm.id]. by rewrite app_nil_r.
      * by repeat constructor.
    + apply gathered_read; [done| |done]. rewrite fmap_app, sumZ_app. fold Na Nb. lia.
  - rewrite fmap_app, sumZ_app. fold Na Nb.
    rewrite !shares_cover; try done.
    + apply table_app.
    + by apply length_table.
    + by apply length_table.
    + rewrite length_table by done. by rewrite fmap_app, sumZ_app.
Qed.

Lemma concatenate_reads_end_to_end_witness :
  ∃ pa pb pn,
    rmap (λ r, FileStack.read (stack_of [shard_xy] 2 r) "X") (seqZ 0 2) = Ok pa
    ∧ rmap (λ r, FileStack.read (stack_of [shard_x] 2 r) "X") (seqZ 0 2) = Ok pb
    ∧ rmap (λ r, new ← FileStackOps.concatenate (FileStack.mpicomm (stack_of [shard_xy] 2 r))
                         [(stack_of [shard_xy] 2 r, default_world 2 3);
                          (stack_of [shard_x] 2 r, default_world 2 4)];
                 FileStack.read new "X") (seqZ 0 2) = Ok pn
    ∧ concat pn = concat pa ++ concat pb.
Proof.
  apply (concatenate_reads_end_to_end [shard_xy] [shard_x] "X" 2).
  - lia.
  - cbn. lia.
  - cbn. lia.
  - apply whole_shards.
  - repeat constructor.
Defined.

Section forward_pieces.

Lemma to_array_forward (a b : Z) :
  a ≤ b → Slice.to_array (Slice.Range a b 1) = progression a 1 (b - a).
Proof.
  intros Hab. cbn [Slice.to_array]. rewrite range_list_unit by done.
  by rewrite progression_unit.
Qed.



End forward_pieces.

Section forward_cslice.





End forward_cslice.

Lemma read_range (st : FileStack.t) (column : string) (lo hi : Z) :
  Forall (whole column) (FileStack.files st) →
  0 ≤ lo → lo < hi → hi ≤ FileStack.cfilesize st →
  FileStack.read (FileStack.set_slices st (Some [Slice.Range lo hi 1])) column
  = Ok (between (table (FileStack.files st) column) lo hi).
Proof.
  intros Hwhole Hlo Hlt Hhi.
  pose proof (whole_nonneg column _ Hwhole) as Hfs.
  replace (between (table (FileStack.files st) column) lo hi)
    with (concat [between (table (FileStack.files st) column) lo hi])
    by (cbn; apply app_nil_r).
  apply read_runs.
  - done.
  - unfold FileStack.slices. cbn [FileStack.set_slices FileStack._slices FileStack.files].
    constructor; [|constructor]. split.
    + split; [done|]. exists lo, 1, (hi - lo). split; [by left|]. split; [lia|].
      by apply to_array_forward; lia.
    + rewrite to_array_forward by lia. unfold between.
      apply cells_forward; try done; try lia.
      unfold FileStack.cfilesize, FileStack.filesizes in Hhi. lia.
  - cbn. rewrite app_nil_r. intros Hnil.
    apply (f_equal length) in Hnil. unfold between in Hnil.
    rewrite length_take, length_drop in Hnil.
    pose proof (length_table column _ Hwhole).
    unfold FileStack.cfilesize, FileStack.filesizes in Hhi. cbn in Hnil. lia.
Qed.



Section rebalancing.






End rebalancing.

Lemma read_ext (st1 st2 : FileStack.t) (column : string) :
  FileStack.files st1 = FileStack.files st2 →
  FileStack.slices st1 = FileStack.slices st2 →
  FileStack.read st1 column = FileStack.read st2 column.
Proof.
  intros Hf Hs. unfold FileStack.read, FileStack.fileslices, FileStack.filesizes.
  rewrite Hf, Hs. f_equal. apply rmap_ext. intros so.
  unfold FileStack.read_slice. by rewrite Hf.
Qed.

Section default_stacks.

Context (a b : FileStack.t).

Let comm := FileStack.mpicomm a.
Let P := MPIComm.size comm.
Let r := MPIComm.rank comm.
Let Na := FileStack.cfilesize a.
Let Nb := FileStack.cfilesize b.

Hypothesis Hids :
  Forall (λ f, MPIComm.id (BaseFile.mpicomm f) = MPIComm.id comm)
    (FileStack.files a ++ FileStack.files b).
Hypothesis HP : 1 ≤ P.
Hypothesis Hr : 0 ≤ r < P.
Hypothesis HNa : 0 ≤ Na.
Hypothesis HNb : 0 ≤ Nb.
Hypothesis Hne : r * (Na + Nb) / P < (r + 1) * (Na + Nb) / P.


End default_stacks.



Section balance.

Lemma share_bounds (P N r : Z) :
  1 ≤ P → N / P ≤ (r + 1) * N / P - r * N / P ≤ N / P + 1.
Proof.
  intros HP.
  pose proof (Z.div_mod (r * N) P ltac:(lia)) as H1.
  pose proof (Z.mod_pos_bound (r * N) P ltac:(lia)) as H2.
  pose proof (Z.div_mod N P ltac:(lia)) as H3.
  pose proof (Z.mod_pos_bound N P ltac:(lia)) as H4.
  replace ((r + 1) * N) with ((r * N) mod P + N mod P + (r * N / P + N / P) * P) by lia.
  rewrite Z.div_add by lia.
  assert (0 ≤ ((r * N) mod P + N mod P) / P ≤ 1); [|lia].
  split.
  - apply Z.div_pos; lia.
  - assert (((r * N) mod P + N mod P) / P < 2); [|lia].
    apply Z.div_lt_upper_bound; lia.
Qed.

End balance.

(** The default partitions are balanced: the sizes of two ranks differ
    by one row at most, they add up to the rows of the files, and the
    sizes [write] gives the files are balanced in the same way. *)
Theorem default_shares_balanced (st : FileStack.t) (sizes : list Z) :
  let P := MPIComm.size (FileStack.mpicomm st) in
  let N := FileStack.cfilesize st in
  1 ≤ P → 0 ≤ N → FileStack._slices st = None →
  (N / P ≤ FileStack.size st ≤ N / P + 1)
  ∧ csize_of (default_world P N) = N
  ∧ Forall (λ c, sumZ sizes / Z.of_nat (length (FileStack.files st)) ≤ c
                 ≤ sumZ sizes / Z.of_nat (length (FileStack.files st)) + 1)
      (FileStack.filesizes (FileStack.write st sizes).1).
Proof.
  intros P N HP HN Hnone. split; [|split].
  - unfold FileStack.size, FileStack.slices. rewrite Hnone. fold P N.
    cbn [fmap list_fmap sumZ foldr]. rewrite Z.add_0_r.
    unfold default_slice.
    pose proof (share_bounds P N (MPIComm.rank (FileStack.mpicomm st)) HP).
    rewrite size_unit_range; [lia|].
    apply floor_step_mono; lia.
  - by apply default_world_csize.
  - rewrite write_filesizes. apply Forall_fmap, Forall_forall. intros i Hi.
    apply elem_of_seqZ in Hi. cbn. apply share_bounds. lia.
Qed.

Lemma default_shares_balanced_witness :
  (7 / 2 ≤ FileStack.size (stack_of [shard_xy; shard_x] 2 1) ≤ 7 / 2 + 1)
  ∧ csize_of (default_world 2 7) = 7
  ∧ Forall (λ c, 7 / 2 ≤ c ≤ 7 / 2 + 1)
      (FileStack.filesizes (FileStack.write (stack_of [shard_xy; shard_x] 2 1) [3; 4]).1).
Proof.
  apply (default_shares_balanced (stack_of [shard_xy; shard_x] 2 1) [3; 4]).
  - cbn. lia.
  - by vm_compute.
  - reflexivity.
Defined.

(** With no extension given, the header of a FITS file is read from the
    first extension that has data: if that one is an image the read
    fails, whatever follows it; on success the extension read has data,
    is no image, and gives the rows and the names. *)
Theorem fits_reads_first_extension (file : list Fits.HDU) :
  (∀ before hdu after,
     file = before ++ hdu :: after →
     Forall (λ h, Fits.has_data h = false) before →
     Fits.has_data hdu = true →
     Fits._read_header_root file None
     = if Fits.is_image hdu then Raise IOError
       else Ok (Header.fits_root (Fits.nrows hdu) (Fits.names hdu) (Fits.header hdu)
                  (Z.of_nat (length before))))
  ∧ (Forall (λ h, Fits.has_data h = false) file →
     Fits._read_header_root file None = Raise IOError)
  ∧ (∀ e, (length file ≤ e)%nat → Fits._read_header_root file (Some e) = Raise IOError)
  ∧ (∀ ext state,
       Fits._read_header_root file ext = Ok state →
       ∃ i hdu, file !! i = Some hdu
                ∧ Fits.has_data hdu = true ∧ Fits.is_image hdu = false
                ∧ state = Header.fits_root (Fits.nrows hdu) (Fits.names hdu)
                            (Fits.header hdu) (Z.of_nat i)).
Proof.
  unfold Fits._read_header_root. split; [|split; [|split]].
  - intros before hdu after -> Hbefore Hdata.
    assert (list_find (λ h, Fits.has_data h = true) (before ++ hdu :: after)
            = Some (length before, hdu)) as ->.
    { apply list_find_Some. split; [|split; [done|]].
      - by rewrite lookup_app_r, Nat.sub_diag by done.
      - intros j h Hj Hlt. rewrite lookup_app_l in Hj by done.
        apply list_elem_of_lookup_2 in Hj.
        rewrite (proj1 (Forall_forall _ _) Hbefore h Hj). done. }
    cbn [mbind result_bind]. unfold item.
    rewrite lookup_app_r, Nat.sub_diag by done. cbn [lookup list_lookup mbind result_bind].
    rewrite Hdata. by destruct (Fits.is_image hdu).
  - intros Hnone.
    assert (list_find (λ h, Fits.has_data h = true) file = None) as ->; [|done].
    apply list_find_None. eapply Forall_impl; [exact Hnone|].
    intros h ->. done.
  - intros e He. by rewrite (proj2 (Nat.leb_le _ _) He).
  - intros ext state H.
    assert (∃ i, (match ext with
                  | None => match list_find (λ hdu, Fits.has_data hdu = true) file with
                            | Some (i, _) => Ok i
                            | None => Raise IOError
                            end
                  | Some e => if (length file <=? e)%nat then Raise IOError else Ok e
                  end) = Ok i) as [i Hi].
    { destruct ext as [e|].
      - destruct (length file <=? e)%nat; [done|by exists e].
      - destruct (list_find _ file) as [[i ?]|]; [by exists i|done]. }
    rewrite Hi in H. cbn [mbind result_bind] in H. unfold item in H.
    destruct (file !! i) as [hdu|] eqn:Hhdu; cbn [mbind result_bind] in H; [|done].
    destruct (Fits.has_data hdu) eqn:Hd, (Fits.is_image hdu) eqn:Him; cbn in H; try done.
    injection H as <-. by exists i, hdu.
Qed.

Lemma fits_reads_first_extension_witness :
  Fits._read_header_root [image_hdu; table_hdu] None = Raise IOError
  ∧ Fits._read_header_root [image_hdu; table_hdu] (Some 1%nat)
    = Ok (Header.fits_root 3 ["X"] ∅ 1).
Proof.
  split.
  - apply (proj1 (fits_reads_first_extension [image_hdu; table_hdu]) [] image_hdu [table_hdu]).
    + reflexivity.
    + constructor.
    + reflexivity.
  - destruct (proj2 (proj2 (proj2 (fits_reads_first_extension [image_hdu; table_hdu])))
                (Some 1%nat) (Header.fits_root 3 ["X"] ∅ 1) eq_refl)
      as (i & hdu & _ & _ & _ & _).
    reflexivity.
Defined.

Section sorting_keys.

Lemma insert_key_perm (x : Z * nat) (l : list (Z * nat)) : insert_key x l ≡ₚ x :: l.
Proof.
  induction l as [|y l IH]; [done|]. simpl.
  destruct (x.1 <=? y.1); [done|]. rewrite IH. apply Permutation_swap.
Qed.

Lemma sort_key_perm (l : list (Z * nat)) : foldr insert_key [] l ≡ₚ l.
Proof.
  induction l as [|x l IH]; [done|]. simpl. by rewrite insert_key_perm, IH.
Qed.

Lemma insert_key_sorted (x : Z * nat) (l : list (Z * nat)) :
  StronglySorted (λ a b, a.1 ≤ b.1) l →
  StronglySorted (λ a b, a.1 ≤ b.1) (insert_key x l).
Proof.
  induction 1 as [|y l Hs IH Hy]; simpl.
  - repeat constructor.
  - destruct (Z.leb_spec x.1 y.1).
    + constructor; [by constructor|]. constructor; [done|].
      eapply Forall_impl; [exact Hy|]. intros z. simpl. lia.
    + constructor; [done|].
      rewrite insert_key_perm. constructor; [lia|done].
Qed.

Lemma sort_key_sorted (l : list (Z * nat)) :
  StronglySorted (λ a b, a.1 ≤ b.1) (foldr insert_key [] l).
Proof.
  induction l as [|x l IH]; [constructor|]. simpl. by apply insert_key_sorted.
Qed.

Lemma seqZ_sorted (m n : Z) : StronglySorted Z.le (seqZ m n).
Proof.
  destruct (decide (0 ≤ n)) as [Hn|Hn]; [|rewrite seqZ_nil by lia; constructor].
  rewrite <- (Z2Nat.id n) by done. generalize (Z.to_nat n). clear. intros n.
  revert m. induction n as [|n IH]; intros m; [constructor|].
  rewrite seqZ_cons by lia. replace (Z.pred (Z.of_nat (S n))) with (Z.of_nat n) by lia.
  constructor; [apply IH|].
  apply Forall_forall. intros x Hx. apply elem_of_seqZ in Hx. lia.
Qed.

Lemma lookup_zip_seq {A : Type} (l : list A) (j : nat) (x : A) (i : nat) :
  (x, i) ∈ zip l (seq j (length l)) → l !! (i - j)%nat = Some x ∧ (j ≤ i)%nat.
Proof.
  revert j. induction l as [|a l IH]; intros j; simpl.
  - by intros ?%elem_of_nil.
  - intros [[= -> ->]|Hin]%elem_of_cons.
    + by rewrite Nat.sub_diag.
    + apply IH in Hin as [Hl Hj].
      replace (i - j)%nat with (S (i - S j)) by lia. split; [done|lia].
Qed.

(** Sorting the keys [0 .. n-1], in whatever order they come, brings
    the value that goes with key [k] to place [k]. *)
Lemma argsort_inverts {V : Type} (ks : list Z) (vals out : list V) :
  ks ≡ₚ seqZ 0 (Z.of_nat (length out)) →
  Forall2 (λ k v, 0 ≤ k ∧ out !! Z.to_nat k = Some v) ks vals →
  rmap (item vals) (argsort ks) = Ok out.
Proof.
  intros Hperm Hvals. unfold argsort.
  set (S := foldr insert_key [] (zip ks (seq 0 (length ks)))).
  assert (S ≡ₚ zip ks (seq 0 (length ks))) as HS by apply sort_key_perm.
  assert (S.*1 = seqZ 0 (Z.of_nat (length out))) as Hkeys.
  { apply (StronglySorted_unique Z.le).
    - apply StronglySorted_fmap with (R1 := λ a b : Z * nat, a.1 ≤ b.1); [done|].
      apply sort_key_sorted.
    - apply seqZ_sorted.
    - rewrite HS, fst_zip by (rewrite length_seq; lia). done. }
  assert (Forall2 (λ (ki : Z * nat) v, item vals ki.2 = Ok v) S out) as Hall.
  { apply Forall2_same_length_lookup. split.
    - rewrite <- (length_fmap fst S), Hkeys, length_seqZ. lia.
    - intros t [k i] v HSt Hout. simpl.
      assert (k = Z.of_nat t) as ->.
      { assert (S.*1 !! t = Some k) as Hk by (by rewrite list_lookup_fmap, HSt).
        rewrite Hkeys in Hk. apply lookup_seqZ in Hk. lia. }
      assert ((Z.of_nat t, i) ∈ zip ks (seq 0 (length ks))) as Hin.
      { rewrite <- HS. by eapply list_elem_of_lookup_2. }
      apply lookup_zip_seq in Hin as [Hi _]. rewrite Nat.sub_0_r in Hi.
      destruct (Forall2_lookup_l _ _ _ _ _ Hvals Hi) as (v' & Hv' & _ & Hv).
      rewrite Nat2Z.id, Hout in Hv. injection Hv as <-.
      unfold item. by rewrite Hv'. }
  clearbody S. clear -Hall.
  induction Hall as [|[k i] v S out Hv _ IH]; [done|].
  rewrite fmap_cons, rmap_cons. simpl in *. by rewrite Hv, IH.
Qed.

End sorting_keys.

Section index_overlaps.

Lemma keys_in_empty (lo hi k : Z) (idx : list Z) : hi ≤ lo → keys_in lo hi k idx = [].
Proof.
  intros H. revert k. induction idx as [|p idx IH]; intros k; [done|]. simpl.
  rewrite bool_decide_eq_false_2 by lia. apply IH.
Qed.

Lemma keys_in_all (lo hi k : Z) (idx : list Z) :
  Forall (λ p, lo ≤ p < hi) idx → keys_in lo hi k idx = seqZ k (Z.of_nat (length idx)).
Proof.
  intros H. revert k. induction H as [|p idx Hp _ IH]; intros k; [done|].
  simpl keys_in. rewrite bool_decide_eq_true_2 by done.
  rewrite seqZ_cons by (simpl; lia). rewrite IH. simpl. do 2 f_equal; lia.
Qed.

Lemma keys_in_split (lo mid hi k : Z) (idx : list Z) :
  lo ≤ mid ≤ hi →
  keys_in lo mid k idx ++ keys_in mid hi k idx ≡ₚ keys_in lo hi k idx.
Proof.
  intros H. revert k. induction idx as [|p idx IH]; intros k; [done|]. simpl.
  repeat case_bool_decide; try lia; simpl.
  - by rewrite IH.
  - rewrite <- Permutation_middle. by rewrite IH.
  - apply IH.
Qed.

Lemma matches_keys (s m k : Z) (idx : list Z) :
  0 ≤ m → (Slice.matches (seqZ s m) k idx).*2 = keys_in s (s + m) k idx.
Proof.
  intros Hm. revert k. induction idx as [|p idx IH]; intros k; [done|].
  simpl. rewrite index_of_window by done.
  case_bool_decide; simpl; by rewrite IH.
Qed.

Lemma matches_cells (s m k : Z) (idx : list Z) :
  0 ≤ m →
  Forall (λ jk, 0 ≤ jk.1 < m ∧ k ≤ jk.2
                ∧ idx !! Z.to_nat (jk.2 - k) = Some (s + jk.1))
    (Slice.matches (seqZ s m) k idx).
Proof.
  intros Hm. revert k. induction idx as [|p idx IH]; intros k; [constructor|].
  simpl. rewrite index_of_window by done.
  assert (Forall (λ jk, 0 ≤ jk.1 < m ∧ k ≤ jk.2
                        ∧ (p :: idx) !! Z.to_nat (jk.2 - k) = Some (s + jk.1))
            (Slice.matches (seqZ s m) (k + 1) idx)) as Hrest.
  { eapply Forall_impl; [apply IH|]. intros [j k'] (Hj & Hk & Hl). simpl in *.
    split; [done|]. split; [lia|].
    replace (Z.to_nat (k' - k)) with (Datatypes.S (Z.to_nat (k' - (k + 1)))) by lia. done. }
  case_bool_decide; [|done]. constructor; [|done]. simpl.
  split; [lia|]. split; [lia|]. rewrite Z.sub_diag. simpl. f_equal. lia.
Qed.

Lemma find_indices (s m : Z) (idx : list Z) :
  0 ≤ m →
  Slice.find (Slice.Range s (s + m) 1) (Slice.Indices idx)
  = (Slice.Indices (Slice.matches (seqZ s m) 0 idx).*1,
     Slice.Indices (Slice.matches (seqZ s m) 0 idx).*2).
Proof.
  intros Hm. unfold Slice.find. cbn [Slice.to_array Slice.is_array orb Slice.pack].
  rewrite range_list_unit by lia. by replace (s + m - s) with m by lia.
Qed.

End index_overlaps.

Section index_reads.

Lemma rmap_Forall2 {A B : Type} (f : A → result B) (l : list A) (out : list B) :
  Forall2 (λ a b, f a = Ok b) l out → rmap f l = Ok out.
Proof.
  induction 1 as [|a b l out Hab _ IH]; [done|]. by rewrite rmap_cons, Hab, IH.
Qed.

Lemma rmap_split {A B : Type} (f : A → result B) (l1 l2 : list A) (out : list B) :
  rmap f (l1 ++ l2) = Ok out →
  ∃ o1 o2, rmap f l1 = Ok o1 ∧ rmap f l2 = Ok o2 ∧ out = o1 ++ o2.
Proof.
  revert out. induction l1 as [|a l1 IH]; intros out H.
  - exists [], out. done.
  - rewrite <- app_comm_cons in H. rewrite rmap_cons in H |- *.
    destruct (f a) as [b|e]; [|done]. simpl in *.
    destruct (rmap f (l1 ++ l2)) as [bs|e] eqn:E; [|done]. simpl in H.
    injection H as <-. destruct (IH bs eq_refl) as (o1 & o2 & -> & H2 & ->).
    exists (b :: o1), o2. done.
Qed.

Lemma rmap_concat {A B : Type} (f : A → result B) (ls : list (list A)) (out : list B) :
  rmap f (concat ls) = Ok out →
  ∃ outs, rmap (rmap f) ls = Ok outs ∧ concat outs = out.
Proof.
  revert out. induction ls as [|l ls IH]; intros out H.
  - injection H as <-. by exists [].
  - simpl in H. apply rmap_split in H as (o1 & o2 & H1 & H2 & ->).
    destruct (IH o2 H2) as (outs & Houts & <-).
    exists (o1 :: outs). by rewrite rmap_cons, H1, Houts.
Qed.

Lemma hdf5_idx_getitems (col idx : list Z) :
  Forall (λ i, 0 ≤ i < Z.of_nat (length col)) idx →
  Reader.hdf5 col (Reader.Idx idx) = Py.getitems col idx.
Proof.
  intros Hidx.
  destruct (getitems_rows col idx Hidx) as (vs & -> & Hvs).
  unfold Reader.hdf5.
  destruct (getitems_rows col (Py.unique idx)) as (sub & -> & Hsub).
  { apply Forall_forall. intros i Hi. apply (proj1 (elem_of_unique _ _)) in Hi.
    by apply (proj1 (Forall_forall _ _) Hidx i). }
  cbn [mbind result_bind].
  pose proof (unique_inverse_lookup idx) as Hinv.
  destruct (getitems_rows sub (Py.unique_inverse idx)) as (ws & -> & Hws).
  { apply Forall_forall. intros j Hj.
    apply list_elem_of_lookup_1 in Hj as [k Hk].
    destruct (Forall2_lookup_r _ _ _ _ _ Hinv Hk) as (v & _ & Hj0 & Hu).
    apply lookup_lt_Some in Hu. rewrite <- (Forall2_length _ _ _ Hsub). lia. }
  f_equal.
  apply (list_eq_Forall2 ws vs), Forall2_same_length_lookup.
  split.
  - rewrite <- (Forall2_length _ _ _ Hws), <- (Forall2_length _ _ _ Hvs).
    symmetry. apply (Forall2_length _ _ _ Hinv).
  - intros k w v Hw Hv.
    destruct (Forall2_lookup_r _ _ _ _ _ Hws Hw) as (j & Hj & Hjw).
    destruct (Forall2_lookup_r _ _ _ _ _ Hvs Hv) as (i & Hi & Hiv).
    destruct (Forall2_lookup_l _ _ _ _ _ Hinv Hi) as (j' & Hj' & _ & Hu).
    assert (j' = j) as -> by congruence.
    destruct (Forall2_lookup_r _ _ _ _ _ Hsub Hjw) as (u & Hu' & Huw).
    congruence.
Qed.

(** The reader of a format that declares ['index'] returns the rows
    of an index array in the order of the array. *)
Lemma reader_idx_rows (FT : FileType) (read : list Z → Reader.Rows → result (list Z))
    (col idx : list Z) :
  BaseFile.reader FT = Some read → "index" ∈ _type_read_rows FT →
  Forall (λ i, 0 ≤ i < Z.of_nat (length col)) idx →
  ∃ vs, read col (Reader.Idx idx) = Ok vs ∧ rows_at col idx vs.
Proof.
  intros Hread Hdecl Hidx.
  destruct (getitems_rows col idx Hidx) as (vs & Hvs & Hrows).
  assert (rows_at col idx vs) as Hat.
  { unfold rows_at. eapply Forall2_impl_in; [exact Hrows|].
    intros i v Hi Hv. split; [|done].
    by apply (proj1 (Forall_forall _ _) Hidx i). }
  assert (∀ FT', FT = FT' → "index" ∉ _type_read_rows FT' → False) as Hno.
  { intros FT' <-. done. }
  apply reader_cases in Hread.
  destruct Hread as [[E ->]|[[E ->]|[[E ->]|[[E ->]|[E ->]]]]].
  - destruct (Hno _ E). cbn. by intros ?%list_elem_of_singleton.
  - exists vs. by rewrite hdf5_idx_getitems.
  - by exists vs.
  - destruct (Hno _ E). cbn. by intros ?%list_elem_of_singleton.
  - destruct (Hno _ E). cbn. by intros ?%list_elem_of_singleton.
Qed.

Lemma runs_nonempty (l : list Z) : Forall (λ r, r ≠ []) (Slice.runs l).
Proof.
  induction l as [|x l IH]; [constructor|]. simpl.
  destruct (Slice.runs l) as [|r rs]; [by repeat constructor|].
  apply Forall_cons in IH as [Hr Hrs].
  case_bool_decide; [by constructor|]. constructor; [done|]. by constructor.
Qed.

(** The range that stands for a run. *)
Lemma to_range_shape (r : list Z) (sl : Slice.t) :
  r ≠ [] → Slice.to_range r = Some sl →
  ∃ a d n, d ≠ 0 ∧ 1 ≤ n ∧ r = progression a d n ∧ sl = Slice.Range a (a + n * d) d.
Proof.
  destruct r as [|a [|b r]]; [done| |]; intros _.
  - intros [= <-]. exists a, 1, 1. split; [done|]. split; [done|].
    rewrite progression_cons, progression_nil by lia. split; [done|]. f_equal; lia.
  - cbn [Slice.to_range]. case_bool_decide as Hl; [|done]. intros [= <-].
    set (n := Z.of_nat (length (a :: b :: r))) in *.
    assert (2 ≤ n) as Hn by (unfold n; cbn [length]; lia).
    assert (b - a ≠ 0) as Hd.
    { intros Hd. rewrite Hd in Hl. unfold Slice.range_list, Slice.range_size in Hl.
      cbn in Hl. done. }
    exists a, (b - a), n. split; [done|]. split; [lia|]. split; [|done].
    rewrite Hl at 1. apply range_list_progression; [done|lia].
Qed.

Lemma rows_at_app (col ps1 ps2 vs1 vs2 : list Z) :
  rows_at col ps1 vs1 → rows_at col ps2 vs2 → rows_at col (ps1 ++ ps2) (vs1 ++ vs2).
Proof. apply Forall2_app. Qed.

(** A file of a format other than [FitsFile] reads the rows of an
    index array in the order of the array, whether its reader takes
    index arrays or ranges only.  (The reader of [FitsFile] asks the
    library for every row up to the stop of a range, which for a run
    of a stride above one may lie past the last row.) *)
Lemma BaseFile_read_indices (f : BaseFile.t) (column : string) (js vs : list Z) :
  js ≠ [] → whole column f →
  BaseFile.cls f ≠ FitsFile (importable (BaseFile.cls f)) →
  Forall2 (λ j v, file_cell f column j = Some v) js vs →
  BaseFile.read f column (Slice.Indices js) = Ok vs.
Proof.
  intros Hne (Hr & col & Hcol & Hlen) Hfits Hcells.
  assert (rows_at col js vs) as Hrows.
  { eapply Forall2_impl; [exact Hcells|].
    intros p v Hv. apply file_cell_inv in Hv as (_ & Hp & col' & Hcol' & Hv).
    rewrite Hcol in Hcol'. injection Hcol' as <-. split; [lia|done]. }
  assert (Forall (λ p, 0 ≤ p < Z.of_nat (length col)) js) as Hin.
  { apply Forall_forall. intros p Hp. apply list_elem_of_lookup in Hp as [i Hi].
    destruct (Forall2_lookup_l _ _ _ _ _ Hrows Hi) as (v & _ & H0 & Hv).
    apply lookup_lt_Some in Hv. lia. }
  unfold BaseFile.read, BaseFile.read_pieces.
  cbn [Slice.with_size Slice.is_array]. case_bool_decide as Hdecl.
  - rewrite rmap_cons. unfold BaseFile._read_rows.
    destruct Hr as [read Hread]. rewrite Hread, Hcol. cbn [Slice.idx].
    destruct (reader_idx_rows _ read col js Hread Hdecl Hin) as (vs' & -> & Hvs').
    rewrite (rows_at_functional _ _ _ _ Hvs' Hrows).
    cbn [rmap mbind result_bind concatenate concat]. by rewrite app_nil_r.
  - assert (BaseFile.cls f ≠ HDF5File (importable (BaseFile.cls f))) as Hhdf5.
    { intros E. apply Hdecl. rewrite E. cbn. by right; left. }
    unfold Slice.to_slices. cbn [Slice.to_array].
    assert (∃ outs, rmap (BaseFile._read_rows f column) (Slice.pack false <$> Slice.runs js)
                    = Ok outs
                    ∧ rows_at col (concat (Slice.runs js)) (concat outs)
                    ∧ length outs = length (Slice.runs js)) as (outs & -> & Houts & Hl).
    { pose proof (runs_nonempty js) as Hnonempty.
      pose proof (runs_progressions js) as Hprog.
      assert (Forall (λ p, 0 ≤ p < Z.of_nat (length col)) (concat (Slice.runs js))) as Hin'
        by (by rewrite runs_concat).
      clear Hrows Hcells Hne. revert Hnonempty Hprog Hin'.
      induction (Slice.runs js) as [|r rs IH]; intros Hnonempty Hprog Hin'.
      { exists []. split; [done|]. split; [constructor|done]. }
      apply Forall_cons in Hnonempty as [Hr0 Hnonempty].
      apply Forall_cons in Hprog as [[sl Hsl] Hprog].
      cbn [concat] in Hin'. apply Forall_app in Hin' as [Hinr Hinrs].
      destruct (IH Hnonempty Hprog Hinrs) as (outs & Houts & Hrows & Hl).
      destruct (to_range_shape r sl Hr0 Hsl) as (a & d & n & Hd & Hn & -> & ->).
      destruct (read_rows_range f column col a (a + n * d) d n Hr Hcol Hd Hn)
        as (o & Ho & Horows).
      - intros k Hk. apply (proj1 (Forall_forall _ _) Hinr).
        apply elem_of_progression. exists k. split; [done|lia].
      - destruct (Z.ltb_spec 0 d); lia.
      - by right.
      - by right; right.
      - exists (o :: outs). rewrite fmap_cons, rmap_cons.
        assert (Slice.pack false (progression a d n) = Slice.Range a (a + n * d) d) as ->
          by (unfold Slice.pack; by rewrite Hsl).
        rewrite Ho. cbn [mbind result_bind].
        rewrite Houts. cbn [mbind result_bind concat length]. split; [done|].
        split; [by apply rows_at_app|]. by rewrite Hl. }
    rewrite runs_concat in Houts.
    pose proof (rows_at_functional _ _ _ _ Houts Hrows) as Heq.
    cbn [mbind result_bind]. unfold concatenate. destruct outs as [|o outs].
    + destruct (Slice.runs js) eqn:E; [|done].
      pose proof (runs_concat js) as Hc. rewrite E in Hc. by destruct js.
    + by rewrite Heq.
Qed.

End index_reads.

Section index_hits.

Context (column : string) (idx vs : list Z) (cell : Z → option Z).
Hypothesis Hcells : Forall2 (λ p v, cell p = Some v) idx vs.

Lemma Forall_choice {A B : Type} (P : A → B → Prop) (l : list A) :
  Forall (λ a, ∃ b, P a b) l → ∃ k, Forall2 P l k.
Proof.
  induction 1 as [|a l [b Hb] _ [k IH]]; [by exists []|].
  exists (b :: k). by constructor.
Qed.

Lemma hits_indices (fs : list BaseFile.t) (off : Z) :
  Forall (indexable column) fs →
  (∀ p, off ≤ p → table_cell fs column (p - off) = cell p) →
  let hits := hits_from off fs (Slice.Indices idx) in
  let ks := concat (Slice.to_array <$> ((λ fp, fp.2.2) <$> hits)) in
  ∃ tmp,
    rmap (λ fp, BaseFile.read fp.1 column fp.2.1) hits = Ok tmp
    ∧ Forall2 (λ k v, 0 ≤ k ∧ vs !! Z.to_nat k = Some v) ks (concat tmp)
    ∧ ks ≡ₚ keys_in off (off + sumZ (BaseFile.csize <$> fs)) 0 idx.
Proof.
  intros Hfs. revert off. induction Hfs as [|f fs [Hw Hnf] Hfs' IH]; intros off Hoff.
  - exists []. split; [done|]. split; [constructor|].
    simpl. by rewrite keys_in_empty by (simpl; lia).
  - assert (0 ≤ BaseFile.csize f) as Hf.
    { destruct Hw as (_ & col & _ & Hlen). lia. }
    assert (Forall (λ f, 0 ≤ BaseFile.csize f) fs) as Hfs.
    { apply (whole_nonneg column). eapply Forall_impl; [exact Hfs'|]. by intros ? [? _]. }
    cbv zeta. rewrite hits_from_cons. set (m := BaseFile.csize f) in *.
    rewrite find_indices by done. cbv zeta. cbn [fst snd].
    set (M := Slice.matches (seqZ off m) 0 idx).
    destruct (IH (off + m)) as (tmp & Htmp & Hvals & Hperm).
    { intros p Hp. rewrite <- Hoff by lia.
      rewrite table_cell_there by (fold m; lia). fold m. f_equal. lia. }
    cbv zeta in Htmp, Hvals, Hperm.
    rewrite fmap_cons, sumZ_cons.
    assert (keys_in off (off + m) 0 idx ++ keys_in (off + m) (off + m + sumZ (BaseFile.csize <$> fs)) 0 idx
            ≡ₚ keys_in off (off + (m + sumZ (BaseFile.csize <$> fs))) 0 idx) as Hsplit.
    { rewrite Z.add_assoc. apply keys_in_split.
      pose proof (sumZ_nonneg (BaseFile.csize <$> fs)) as Hs.
      rewrite Forall_fmap in Hs. specialize (Hs Hfs). lia. }
    rewrite <- (matches_keys off m 0 idx Hf) in Hsplit. fold M in Hsplit.
    destruct (Slice.nonempty (Slice.Indices M.*1)) eqn:Hne.
    + assert (∃ vsf, Forall2 (λ jk v, file_cell f column jk.1 = Some v
                                     ∧ 0 ≤ jk.2 ∧ vs !! Z.to_nat jk.2 = Some v) M vsf)
        as [vsf Hvsf].
      { apply Forall_choice. eapply Forall_impl; [apply (matches_cells off m 0 idx Hf)|].
        fold M. intros [j k] (Hj & Hk & Hl). simpl in *.
        rewrite Z.sub_0_r in Hl.
        destruct (Forall2_lookup_l _ _ _ _ _ Hcells Hl) as (v & Hv & Hc).
        exists v. split; [|done].
        rewrite <- Hc, <- Hoff by lia.
        replace (off + j - off) with j by lia.
        symmetry. apply table_cell_here. fold m. lia. }
      assert (BaseFile.read f column (Slice.Indices M.*1) = Ok vsf) as Hread.
      { apply BaseFile_read_indices; [|done|done|].
        - intros HM. unfold Slice.nonempty, Slice.size in Hne. simpl in Hne.
          by rewrite HM in Hne.
        - apply Forall2_fmap_l. eapply Forall2_impl; [exact Hvsf|]. by intros ?? [? _]. }
      exists (vsf :: tmp). simpl app. rewrite rmap_cons. cbn [fst snd]. rewrite Hread.
      cbn [mbind result_bind]. rewrite Htmp. cbn [mbind result_bind].
      split; [done|]. rewrite !fmap_cons. cbn [concat fst snd Slice.to_array]. split.
      * apply Forall2_app; [|done].
        apply Forall2_fmap_l. eapply Forall2_impl; [exact Hvsf|]. by intros ?? [_ ?].
      * by rewrite Hperm.
    + assert (M = []) as HM.
      { unfold Slice.nonempty, Slice.size in Hne. cbn [Slice.to_array] in Hne.
        rewrite length_fmap in Hne. clearbody M.
        destruct (Z.ltb_spec 0 (Z.of_nat (length M))); [done|].
        destruct M; [done|]. simpl in *. lia. }
      exists tmp. simpl app. rewrite HM in Hsplit. simpl in Hsplit.
      split; [done|]. split; [done|]. by rewrite Hperm.
Qed.

End index_hits.

Lemma read_slice_indices (st : FileStack.t) (column : string) (sli : Slice.t) (vs : list Z) :
  Forall (indexable column) (FileStack.files st) →
  Slice.is_array sli = true →
  Forall2 (λ p v, table_cell (FileStack.files st) column p = Some v)
    (Slice.to_array sli) vs →
  ∃ pieces,
    FileStack.read_slice st column sli
      ((λ w, Slice.find (Slice.Range w.1 w.2 1) sli)
         <$> windows 0 (FileStack.filesizes st)) = Ok pieces
    ∧ concat pieces = vs.
Proof.
  intros Hix Harr Hcells. destruct sli as [|idx]; [done|]. cbn [Slice.to_array] in Hcells.
  assert (Forall (λ f, 0 ≤ BaseFile.csize f) (FileStack.files st)) as Hfs.
  { apply (whole_nonneg column). eapply Forall_impl; [exact Hix|]. by intros ? [? _]. }
  rewrite read_slice_hits.
  destruct (hits_indices column idx vs (table_cell (FileStack.files st) column) Hcells
              (FileStack.files st) 0 Hix) as (tmp & Htmp & Hvals & Hperm).
  { intros p _. f_equal. lia. }
  cbv zeta in Htmp, Hvals, Hperm. rewrite Htmp. cbn [mbind result_bind].
  rewrite keys_in_all in Hperm.
  2:{ apply Forall_forall. intros p Hp. apply list_elem_of_lookup in Hp as [i Hi].
      destruct (Forall2_lookup_l _ _ _ _ _ Hcells Hi) as (v & _ & Hv).
      apply table_cell_bounds in Hv; [lia|done]. }
  rewrite (Forall2_length _ _ _ Hcells) in Hperm.
  destruct tmp as [|t tmp].
  - exists []. split; [done|]. simpl in *.
    apply Forall2_nil_inv_r in Hvals. rewrite Hvals in Hperm.
    apply Permutation_nil_l in Hperm.
    destruct vs; [done|]. rewrite seqZ_cons in Hperm by (simpl; lia). done.
  - cbn [Slice.is_array].
    rewrite (argsort_inverts _ (concat (t :: tmp)) vs Hperm Hvals).
    exists [vs]. split; [done|]. simpl. apply app_nil_r.
Qed.

(** With the partition algebra as the specification describes it, on
    files of a format other than FITS that hold the column over all
    their rows, for partitions held as index arrays or as ranges of
    stride [1] or [-1] that select a row:
    [read] returns, for each partition of the rank in turn, the rows at
    the positions of the partition in the order the partition lists
    them.  For a partition held as an index array the positions may
    come in any order and may repeat; the rows the files return are put
    back in that order by the sort on the offsets. *)
Theorem read_index_partitions (st : FileStack.t) (column : string) (vss : list (list Z)) :
  Forall (indexable column) (FileStack.files st) →
  Forall2 (λ sli vs,
             index_or_run sli
             ∧ Forall2 (λ p v, table_cell (FileStack.files st) column p = Some v)
                 (Slice.to_array sli) vs)
    (FileStack.slices st) vss →
  concat vss ≠ [] →
  FileStack.read st column = Ok (concat vss).
Proof.
  intros Hix Hparts Hne. unfold FileStack.read.
  assert (Forall (λ f, 0 ≤ BaseFile.csize f) (FileStack.files st)) as Hfs.
  { apply (whole_nonneg column). eapply Forall_impl; [exact Hix|]. by intros ? [? _]. }
  rewrite fileslices_windows, rmap_zip_fmap. cbn [fst snd].
  assert (∃ toret,
    rmap (λ sli, FileStack.read_slice st column sli
                   ((λ w, Slice.find (Slice.Range w.1 w.2 1) sli)
                      <$> windows 0 (FileStack.filesizes st)))
         (FileStack.slices st) = Ok toret
    ∧ @concat Z <$> toret = vss) as (toret & -> & <-).
  { clear Hne.
    induction Hparts as [|sli vs sls vss [Hkind Hcells] _ (toret & IH1 & IH2)].
    - by exists [].
    - assert (∃ pieces,
        FileStack.read_slice st column sli
          ((λ w, Slice.find (Slice.Range w.1 w.2 1) sli)
             <$> windows 0 (FileStack.filesizes st)) = Ok pieces
        ∧ concat pieces = vs) as (pieces & Hp & Hc).
      { destruct Hkind as [Harr|Hrun].
        - by apply read_slice_indices.
        - by apply read_slice_run. }
      exists (pieces :: toret). rewrite rmap_cons, Hp, IH1, fmap_cons, Hc, IH2. done. }
  simpl. rewrite <- concat_concat in *.
  unfold concatenate. by destruct (concat toret).
Qed.

Lemma read_index_partitions_witness :
  FileStack.read
    (stack_with [shard_xy; shard_big] [Slice.Indices [6; 0; 4; 2]; Slice.Range 4 2 (-1)]) "X"
  = Ok [16; 10; 14; 12; 14; 13].
Proof.
  apply (read_index_partitions
           (stack_with [shard_xy; shard_big] [Slice.Indices [6; 0; 4; 2]; Slice.Range 4 2 (-1)])
           "X" [[16; 10; 14; 12]; [14; 13]]).
  - constructor; [|constructor; [|constructor]];
      (split; [split; [by eexists|eexists; split; [by vm_compute|done]]|discriminate]).
  - constructor; [|constructor; [|constructor]].
    + split; [by left|]. repeat constructor.
    + split; [|repeat constructor].
      right. split; [done|]. exists 4, (-1), 2. split; [by right|]. split; [lia|done].
  - done.
Defined.

Section scattered.

Lemma scattered_get_window (chunks : list (list Z)) (a b : Z) :
  0 ≤ a → a ≤ b → b ≤ Z.of_nat (length (concat chunks)) →
  ∃ got,
    FileStack.scattered_get chunks (Slice.Range a b 1) = Ok got
    ∧ Z.of_nat (length got) = b - a
    ∧ Forall (λ p, p ∈ concat chunks) got.
Proof.
  intros Ha Hab Hb. unfold FileStack.scattered_get. cbn [Slice.to_array].
  rewrite range_list_unit by done.
  set (L := concat chunks) in *.
  exists (take (Z.to_nat (b - a)) (drop (Z.to_nat a) L)). split; [|split].
  - apply rmap_itemZ. apply Forall2_same_length_lookup. split.
    + rewrite length_seqZ, length_take, length_drop. lia.
    + intros i p v Hp Hv. apply lookup_seqZ in Hp as [-> Hi]. split; [lia|].
      rewrite lookup_take_Some in Hv. destruct Hv as [Hv _].
      rewrite lookup_drop in Hv. rewrite <- Hv. f_equal. lia.
  - rewrite length_take, length_drop. lia.
  - apply Forall_forall. intros p Hp.
    apply list_elem_of_lookup in Hp as [i Hi].
    rewrite lookup_take_Some in Hi. destruct Hi as [Hi _].
    rewrite lookup_drop in Hi. by eapply list_elem_of_lookup_2.
Qed.

Lemma length_positions (gathered : list Slice.t) :
  Z.of_nat (length (concat (Slice.to_array <$> gathered))) = sumZ (Slice.size <$> gathered).
Proof.
  induction gathered as [|sl l IH]; [done|].
  rewrite !fmap_cons, sumZ_cons. cbn [concat]. rewrite length_app.
  unfold Slice.size at 1. lia.
Qed.

Lemma length_all_positions (others : list (FileStack.t * list (list Slice.t))) :
  Z.of_nat (length (concat (others ≫= λ o, Slice.to_array <$> concat o.2)))
  = sumZ ((λ o, sumZ (Slice.size <$> concat o.2)) <$> others).
Proof.
  induction others as [|o others IH]; [done|].
  rewrite bind_cons, concat_app, length_app, fmap_cons, sumZ_cons.
  rewrite Nat2Z.inj_add, IH, length_positions. done.
Qed.

Lemma elem_of_concat {A : Type} (x : A) (ls : list (list A)) :
  x ∈ concat ls → ∃ l, x ∈ l ∧ l ∈ ls.
Proof.
  induction ls as [|l ls IH]; simpl; [by intros ?%elem_of_nil|].
  intros [Hx|Hx]%elem_of_app.
  - exists l. split; [done|left].
  - destruct (IH Hx) as (l' & ? & ?). exists l'. split; [done|by right].
Qed.

Lemma elem_of_all_positions (others : list (FileStack.t * list (list Slice.t))) (p : Z) :
  p ∈ concat (others ≫= λ o, Slice.to_array <$> concat o.2) →
  ∃ o sl, o ∈ others ∧ sl ∈ concat o.2 ∧ p ∈ Slice.to_array sl.
Proof.
  intros Hp. apply elem_of_concat in Hp as (ps & Hp & Hps).
  apply list_elem_of_bind in Hps as (o & Hps & Ho).
  apply list_elem_of_fmap in Hps as (sl & -> & Hsl).
  by exists o, sl.
Qed.

Lemma existsb_Exists {A : Type} (f : A → bool) (l : list A) :
  Exists (λ a, f a = true) l → existsb f l = true.
Proof.
  induction 1 as [a l Ha|a l _ IH]; simpl.
  - by rewrite Ha.
  - rewrite IH. by destruct (f a).
Qed.

End scattered.

(** With the partition algebra as the specification describes it, on
    the array path of [concatenate] (one of the stacks holds an index
    array): the partition of the new stack lists positions the stacks
    held, as they were.  The positions of a stack are not moved past
    the rows of the stacks before it, as the range path does. *)
Theorem concatenate_index_positions (current : MPIComm.t)
    (others : list (FileStack.t * list (list Slice.t))) :
  let P := MPIComm.size current in
  let r := MPIComm.rank current in
  let c := sumZ ((λ o, sumZ (Slice.size <$> concat o.2)) <$> others) in
  let files := others.*1 ≫= FileStack.files in
  1 ≤ P → 0 ≤ r < P →
  Forall (λ f, MPIComm.id (BaseFile.mpicomm f) = MPIComm.id current) files →
  Exists (λ o, is_Some (FileStack._slices o.1)) others →
  Exists (λ o, Exists (λ sl, Slice.is_array sl = true) (concat o.2)) others →
  ∃ got new,
    FileStackOps.concatenate current others = Ok new
    ∧ FileStack.files new = files
    ∧ FileStack._slices new = Some [Slice.Indices got]
    ∧ Z.of_nat (length got) = (r + 1) * c / P - r * c / P
    ∧ Forall (λ p, ∃ o sl, o ∈ others ∧ sl ∈ concat o.2 ∧ p ∈ Slice.to_array sl) got.
Proof.
  intros P r c files HP Hr Hcomm Hset Harr.
  pose proof (length_all_positions others) as Hlen. fold c in Hlen.
  assert (0 ≤ c) as Hc by lia.
  destruct (scattered_get_window (others ≫= λ o, Slice.to_array <$> concat o.2)
              (r * c / P) ((r + 1) * c / P)) as (got & Hgot & Hsize & Hin).
  { apply Z.div_pos; nia. }
  { apply floor_step_mono; lia. }
  { rewrite Hlen. apply Z.div_le_upper_bound; nia. }
  set (new := {| FileStack.files := files; FileStack.mpicomm := current;
                 FileStack.mpiroot := 0; FileStack._slices := Some [Slice.Indices got] |}).
  exists got, new. split; [|split; [done|split; [done|split; [done|]]]].
  - unfold FileStackOps.concatenate, FileStack.__init__.
    rewrite rmap_inl. cbn [mbind result_bind].
    fold files. rewrite (proj2 (forallb_comm_Forall current files) Hcomm).
    cbn [mbind result_bind].
    rewrite existsb_Exists.
    2:{ eapply Exists_impl; [exact Hset|]. intros o Ho. simpl. by apply bool_decide_eq_true_2. }
    rewrite existsb_Exists.
    2:{ eapply Exists_impl; [exact Harr|]. intros o Ho. simpl. by apply existsb_Exists. }
    cbn [FileStack.mpicomm Slice.make Z.eqb mbind result_bind]. fold c P r.
    rewrite Hgot. done.
  - eapply Forall_impl; [exact Hin|]. intros p Hp. by apply elem_of_all_positions.
Qed.

Lemma concatenate_index_positions_witness :
  ∃ got new,
    FileStackOps.concatenate {| MPIComm.id := 0; MPIComm.rank := 0; MPIComm.size := 1 |}
      [(stack_with [shard_xy] [Slice.Indices [2; 0]], alone [Slice.Indices [2; 0]]);
       (stack_with [shard_x] [Slice.Range 1 2 1], alone [Slice.Range 1 2 1])] = Ok new
    ∧ FileStack.files new = [shard_xy; shard_x]
    ∧ FileStack._slices new = Some [Slice.Indices got]
    ∧ Z.of_nat (length got) = 3
    ∧ Forall (λ p, p = 2 ∨ p = 0 ∨ p = 1) got.
Proof.
  destruct (concatenate_index_positions
              {| MPIComm.id := 0; MPIComm.rank := 0; MPIComm.size := 1 |}
              [(stack_with [shard_xy] [Slice.Indices [2; 0]], alone [Slice.Indices [2; 0]]);
               (stack_with [shard_x] [Slice.Range 1 2 1], alone [Slice.Range 1 2 1])])
    as (got & new & Hnew & Hfiles & Hsl & Hlen & Hpos).
  - simpl. lia.
  - simpl. lia.
  - repeat constructor.
  - left. by eexists.
  - left. by left.
  - exists got, new. split; [exact Hnew|]. split; [exact Hfiles|]. split; [exact Hsl|].
    split; [exact Hlen|].
    eapply Forall_impl; [exact Hpos|]. intros p (o & sl & Ho & Hsl' & Hp).
    repeat (apply elem_of_cons in Ho as [->|Ho]); [| |by apply elem_of_nil in Ho].
    + simpl in Hsl'. apply elem_of_cons in Hsl' as [->|Hsl']; [|by apply elem_of_nil in Hsl'].
      simpl in Hp. repeat (apply elem_of_cons in Hp as [->|Hp]); try lia.
      by apply elem_of_nil in Hp.
    + simpl in Hsl'. apply elem_of_cons in Hsl' as [->|Hsl']; [|by apply elem_of_nil in Hsl'].
      vm_compute in Hp. repeat (apply elem_of_cons in Hp as [->|Hp]); try lia.
      by apply elem_of_nil in Hp.
Defined.

Section hdf5_facts.

Lemma assoc_app {A : Type} (name : string) (l1 l2 : list (string * A)) :
  HDF5.assoc name (l1 ++ l2)
  = match HDF5.assoc name l1 with Some a => Some a | None => HDF5.assoc name l2 end.
Proof.
  induction l1 as [|[k a] l1 IH]; [done|]. simpl. by case_bool_decide.
Qed.

Lemma assoc_None {A : Type} (name : string) (l : list (string * A)) :
  name ∉ l.*1 → HDF5.assoc name l = None.
Proof.
  induction l as [|[k a] l IH]; [done|]. simpl. intros Hn.
  apply not_elem_of_cons in Hn as [Hne Hn]. rewrite bool_decide_eq_false_2 by done. auto.
Qed.

Lemma assoc_Some {A : Type} (name : string) (a : A) (l : list (string * A)) :
  NoDup l.*1 → (name, a) ∈ l → HDF5.assoc name l = Some a.
Proof.
  induction l as [|[k b] l IH]; simpl; [by intros _ ?%elem_of_nil|].
  intros [Hk Hnd]%NoDup_cons [[= -> ->]|Hin]%elem_of_cons.
  - by rewrite bool_decide_eq_true_2.
  - rewrite bool_decide_eq_false_2; [by apply IH|].
    intros ->. apply Hk. apply list_elem_of_fmap. by exists (name, a).
Qed.

(** The columns after the first are created in the root group. *)
Lemma write_columns_rest (group : string) (header : gmap string Z)
    (file : HDF5.File) (data : list (string * list Z)) :
  NoDup data.*1 → Forall (λ name, name ∉ (HDF5.members file).*1) data.*1 →
  HDF5.write_columns group header false file data
  = Ok {| HDF5.attrs := HDF5.attrs file;
          HDF5.members := HDF5.members file ++ ((λ c, (c.1, HDF5.Dset c.2)) <$> data) |}.
Proof.
  revert file. induction data as [|[n a] data IH]; intros file Hnd Hfree.
  - simpl. rewrite app_nil_r. by destruct file.
  - rewrite fmap_cons in Hnd, Hfree. apply NoDup_cons in Hnd as [Hn Hnd].
    apply Forall_cons in Hfree as [Hfree1 Hfree].
    cbn [HDF5.write_columns HDF5.write_column fst snd]. unfold HDF5.create.
    rewrite assoc_None by done. cbn [mbind result_bind].
    rewrite IH; cbn [HDF5.members HDF5.attrs].
    + rewrite fmap_cons, <- app_assoc. done.
    + done.
    + apply Forall_forall. intros name Hin.
      pose proof (proj1 (Forall_forall _ _) Hfree name Hin) as Hname.
      rewrite fmap_app. cbn. intros [?|Hx]%elem_of_app; [done|].
      apply list_elem_of_singleton in Hx as ->. done.
Qed.

Lemma rmap_units {A : Type} (f : A → result ()) (l : list A) :
  Forall (λ a, f a = Ok ()) l → ∃ us, rmap f l = Ok us.
Proof.
  induction 1 as [|a l Ha _ [us IH]]; [by exists []|].
  exists (() :: us). by rewrite rmap_cons, Ha, IH.
Qed.

End hdf5_facts.

(** The names of the columns being single components of a path:
    written without the [mpio] driver to a group other than the root
    whose name is a single component too, only the first column lands
    in the group and the others are created in the root group: the
    header read back from the group lists that one column.  Written to
    the root group, all the columns are read back. *)
Theorem hdf5_group_keeps_first_column (keys : list string → list string)
    (group : string) (header : gmap string Z)
    (column : string * list Z) (rest : list (string * list Z)) :
  (∀ l, keys l ≡ₚ l) →
  NoDup (column :: rest).*1 →
  Forall (λ name, HDF5.component name = true) (column :: rest).*1 →
  let g := HDF5.__init__ group in
  (g ≠ "/" → HDF5.component g = true → g ∉ rest.*1 →
   ∃ file,
     HDF5._write_data g header (column :: rest) = Ok file
     ∧ HDF5._read_header_root keys file g
       = Ok (Header.hdf5_root (Z.of_nat (length column.2)) [column.1] header)
     ∧ Forall (λ c, HDF5.assoc c.1 (HDF5.members file) = Some (HDF5.Dset c.2)) rest)
  ∧ (g = "/" → Forall (λ c, length c.2 = length column.2) rest →
     ∃ file,
       HDF5._write_data g header (column :: rest) = Ok file
       ∧ HDF5._read_header_root keys file g
         = Ok (Header.hdf5_root (Z.of_nat (length column.2))
                 (keys (column :: rest).*1) header)).
Proof.
  intros Hkeys Hnd _ g. split.
  - intros Hg _ Hfree.
    rewrite fmap_cons in Hnd. apply NoDup_cons in Hnd as [Hfirst Hnd].
    unfold HDF5._write_data.
    cbn [HDF5.write_columns HDF5.write_column].
    rewrite bool_decide_eq_true_2 by done.
    unfold HDF5.create. cbn [HDF5.created HDF5.members HDF5.assoc mbind result_bind HDF5.attrs].
    rewrite write_columns_rest; [|done|].
    2:{ cbn. apply Forall_forall. intros name Hname [->|Hx]%elem_of_cons; [done|].
        by apply elem_of_nil in Hx. }
    eexists. split; [done|]. cbn [HDF5.members HDF5.attrs app]. split.
    + unfold HDF5._read_header_root, HDF5.open_group.
      rewrite bool_decide_eq_false_2 by done.
      cbn [HDF5.members HDF5.assoc]. rewrite bool_decide_eq_true_2 by done.
      cbn [mbind result_bind fst snd fmap list_fmap].
      assert (keys [column.1] = [column.1]) as ->.
      { apply Permutation_singleton_r. by rewrite Hkeys. }
      cbn [item lookup list_lookup mbind result_bind HDF5.assoc].
      unfold item. cbn [lookup list_lookup mbind result_bind].
      rewrite bool_decide_eq_true_2 by done.
      cbn [HDF5.shape0 mbind result_bind rmap].
      rewrite bool_decide_eq_true_2 by done.
      cbn [HDF5.shape0 mbind result_bind rmap]. rewrite Z.eqb_refl.
      cbn [mbind result_bind]. by rewrite (right_id_L ∅ (∪)).
    + apply Forall_forall. intros [n a] Hin. cbn [fst snd].
      assert (n ≠ g) as Hng.
      { intros ->. apply Hfree. apply list_elem_of_fmap. by exists (g, a). }
      simpl. rewrite bool_decide_eq_false_2 by done.
      apply assoc_Some.
      * rewrite <- list_fmap_compose. exact Hnd.
      * apply list_elem_of_fmap. by exists (n, a).
  - intros Hg Hlen. rewrite Hg.
    rewrite fmap_cons in Hnd. pose proof Hnd as Hnd'.
    apply NoDup_cons in Hnd as [Hfirst Hnd].
    unfold HDF5._write_data.
    cbn [HDF5.write_columns HDF5.write_column].
    rewrite bool_decide_eq_false_2 by (by intros ?).
    unfold HDF5.create. cbn [HDF5.created HDF5.members HDF5.assoc mbind result_bind HDF5.attrs].
    rewrite write_columns_rest; [|done|].
    2:{ cbn. apply Forall_forall. intros name Hname [->|Hx]%elem_of_cons; [done|].
        by apply elem_of_nil in Hx. }
    eexists. split; [done|]. cbn [HDF5.members HDF5.attrs app].
    unfold HDF5._read_header_root, HDF5.open_group.
    rewrite bool_decide_eq_true_2 by done.
    cbn [mbind result_bind fst snd HDF5.attrs HDF5.members].
    set (ms := (column.1, HDF5.Dset column.2) :: ((λ c, (c.1, HDF5.Dset c.2)) <$> rest)).
    assert (ms.*1 = (column :: rest).*1) as Hnames.
    { unfold ms. rewrite !fmap_cons, <- !list_fmap_compose. done. }
    rewrite Hnames.
    assert (∀ name, name ∈ (column :: rest).*1 →
              HDF5.shape0 (HDF5.assoc name ms) = Ok (Z.of_nat (length column.2))) as Hshape.
    { intros name Hname. apply list_elem_of_fmap in Hname as ([n a] & -> & Hin).
      cbn [fst]. rewrite (assoc_Some n (HDF5.Dset a) ms).
      - simpl. apply elem_of_cons in Hin as [<-|Hin]; [done|].
        pose proof (proj1 (Forall_forall _ _) Hlen _ Hin) as Hl. simpl in Hl.
        by rewrite Hl.
      - by rewrite Hnames.
      - unfold ms. apply elem_of_cons in Hin as [<-|Hin]; [by left|right].
        apply list_elem_of_fmap. by exists (n, a). }
    destruct (keys (column :: rest).*1) as [|k ks] eqn:Ek.
    { pose proof (Hkeys (column :: rest).*1) as Hp. rewrite Ek in Hp.
      apply Permutation_nil_l in Hp. done. }
    unfold item. cbn [lookup list_lookup mbind result_bind].
    assert (∀ name, name ∈ k :: ks → name ∈ (column :: rest).*1) as Hsub.
    { intros name Hname. by rewrite <- (Hkeys (column :: rest).*1), Ek. }
    rewrite Hshape by (apply Hsub; left). cbn [mbind result_bind].
    destruct (rmap_units
                (λ name, n ← HDF5.shape0 (HDF5.assoc name ms);
                         if n =? Z.of_nat (length column.2) then Ok () else Raise IOError)
                (k :: ks)) as [us ->].
    { apply Forall_forall. intros name Hname. rewrite Hshape by (by apply Hsub).
      cbn [mbind result_bind]. by rewrite Z.eqb_refl. }
    cbn [mbind result_bind]. by rewrite (right_id_L ∅ (∪)).
Qed.

Lemma hdf5_group_keeps_first_column_witness :
  ∃ file,
    HDF5._write_data "cat" ∅ [("X", [1; 2]); ("Y", [3; 4])] = Ok file
    ∧ HDF5._read_header_root (λ l, l) file "cat" = Ok (Header.hdf5_root 2 ["X"] ∅)
    ∧ Forall (λ c, HDF5.assoc c.1 (HDF5.members file) = Some (HDF5.Dset c.2)) [("Y", [3; 4])].
Proof.
  refine (proj1 (hdf5_group_keeps_first_column (λ l, l) "cat" ∅ ("X", [1; 2])
                   [("Y", [3; 4])] _ _ _) _ _ _).
  - intros l. reflexivity.
  - apply NoDup_cons. split; [|apply NoDup_singleton].
    intros [?|?%elem_of_nil]%elem_of_cons; [discriminate|done].
  - repeat constructor.
  - discriminate.
  - reflexivity.
  - intros [?|?%elem_of_nil]%elem_of_cons; [discriminate|done].
Defined.

Lemma slice_unit_window (lo hi a b : Z) :
  lo ≤ hi → 0 ≤ a → a ≤ b → b ≤ hi - lo →
  Slice.slice (Slice.Range lo hi 1) (Slice.Range a b 1) = Slice.Range (lo + a) (lo + b) 1.
Proof.
  intros Hlo Ha Hab Hb. unfold Slice.slice. rewrite size_unit_range by done.
  unfold Slice.with_size, Slice.clamp. change (0 <? 1) with true. cbv iota.
  f_equal; lia.
Qed.

(** With the partition algebra as the specification describes it, on a
    rank that holds the rows [lo .. hi - 1] (as with the default
    partition): [slice(a, b, 1)] selects among the rows of the rank, so
    that reading after it returns the rows [a .. b - 1] of what the
    rank read before, and a second [slice(u, v, 1)] selects among
    those. *)
Theorem slice_reads_local_rows (st : FileStack.t) (column : string) (lo hi a b : Z) :
  Forall (whole column) (FileStack.files st) →
  FileStack.slices st = [Slice.Range lo hi 1] →
  0 ≤ lo → hi ≤ FileStack.cfilesize st →
  0 ≤ a → a < b → b ≤ hi - lo →
  ∃ st' rows,
    FileStackLocal.slice st a b 1 = Ok st'
    ∧ FileStack.files st' = FileStack.files st
    ∧ FileStack.size st' = b - a
    ∧ FileStack.read st column = Ok rows
    ∧ FileStack.read st' column = Ok (between rows a b)
    ∧ ∀ u v, 0 ≤ u → u < v → v ≤ b - a →
        ∃ st'', FileStackLocal.slice st' u v 1 = Ok st''
                ∧ FileStack.read st'' column = Ok (between rows (a + u) (a + v)).
Proof.
  intros Hwhole Hsl Hlo Hhi Ha Hab Hb.
  set (T := table (FileStack.files st) column).
  assert (∀ x y, 0 ≤ x → x < y → y ≤ FileStack.cfilesize st →
            ∀ s, FileStack.files s = FileStack.files st →
                 FileStack.slices s = [Slice.Range x y 1] →
                 FileStack.read s column = Ok (between T x y)) as Hread.
  { intros x y Hx Hxy Hy s Hf Hs.
    unfold T. rewrite <- (read_range st column x y) by done.
    apply read_ext; [done|]. by rewrite Hs. }
  exists (FileStack.set_slices st (Some [Slice.Range (lo + a) (lo + b) 1])),
         (between T lo hi).
  split; [|split; [done|split; [|split; [|split]]]].
  - unfold FileStackLocal.slice. cbn [Slice.make Z.eqb mbind result_bind].
    rewrite Hsl. cbn [fmap list_fmap]. by rewrite slice_unit_window by lia.
  - unfold FileStack.size, FileStack.slices. cbn. rewrite size_unit_range by lia. lia.
  - apply Hread; [lia|lia|lia|done|done].
  - rewrite between_between by lia. apply Hread; [lia|lia|lia|done|done].
  - intros u v Hu Huv Hv.
    exists (FileStack.set_slices st (Some [Slice.Range (lo + a + u) (lo + a + v) 1])).
    split.
    + unfold FileStackLocal.slice. cbn [Slice.make Z.eqb mbind result_bind].
      unfold FileStack.slices at 1. cbn [FileStack.set_slices FileStack._slices].
      cbn [fmap list_fmap]. rewrite slice_unit_window by lia. done.
    + rewrite between_between by lia.
      replace (lo + (a + u)) with (lo + a + u) by lia.
      replace (lo + (a + v)) with (lo + a + v) by lia.
      apply Hread; [lia|lia|lia|done|done].
Qed.

Lemma slice_reads_local_rows_witness :
  ∃ st' rows,
    FileStackLocal.slice (stack_of [shard_xy; shard_x] 2 1) 1 3 1 = Ok st'
    ∧ FileStack.files st' = [shard_xy; shard_x]
    ∧ FileStack.size st' = 2
    ∧ FileStack.read (stack_of [shard_xy; shard_x] 2 1) "X" = Ok rows
    ∧ FileStack.read st' "X" = Ok (between rows 1 3).
Proof.
  destruct (slice_reads_local_rows (stack_of [shard_xy; shard_x] 2 1) "X" 3 7 1 3)
    as (st' & rows & H1 & H2 & H3 & H4 & H5 & _).
  - exact whole_shards.
  - reflexivity.
  - lia.
  - by vm_compute.
  - lia.
  - lia.
  - lia.
  - exists st', rows. repeat split; assumption.
Defined.
